(** * MiniReact: Fiber work loop, reconciler, commit phase and hooks

    A shallow embedding of the core modules of MiniReact
    ([core/constants], [core/fiber], [core/reconciler], [core/commit],
    [hooks/hookUtils], [hooks/useState], [hooks/useReducer],
    [hooks/useEffect], [hooks/useMemo], [hooks/useCallback],
    [hooks/useRef], [hooks/useContext]) and the statements of its
    specification that are settled against them.

    Conventions of the embedding.
    - JavaScript objects that the library mutates are passed explicitly:
      a function that writes to a fiber returns the fiber it wrote to,
      module-level variables live in the record [rt].
    - A fiber is a tree: [child], [sibling] and [alternate] are sub-terms.
      An [alternate] is the old fiber as it was when the new one was
      built; a later write to the old fiber (the cleanups that
      [commitDeletion] clears in the siblings of a deleted fiber) is seen
      through the fiber that the writing function returns, not through
      other fibers that hold the old one.  The statements below concern
      trees in which the deleted fiber is the only child of the root, or
      do not go through [commitDeletion].
      The [parent] back-reference is kept as the chain of the ancestors'
      fields that the library reads through it ([dom], [contextProviders]);
      those are final before any child fiber is created.
    - The library runs in a browser: every [typeof window !== 'undefined']
      test takes the branch of the browser, and [window.minireact] exists.
    - Callbacks supplied by the application (effects, cleanups, event
      handlers) are small scripts ([cmd]); component functions are Rocq
      functions in the monad [M].
    - The output tree (the DOM) is reduced to node identities and the
      parent relation; attributes and listeners are not represented. *)

From stdpp Require Import gmap strings list fin_maps pretty.
From Stdlib Require Import ZArith Lia.

Local Open Scope string_scope.
Local Open Scope list_scope.

(** ** JavaScript values *)

(** The values that states, dependencies and keys range over.  [VObj] is an
    object reference: two references are the same object iff the numbers
    agree.  Numbers are integers ([NaN] and the signed zeros are not
    represented). *)
Inductive value :=
  | VUndefined
  | VNull
  | VBool (b : bool)
  | VNum (z : Z)
  | VStr (s : string)
  | VObj (ref : nat).

#[global] Instance value_eq_dec : EqDecision value.
Proof. solve_decision. Defined.

(** [Object.is(a, b)] *)
Definition Object_is (a b : value) : bool := bool_decide (a = b).

(** [v == null], the test behind [??] *)
Definition nullish (v : value) : bool :=
  match v with VUndefined | VNull => true | _ => false end.

(** ** core/constants *)

Inductive EFFECT_TAGS := PLACEMENT | UPDATE | DELETION.

#[global] Instance EFFECT_TAGS_eq_dec : EqDecision EFFECT_TAGS.
Proof. solve_decision. Defined.

Definition TEXT_ELEMENT : string := "TEXT_ELEMENT".

(** ** Elements *)

(** A function object: its identity, its [name] and its [toString()]. *)
Record fn_ref := { fn_id : nat; fn_name : string; fn_src : string }.

#[global] Instance fn_ref_eq_dec : EqDecision fn_ref.
Proof. solve_decision. Defined.

Inductive etype :=
  | THost (tagName : string)
  | TFunc (f : fn_ref).

#[global] Instance etype_eq_dec : EqDecision etype.
Proof. solve_decision. Defined.

(** [{ type, props: { key, ...attrs, children } }]; an entry of a child
    array may be [null]. *)
Local Unset Elimination Schemes.

Inductive element := Element {
  e_type : etype;
  e_key : option value;
  e_attrs : list (string * value);
  e_children : list (option element) }.

Local Set Elimination Schemes.

Record props := Props {
  p_key : option value;
  p_attrs : list (string * value);
  p_children : list (option element) }.

Definition e_props (e : element) : props :=
  Props (e_key e) (e_attrs e) (e_children e).

(** ** Application callbacks *)

(** The argument of a state setter: a value, or an updater function. *)
Inductive action :=
  | AVal (v : value)
  | AFun (f : value -> value).

(** [typeof action === 'function' ? action(s) : action] *)
Definition apply_action (a : action) (s : value) : value :=
  match a with AVal v => v | AFun f => f s end.

(** What a callback does: it calls setters and dispatchers of hooks (which
    are closures over the hook key only), and it may throw. *)
Inductive cmd :=
  | CSetState (hookKey : string) (a : action)
  | CDispatch (hookKey : string) (a : value)
  | CThrow.

(** A cleanup function, with a label under which its calls are traced. *)
Record cleanup_fn := { cl_name : nat; cl_body : list cmd }.

(** An effect function: its label, its body and the value it returns
    ([Some c] when that is a function). *)
Record effect_fn := {
  ef_name : nat;
  ef_body : list cmd;
  ef_returns : option cleanup_fn }.

(** ** Hooks and fibers *)

Inductive Hook :=
  | StateHook (state : value) (setState : string)
  | ReducerHook (state : value) (dispatch : string)
  | EffectHook (effect : effect_fn) (cleanup : option cleanup_fn)
               (deps : option (list value)) (hasChanged : bool)
  | MemoHook (val : value) (deps : option (list value))
  | RefHook (current : value)
  | ContextHook (context : nat) (val : value).

(** [hook.tag === 'effect'] *)
Definition is_effect (h : Hook) : bool :=
  match h with EffectHook _ _ _ _ => true | _ => false end.

(** [hook.cleanup], [undefined] on the hooks that have no such field *)
Definition hook_cleanup (h : Hook) : option cleanup_fn :=
  match h with EffectHook _ c _ _ => c | _ => None end.

(** [hook.deps] *)
Definition hook_deps (h : Hook) : option (list value) :=
  match h with
  | EffectHook _ _ d _ => d
  | MemoHook _ d => d
  | _ => None
  end.

Definition set_cleanup (c : option cleanup_fn) (h : Hook) : Hook :=
  match h with
  | EffectHook e _ d ch => EffectHook e c d ch
  | _ => h
  end.

(** A node of the output tree. *)
Definition node := nat.

(** The chain of [parent] links, with the fields read through it. *)
Local Unset Elimination Schemes.

Inductive plink := PLink {
  pl_dom : option node;
  pl_contextProviders : list (nat * value);
  pl_parent : option plink }.

Inductive Fiber := mkFiber {
  f_type : option etype;
  f_props : props;
  f_dom : option node;
  f_parent : option plink;
  f_alternate : option Fiber;
  f_child : option Fiber;
  f_sibling : option Fiber;
  f_effectTag : option EFFECT_TAGS;
  f_hooks : option (list Hook);
  f_deletions : option (list Fiber);
  f_contextProviders : list (nat * value) }.

Local Set Elimination Schemes.

Definition set_dom (d : option node) (f : Fiber) : Fiber :=
  mkFiber (f_type f) (f_props f) d (f_parent f) (f_alternate f) (f_child f)
        (f_sibling f) (f_effectTag f) (f_hooks f) (f_deletions f)
        (f_contextProviders f).

Definition set_child (c : option Fiber) (f : Fiber) : Fiber :=
  mkFiber (f_type f) (f_props f) (f_dom f) (f_parent f) (f_alternate f) c
        (f_sibling f) (f_effectTag f) (f_hooks f) (f_deletions f)
        (f_contextProviders f).

Definition set_sibling (s : option Fiber) (f : Fiber) : Fiber :=
  mkFiber (f_type f) (f_props f) (f_dom f) (f_parent f) (f_alternate f)
        (f_child f) s (f_effectTag f) (f_hooks f) (f_deletions f)
        (f_contextProviders f).

Definition set_alternate (a : option Fiber) (f : Fiber) : Fiber :=
  mkFiber (f_type f) (f_props f) (f_dom f) (f_parent f) a (f_child f)
        (f_sibling f) (f_effectTag f) (f_hooks f) (f_deletions f)
        (f_contextProviders f).

Definition set_effectTag (t : option EFFECT_TAGS) (f : Fiber) : Fiber :=
  mkFiber (f_type f) (f_props f) (f_dom f) (f_parent f) (f_alternate f)
        (f_child f) (f_sibling f) t (f_hooks f) (f_deletions f)
        (f_contextProviders f).

Definition set_hooks (h : option (list Hook)) (f : Fiber) : Fiber :=
  mkFiber (f_type f) (f_props f) (f_dom f) (f_parent f) (f_alternate f)
        (f_child f) (f_sibling f) (f_effectTag f) h (f_deletions f)
        (f_contextProviders f).

Definition set_deletions (d : option (list Fiber)) (f : Fiber) : Fiber :=
  mkFiber (f_type f) (f_props f) (f_dom f) (f_parent f) (f_alternate f)
        (f_child f) (f_sibling f) (f_effectTag f) (f_hooks f) d
        (f_contextProviders f).

Definition set_contextProviders (c : list (nat * value)) (f : Fiber) : Fiber :=
  mkFiber (f_type f) (f_props f) (f_dom f) (f_parent f) (f_alternate f)
        (f_child f) (f_sibling f) (f_effectTag f) (f_hooks f) (f_deletions f)
        c.

(** The link that a child of [f] holds as its [parent]. *)
Definition link_to (f : Fiber) : plink :=
  PLink (f_dom f) (f_contextProviders f) (f_parent f).

(** The fibers reached from [f] through [sibling], [f] first. *)
Fixpoint chain (f : Fiber) : list Fiber :=
  f :: match f_sibling f with Some s => chain s | None => [] end.

Definition chain_of (o : option Fiber) : list Fiber :=
  match o with Some f => chain f | None => [] end.

(** Writing the [sibling] fields so that the list becomes a chain. *)
Fixpoint link (l : list Fiber) : option Fiber :=
  match l with
  | [] => None
  | f :: l' => Some (set_sibling (link l') f)
  end.

(** The number of fibers under [f] along [child] and [sibling]. *)
Fixpoint fiber_size (f : Fiber) : nat :=
  S (match f_child f with Some c => fiber_size c | None => 0 end
     + match f_sibling f with Some s => fiber_size s | None => 0 end).

(** ** The state of the runtime *)

(** A position in the work-in-progress tree, as the moves that lead to it
    from the root, the last move first.  [nextUnitOfWork] is such a
    position: whenever the library assigns it a fiber that is not [null],
    that fiber belongs to the tree of [wipRoot]. *)
Inductive move := Down | Right.

Definition path := list move.

(** The output tree: the parent of every attached node, and the next
    unused node identity. *)
Record dom_tree := { parentNode : gmap nat nat; next_node : nat }.

(** What the run leaves behind: the calls of application callbacks and of
    component functions, and the lines written to the console. *)
Inductive event :=
  | EffectCalled (name : nat)
  | CleanupCalled (name : nat)
  | Rendered (f : fn_ref)
  | ConsoleError (msg : string)
  | ConsoleWarn (msg : string).

(** The module-level variables of [core/fiber], the fields of
    [window.minireact] ([win_]), the maps of [hooks/useState] and
    [hooks/useReducer], and the host: the callbacks registered with
    [requestIdleCallback] (always [workLoop]), the document, the console. *)
Record rt := Rt {
  nextUnitOfWork : option path;
  currentRoot : option Fiber;
  wipRoot : option Fiber;
  wipFiber : option Fiber;
  hookIndex : option nat;
  rootContainer : option node;
  isWorkLoopRunning : bool;
  globalDeletions : list Fiber;
  win_deletions : option (list Fiber);
  win_wipFiber : option Fiber;
  win_hookIndex : option nat;
  updateQueues : gmap string (list action);
  hookStates : gmap string value;
  actionQueues : gmap string (list value);
  reducerStates : gmap string value;
  dispatchers : gset string;
  idleCallbacks : nat;
  document : dom_tree;
  console : list event }.

Definition set_nextUnitOfWork (v : option path) (s : rt) : rt :=
  Rt v (currentRoot s) (wipRoot s) (wipFiber s) (hookIndex s)
     (rootContainer s) (isWorkLoopRunning s) (globalDeletions s)
     (win_deletions s) (win_wipFiber s) (win_hookIndex s) (updateQueues s)
     (hookStates s) (actionQueues s) (reducerStates s) (dispatchers s)
     (idleCallbacks s) (document s) (console s).

Definition set_currentRoot (v : option Fiber) (s : rt) : rt :=
  Rt (nextUnitOfWork s) v (wipRoot s) (wipFiber s) (hookIndex s)
     (rootContainer s) (isWorkLoopRunning s) (globalDeletions s)
     (win_deletions s) (win_wipFiber s) (win_hookIndex s) (updateQueues s)
     (hookStates s) (actionQueues s) (reducerStates s) (dispatchers s)
     (idleCallbacks s) (document s) (console s).

Definition set_wipRoot (v : option Fiber) (s : rt) : rt :=
  Rt (nextUnitOfWork s) (currentRoot s) v (wipFiber s) (hookIndex s)
     (rootContainer s) (isWorkLoopRunning s) (globalDeletions s)
     (win_deletions s) (win_wipFiber s) (win_hookIndex s) (updateQueues s)
     (hookStates s) (actionQueues s) (reducerStates s) (dispatchers s)
     (idleCallbacks s) (document s) (console s).

Definition set_wipFiber (v : option Fiber) (s : rt) : rt :=
  Rt (nextUnitOfWork s) (currentRoot s) (wipRoot s) v (hookIndex s)
     (rootContainer s) (isWorkLoopRunning s) (globalDeletions s)
     (win_deletions s) (win_wipFiber s) (win_hookIndex s) (updateQueues s)
     (hookStates s) (actionQueues s) (reducerStates s) (dispatchers s)
     (idleCallbacks s) (document s) (console s).

Definition set_hookIndex (v : option nat) (s : rt) : rt :=
  Rt (nextUnitOfWork s) (currentRoot s) (wipRoot s) (wipFiber s) v
     (rootContainer s) (isWorkLoopRunning s) (globalDeletions s)
     (win_deletions s) (win_wipFiber s) (win_hookIndex s) (updateQueues s)
     (hookStates s) (actionQueues s) (reducerStates s) (dispatchers s)
     (idleCallbacks s) (document s) (console s).

Definition set_rootContainer (v : option node) (s : rt) : rt :=
  Rt (nextUnitOfWork s) (currentRoot s) (wipRoot s) (wipFiber s)
     (hookIndex s) v (isWorkLoopRunning s) (globalDeletions s)
     (win_deletions s) (win_wipFiber s) (win_hookIndex s) (updateQueues s)
     (hookStates s) (actionQueues s) (reducerStates s) (dispatchers s)
     (idleCallbacks s) (document s) (console s).

Definition set_isWorkLoopRunning (v : bool) (s : rt) : rt :=
  Rt (nextUnitOfWork s) (currentRoot s) (wipRoot s) (wipFiber s)
     (hookIndex s) (rootContainer s) v (globalDeletions s) (win_deletions
     s) (win_wipFiber s) (win_hookIndex s) (updateQueues s) (hookStates s)
     (actionQueues s) (reducerStates s) (dispatchers s) (idleCallbacks s)
     (document s) (console s).

Definition set_globalDeletions (v : list Fiber) (s : rt) : rt :=
  Rt (nextUnitOfWork s) (currentRoot s) (wipRoot s) (wipFiber s)
     (hookIndex s) (rootContainer s) (isWorkLoopRunning s) v
     (win_deletions s) (win_wipFiber s) (win_hookIndex s) (updateQueues s)
     (hookStates s) (actionQueues s) (reducerStates s) (dispatchers s)
     (idleCallbacks s) (document s) (console s).

Definition set_win_deletions (v : option (list Fiber)) (s : rt) : rt :=
  Rt (nextUnitOfWork s) (currentRoot s) (wipRoot s) (wipFiber s)
     (hookIndex s) (rootContainer s) (isWorkLoopRunning s)
     (globalDeletions s) v (win_wipFiber s) (win_hookIndex s)
     (updateQueues s) (hookStates s) (actionQueues s) (reducerStates s)
     (dispatchers s) (idleCallbacks s) (document s) (console s).

Definition set_win_wipFiber (v : option Fiber) (s : rt) : rt :=
  Rt (nextUnitOfWork s) (currentRoot s) (wipRoot s) (wipFiber s)
     (hookIndex s) (rootContainer s) (isWorkLoopRunning s)
     (globalDeletions s) (win_deletions s) v (win_hookIndex s)
     (updateQueues s) (hookStates s) (actionQueues s) (reducerStates s)
     (dispatchers s) (idleCallbacks s) (document s) (console s).

Definition set_win_hookIndex (v : option nat) (s : rt) : rt :=
  Rt (nextUnitOfWork s) (currentRoot s) (wipRoot s) (wipFiber s)
     (hookIndex s) (rootContainer s) (isWorkLoopRunning s)
     (globalDeletions s) (win_deletions s) (win_wipFiber s) v
     (updateQueues s) (hookStates s) (actionQueues s) (reducerStates s)
     (dispatchers s) (idleCallbacks s) (document s) (console s).

Definition set_updateQueues (v : gmap string (list action)) (s : rt) : rt :=
  Rt (nextUnitOfWork s) (currentRoot s) (wipRoot s) (wipFiber s)
     (hookIndex s) (rootContainer s) (isWorkLoopRunning s)
     (globalDeletions s) (win_deletions s) (win_wipFiber s) (win_hookIndex
     s) v (hookStates s) (actionQueues s) (reducerStates s) (dispatchers
     s) (idleCallbacks s) (document s) (console s).

Definition set_hookStates (v : gmap string value) (s : rt) : rt :=
  Rt (nextUnitOfWork s) (currentRoot s) (wipRoot s) (wipFiber s)
     (hookIndex s) (rootContainer s) (isWorkLoopRunning s)
     (globalDeletions s) (win_deletions s) (win_wipFiber s) (win_hookIndex
     s) (updateQueues s) v (actionQueues s) (reducerStates s) (dispatchers
     s) (idleCallbacks s) (document s) (console s).

Definition set_actionQueues (v : gmap string (list value)) (s : rt) : rt :=
  Rt (nextUnitOfWork s) (currentRoot s) (wipRoot s) (wipFiber s)
     (hookIndex s) (rootContainer s) (isWorkLoopRunning s)
     (globalDeletions s) (win_deletions s) (win_wipFiber s) (win_hookIndex
     s) (updateQueues s) (hookStates s) v (reducerStates s) (dispatchers
     s) (idleCallbacks s) (document s) (console s).

Definition set_reducerStates (v : gmap string value) (s : rt) : rt :=
  Rt (nextUnitOfWork s) (currentRoot s) (wipRoot s) (wipFiber s)
     (hookIndex s) (rootContainer s) (isWorkLoopRunning s)
     (globalDeletions s) (win_deletions s) (win_wipFiber s) (win_hookIndex
     s) (updateQueues s) (hookStates s) (actionQueues s) v (dispatchers s)
     (idleCallbacks s) (document s) (console s).

Definition set_dispatchers (v : gset string) (s : rt) : rt :=
  Rt (nextUnitOfWork s) (currentRoot s) (wipRoot s) (wipFiber s)
     (hookIndex s) (rootContainer s) (isWorkLoopRunning s)
     (globalDeletions s) (win_deletions s) (win_wipFiber s) (win_hookIndex
     s) (updateQueues s) (hookStates s) (actionQueues s) (reducerStates s)
     v (idleCallbacks s) (document s) (console s).

Definition set_idleCallbacks (v : nat) (s : rt) : rt :=
  Rt (nextUnitOfWork s) (currentRoot s) (wipRoot s) (wipFiber s)
     (hookIndex s) (rootContainer s) (isWorkLoopRunning s)
     (globalDeletions s) (win_deletions s) (win_wipFiber s) (win_hookIndex
     s) (updateQueues s) (hookStates s) (actionQueues s) (reducerStates s)
     (dispatchers s) v (document s) (console s).

Definition set_document (v : dom_tree) (s : rt) : rt :=
  Rt (nextUnitOfWork s) (currentRoot s) (wipRoot s) (wipFiber s)
     (hookIndex s) (rootContainer s) (isWorkLoopRunning s)
     (globalDeletions s) (win_deletions s) (win_wipFiber s) (win_hookIndex
     s) (updateQueues s) (hookStates s) (actionQueues s) (reducerStates s)
     (dispatchers s) (idleCallbacks s) v (console s).

Definition set_console (v : list event) (s : rt) : rt :=
  Rt (nextUnitOfWork s) (currentRoot s) (wipRoot s) (wipFiber s)
     (hookIndex s) (rootContainer s) (isWorkLoopRunning s)
     (globalDeletions s) (win_deletions s) (win_wipFiber s) (win_hookIndex
     s) (updateQueues s) (hookStates s) (actionQueues s) (reducerStates s)
     (dispatchers s) (idleCallbacks s) (document s) v.

Definition log (e : event) (s : rt) : rt := set_console (console s ++ [e]) s.

(** ** Computations *)

(** A computation ends normally, or with an exception that a [catch] of
    the library or the caller of the library receives; the writes made
    before a [throw] stay.  [Stuck] is for the runs to which the embedding
    gives no meaning: a loop that used up its fuel, a position that
    designates no fiber. *)
Inductive outcome (A : Type) :=
  | Ok (a : A) (s : rt)
  | Throw (msg : string) (s : rt)
  | Stuck.

Arguments Ok {A} a s.
Arguments Throw {A} msg s.
Arguments Stuck {A}.

Definition M (A : Type) : Type := rt -> outcome A.

Definition ret {A} (a : A) : M A := fun s => Ok a s.

Definition bind {A B} (m : M A) (k : A -> M B) : M B :=
  fun s => match m s with
           | Ok a s' => k a s'
           | Throw msg s' => Throw msg s'
           | Stuck => Stuck
           end.

Definition throw {A} (msg : string) : M A := fun s => Throw msg s.

Definition stuck {A} : M A := fun _ => Stuck.

(** [try { m } catch (error) { h(error) }] *)
Definition try_catch {A} (m : M A) (h : string -> M A) : M A :=
  fun s => match m s with
           | Throw msg s' => h msg s'
           | r => r
           end.

Definition modify (f : rt -> rt) : M unit := fun s => Ok tt (f s).

Definition gets {A} (f : rt -> A) : M A := fun s => Ok (f s) s.

Arguments ret {A} a s /.
Arguments bind {A B} m k s /.
Arguments throw {A} msg s /.
Arguments stuck {A} s /.
Arguments try_catch {A} m h s /.
Arguments modify f s /.
Arguments gets {A} f s /.

Declare Scope M_scope.
Delimit Scope M_scope with M.
Notation "x <- m ;; k" := (bind m (fun x => k))
  (at level 100, m at next level, right associativity) : M_scope.
Notation "m ;;; k" := (bind m (fun _ => k))
  (at level 100, right associativity) : M_scope.
Local Open Scope M_scope.

(** [array.forEach((x, index) => body)] *)
Fixpoint forEach_from {A} (body : A -> nat -> M unit) (l : list A) (index : nat)
  : M unit :=
  match l with
  | [] => ret tt
  | x :: l' => body x index ;;; forEach_from body l' (S index)
  end.

Definition forEach {A} (l : list A) (body : A -> nat -> M unit) : M unit :=
  forEach_from body l 0.

(** [forEach] with a body that writes to the element it visits. *)
Fixpoint forEach_upd_from {A} (body : A -> nat -> M A) (l : list A) (index : nat)
  : M (list A) :=
  match l with
  | [] => ret []
  | x :: l' =>
      x' <- body x index ;;
      l'' <- forEach_upd_from body l' (S index) ;;
      ret (x' :: l'')
  end.

Definition forEach_upd {A} (l : list A) (body : A -> nat -> M A) : M (list A) :=
  forEach_upd_from body l 0.

(** ** The output tree *)

(** [document.createElement] and [document.createTextNode] *)
Definition createNode : M node :=
  fun s =>
    let d := document s in
    Ok (next_node d) (set_document {| parentNode := parentNode d;
                                      next_node := S (next_node d) |} s).

(** [parent.appendChild(child)]: the child leaves its former parent. *)
Definition appendChild (parent child : node) : M unit :=
  modify (fun s =>
    let d := document s in
    set_document {| parentNode := <[child := parent]> (parentNode d);
                    next_node := next_node d |} s).

(** [ancestor.contains(n)]: [n] is [ancestor] or below it. *)
Fixpoint contains_fuel (fuel : nat) (pn : gmap nat nat) (ancestor n : node)
  : bool :=
  if bool_decide (ancestor = n) then true
  else match fuel with
       | O => false
       | S fuel' =>
           match pn !! n with
           | Some p => contains_fuel fuel' pn ancestor p
           | None => false
           end
       end.

Definition contains (ancestor n : node) : M bool :=
  gets (fun s => let pn := parentNode (document s) in
                 contains_fuel (size pn) pn ancestor n).

(** [parent.removeChild(child)] *)
Definition removeChild (parent child : node) : M unit :=
  fun s =>
    let d := document s in
    if bool_decide (parentNode d !! child = Some parent)
    then Ok tt (set_document {| parentNode := delete child (parentNode d);
                                next_node := next_node d |} s)
    else Throw "NotFoundError: The node to be removed is not a child of this node." s.

(** [container.innerHTML = ''] *)
Definition clear_children (container : node) : M unit :=
  modify (fun s =>
    let d := document s in
    set_document {| parentNode := filter (fun kv => kv.2 ≠ container) (parentNode d);
                    next_node := next_node d |} s).

(** The nodes attached directly under [n]. *)
Definition childNodes (d : dom_tree) (n : node) : gset nat :=
  dom (filter (fun kv => kv.2 = n) (parentNode d)).

(** ** core/fiber: scheduling *)

(** [requestIdleCallback(workLoop)] *)
Definition requestIdleCallback_workLoop : M unit :=
  modify (fun s => set_idleCallbacks (S (idleCallbacks s)) s).

Definition startWorkLoop : M unit :=
  running <- gets isWorkLoopRunning ;;
  if negb running then
    modify (set_isWorkLoopRunning true) ;;;
    requestIdleCallback_workLoop
  else ret tt.

(** The root fiber that [render] and [scheduleRerender] build:
    [{ dom, props, alternate }]. *)
Definition root_fiber (d : option node) (p : props) (alt : option Fiber) : Fiber :=
  mkFiber None p d None alt None None None None None [].

Definition scheduleRerender : M unit :=
  cur <- gets currentRoot ;;
  match cur with
  | None =>
      modify (log (ConsoleWarn "scheduleRerender: No current root to re-render"))
  | Some currentRoot =>
      modify (set_wipRoot
                (Some (root_fiber (f_dom currentRoot) (f_props currentRoot)
                                  (Some currentRoot)))) ;;;
      modify (set_nextUnitOfWork (Some [])) ;;;
      modify (set_win_deletions (Some [])) ;;;
      startWorkLoop
  end.

(** ** The closures handed out by the state hooks *)

(** The [setState] that [useState] returns for the hook key [hookKey]. *)
Definition setState (hookKey : string) (a : action) : M unit :=
  currentState <- gets (fun s => default VUndefined (hookStates s !! hookKey)) ;;
  let nextValue := apply_action a currentState in
  if Object_is nextValue currentState then ret tt
  else
    modify (fun s =>
      match updateQueues s !! hookKey with
      | Some hookQueue =>
          set_updateQueues (<[hookKey := hookQueue ++ [a]]> (updateQueues s)) s
      | None => s
      end) ;;;
    scheduleRerender.

(** The [dispatch] that [useReducer] returns for the hook key [hookKey]. *)
Definition dispatch (hookKey : string) (a : value) : M unit :=
  modify (fun s =>
    match actionQueues s !! hookKey with
    | Some actionQueue =>
        set_actionQueues (<[hookKey := actionQueue ++ [a]]> (actionQueues s)) s
    | None => s
    end) ;;;
  scheduleRerender.

(** Running the body of an application callback. *)
Fixpoint run_cmds (body : list cmd) : M unit :=
  match body with
  | [] => ret tt
  | CSetState k a :: body' => setState k a ;;; run_cmds body'
  | CDispatch k a :: body' => dispatch k a ;;; run_cmds body'
  | CThrow :: _ => throw "Error: thrown by the application"
  end.

(** [cleanup()] *)
Definition call_cleanup (c : cleanup_fn) : M unit :=
  modify (log (CleanupCalled (cl_name c))) ;;;
  run_cmds (cl_body c).

(** [effect()], with the cleanup function it returns, if any *)
Definition call_effect (e : effect_fn) : M (option cleanup_fn) :=
  modify (log (EffectCalled (ef_name e))) ;;;
  run_cmds (ef_body e) ;;;
  ret (ef_returns e).

(** [console.error(msg, error)] *)
Definition console_error (msg : string) : M unit :=
  modify (log (ConsoleError msg)).

(** ** core/commit: the effect phase *)

(** [prevDeps.some((dep, i) => !Object.is(dep, nextDeps[i]))] *)
Fixpoint some_differs (prevDeps nextDeps : list value) : bool :=
  match prevDeps with
  | [] => false
  | dep :: prev' =>
      negb (Object_is dep (default VUndefined (head nextDeps)))
      || some_differs prev' (tail nextDeps)
  end.

Definition depsChanged (prevDeps nextDeps : option (list value)) : bool :=
  match prevDeps, nextDeps with
  | Some prev, Some next =>
      if negb (length prev =? length next)%nat then true
      else some_differs prev next
  | _, _ => true
  end.

(** [fiber.alternate && fiber.alternate.hooks && fiber.alternate.hooks[index]] *)
Definition old_hook (fiber : Fiber) (index : nat) : option Hook :=
  match f_alternate fiber with
  | Some alt => match f_hooks alt with
                | Some hooks => hooks !! index
                | None => None
                end
  | None => None
  end.

Definition shouldRunCleanup (hook : Hook) (oldHook : option Hook) : option cleanup_fn :=
  match oldHook with
  | Some old =>
      match hook_cleanup old with
      | Some c =>
          if negb (bool_decide (is_Some (hook_deps hook)))
             || negb (bool_decide (is_Some (hook_deps old)))
             || depsChanged (hook_deps old) (hook_deps hook)
          then Some c else None
      | None => None
      end
  | None => None
  end.

Definition shouldRunEffect (hook : Hook) (oldHook : option Hook) : bool :=
  negb (bool_decide (is_Some (hook_deps hook)))
  || match oldHook with
     | None => true
     | Some old => depsChanged (hook_deps old) (hook_deps hook)
     end.

(** The body of the first [forEach] of [runEffects]: the cleanup of the
    old hook. *)
Definition run_cleanup_of (fiber : Fiber) (hook : Hook) (index : nat) : M unit :=
  if is_effect hook then
    let oldHook := old_hook fiber index in
    match shouldRunCleanup hook oldHook with
    | Some cleanup =>
        try_catch (call_cleanup cleanup)
          (fun _ => console_error
             ("Error in useEffect cleanup at index " +:+ pretty index +:+ ":"))
    | None => ret tt
    end
  else ret tt.

Definition run_cleanups (fiber : Fiber) (hooks : list Hook) : M unit :=
  forEach hooks (run_cleanup_of fiber).

(** The body of the second [forEach] of [runEffects]: the new effect. *)
Definition run_effect_of (fiber : Fiber) (hook : Hook) (index : nat) : M Hook :=
  match hook with
  | EffectHook effect _ _ _ =>
      let oldHook := old_hook fiber index in
      if shouldRunEffect hook oldHook then
        try_catch
          (cleanup <- call_effect effect ;;
           ret (set_cleanup cleanup hook))
          (fun _ =>
             console_error ("Error in useEffect at index " +:+ pretty index +:+ ":") ;;;
             ret hook)
      else ret hook
  | _ => ret hook
  end.

Definition run_new_effects (fiber : Fiber) (hooks : list Hook) : M (list Hook) :=
  forEach_upd hooks (run_effect_of fiber).

(** The part of [runEffects] that concerns the fiber itself. *)
Definition run_fiber_effects (fiber : Fiber) : M Fiber :=
  match f_hooks fiber with
  | Some hooks =>
      run_cleanups fiber hooks ;;;
      hooks' <- run_new_effects fiber hooks ;;
      ret (set_hooks (Some hooks') fiber)
  | None => ret fiber
  end.

Fixpoint runEffects (fiber : Fiber) : M Fiber :=
  fiber1 <- run_fiber_effects fiber ;;
  child' <- match f_child fiber with
            | Some c => c' <- runEffects c ;; ret (Some c')
            | None => ret None
            end ;;
  sibling' <- match f_sibling fiber with
              | Some sb => sb' <- runEffects sb ;; ret (Some sb')
              | None => ret None
              end ;;
  ret (set_sibling sibling' (set_child child' fiber1)).


(** The body of the [forEach] of [cleanupEffects]. *)
Definition cleanup_hook (hook : Hook) (index : nat) : M Hook :=
  match hook with
  | EffectHook _ (Some cleanup) _ _ =>
      try_catch (call_cleanup cleanup)
        (fun _ => console_error
           ("Error in useEffect cleanup at index " +:+ pretty index +:+ ":")) ;;;
      ret (set_cleanup None hook)
  | _ => ret hook
  end.

Definition cleanup_hooks (hooks : list Hook) : M (list Hook) :=
  forEach_upd hooks cleanup_hook.

Fixpoint cleanupEffects (fiber : Fiber) : M Fiber :=
  hooks' <- match f_hooks fiber with
            | Some hooks => h <- cleanup_hooks hooks ;; ret (Some h)
            | None => ret None
            end ;;
  child' <- match f_child fiber with
            | Some c => c' <- cleanupEffects c ;; ret (Some c')
            | None => ret None
            end ;;
  sibling' <- match f_sibling fiber with
              | Some sb => sb' <- cleanupEffects sb ;; ret (Some sb')
              | None => ret None
              end ;;
  ret (set_sibling sibling' (set_child child' (set_hooks hooks' fiber))).

(** ** vdom/updateDom *)

(** [updateDom(dom, prevProps, nextProps)] writes attributes, properties
    and listeners of [dom]; none of them is part of [dom_tree]. *)
Definition updateDom (dom : node) (prevProps nextProps : props) : M unit :=
  ret tt.

Definition createDom (fiber : Fiber) : M node :=
  dom <- createNode ;;
  updateDom dom (Props None [] []) (f_props fiber) ;;;
  ret dom.

(** ** core/commit: applying the tags *)

(** The [while] loop that looks for the nearest ancestor with a [dom]. *)
Fixpoint find_domParent (l : plink) : option node :=
  match pl_dom l with
  | Some d => Some d
  | None => match pl_parent l with
            | Some l' => find_domParent l'
            | None => None
            end
  end.

Definition domParent_of (fiber : Fiber) : option node :=
  match f_parent fiber with
  | Some l => find_domParent l
  | None => None
  end.

(** [commitDeletion(fiber, domParent)].  The calls on [fiber.child] and
    [fiber.sibling] see what [cleanupEffects(fiber)] wrote, so the
    recursion is on the fiber that [cleanupEffects] returns, with the size
    of the fiber as fuel. *)
Fixpoint commitDeletion_fuel (fuel : nat) (fiber : option Fiber)
    (domParent : option node) : M unit :=
  match fiber with
  | None => ret tt
  | Some fiber =>
      match fuel with
      | O => stuck
      | S fuel' =>
          match f_dom fiber with
          | Some dom =>
              fiber1 <- match domParent with
                        | Some parent =>
                            inside <- contains parent dom ;;
                            if inside : bool then
                              fiber' <- cleanupEffects fiber ;;
                              removeChild parent dom ;;;
                              ret fiber'
                            else ret fiber
                        | None => ret fiber
                        end ;;
              commitDeletion_fuel fuel' (f_sibling fiber1) domParent
          | None =>
              fiber1 <- cleanupEffects fiber ;;
              commitDeletion_fuel fuel' (f_child fiber1) domParent ;;;
              commitDeletion_fuel fuel' (f_sibling fiber1) domParent
          end
      end
  end.

Definition commitDeletion (fiber : Fiber) (domParent : option node) : M unit :=
  commitDeletion_fuel (fiber_size fiber) (Some fiber) domParent.

Fixpoint commitWork (fiber : Fiber) : M unit :=
  if bool_decide (f_effectTag fiber = Some DELETION) then
    commitDeletion fiber (domParent_of fiber)
  else
    let domParent := domParent_of fiber in
    match f_effectTag fiber, f_dom fiber with
    | Some PLACEMENT, Some dom =>
        match domParent with
        | Some parent => appendChild parent dom
        | None =>
            throw "TypeError: Cannot read properties of undefined (reading 'appendChild')"
        end
    | Some UPDATE, Some dom =>
        match f_alternate fiber with
        | Some alt => updateDom dom (f_props alt) (f_props fiber)
        | None =>
            throw "TypeError: Cannot read properties of undefined (reading 'props')"
        end
    | _, _ => ret tt
    end ;;;
    match f_child fiber with Some c => commitWork c | None => ret tt end ;;;
    match f_sibling fiber with Some sb => commitWork sb | None => ret tt end.

Definition commitRoot (wipRoot : Fiber) (deletions : list Fiber) : M Fiber :=
  forEach deletions (fun deletion _ =>
    commitDeletion deletion (domParent_of deletion)) ;;;
  match f_child wipRoot with Some c => commitWork c | None => ret tt end ;;;
  ret wipRoot.

(** ** core/reconciler *)

(** [addDeletion(fiber)] of [core/fiber] *)
Definition addDeletion (fiber : Fiber) : M unit :=
  modify (fun s =>
    set_win_deletions (Some (default [] (win_deletions s) ++ [fiber])) s).

(** The fiber built for an element that continues [oldFiber]. *)
Definition update_fiber (wipFiber oldFiber : Fiber) (element : element) : Fiber :=
  mkFiber (f_type oldFiber) (e_props element) (f_dom oldFiber)
          (Some (link_to wipFiber)) (Some oldFiber) None None (Some UPDATE)
          None None [].

(** The fiber built for an element that continues nothing. *)
Definition placement_fiber (wipFiber : Fiber) (element : element) : Fiber :=
  mkFiber (Some (e_type element)) (e_props element) None
          (Some (link_to wipFiber)) None None None (Some PLACEMENT)
          None None [].

(** [oldFiber && element && element.type === oldFiber.type] *)
Definition sameType (oldFiber : option Fiber) (element : option element) : bool :=
  match oldFiber, element with
  | Some old, Some el => bool_decide (Some (e_type el) = f_type old)
  | _, _ => false
  end.

(** The variables of the loop of [reconcileChildren]; [rc_children] are the
    new fibers linked so far from [wipFiber.child], [rc_deletions] is
    [wipFiber.deletions]. *)
Record rc_state := {
  rc_index : nat;
  rc_oldFiber : option Fiber;
  rc_prevSibling : option Fiber;
  rc_children : list Fiber;
  rc_deletions : list Fiber }.

(** One turn of the [while] loop of [reconcileChildren]. *)
Definition reconcile_step (wipFiber : Fiber) (elements : list (option element))
    (st : rc_state) : M rc_state :=
  let index := rc_index st in
  let oldFiber := rc_oldFiber st in
  let element := mjoin (elements !! index) in
  let sameType := sameType oldFiber element in
  let newFiber :=
    match oldFiber, element with
    | Some old, Some el =>
        if sameType then Some (update_fiber wipFiber old el)
        else Some (placement_fiber wipFiber el)
    | None, Some el => Some (placement_fiber wipFiber el)
    | _, None => None
    end in
  deletions <- match oldFiber with
               | Some old =>
                   if negb sameType then
                     let old' := set_effectTag (Some DELETION) old in
                     addDeletion old' ;;;
                     ret (rc_deletions st ++ [old'])
                   else ret (rc_deletions st)
               | None => ret (rc_deletions st)
               end ;;
  let oldFiber' := match oldFiber with
                   | Some old => f_sibling old
                   | None => None
                   end in
  children <-
    (if bool_decide (index = 0) then ret (option_list newFiber)
     else match element with
          | Some _ =>
              match rc_prevSibling st with
              | Some _ => ret (rc_children st ++ option_list newFiber)
              | None =>
                  throw "TypeError: Cannot set properties of null (setting 'sibling')"
              end
          | None => ret (rc_children st)
          end) ;;
  ret {| rc_index := S index; rc_oldFiber := oldFiber';
         rc_prevSibling := newFiber; rc_children := children;
         rc_deletions := deletions |}.

Fixpoint reconcile_loop (fuel : nat) (wipFiber : Fiber)
    (elements : list (option element)) (st : rc_state) : M rc_state :=
  if bool_decide (rc_index st < length elements)
     || bool_decide (is_Some (rc_oldFiber st))
  then match fuel with
       | O => stuck
       | S fuel' =>
           st' <- reconcile_step wipFiber elements st ;;
           reconcile_loop fuel' wipFiber elements st'
       end
  else ret st.

Definition reconcileChildren (wipFiber : Fiber) (elements : list (option element))
  : M Fiber :=
  let oldFiber := match f_alternate wipFiber with
                  | Some alt => f_child alt
                  | None => None
                  end in
  let st0 := {| rc_index := 0; rc_oldFiber := oldFiber; rc_prevSibling := None;
                rc_children := chain_of (f_child wipFiber);
                rc_deletions := default [] (f_deletions wipFiber) |} in
  st <- reconcile_loop (length elements + length (chain_of oldFiber))
                       wipFiber elements st0 ;;
  ret (set_child (link (rc_children st))
         (set_deletions (Some (rc_deletions st)) wipFiber)).

(** *** Keyed reconciliation *)

(** A JavaScript [Map] from keys to fibers, in insertion order. *)
Definition FiberMap := list (value * Fiber).

Fixpoint Map_set (key : value) (f : Fiber) (m : FiberMap) : FiberMap :=
  match m with
  | [] => [(key, f)]
  | (k, g) :: m' =>
      if bool_decide (k = key) then (k, f) :: m' else (k, g) :: Map_set key f m'
  end.

Fixpoint Map_get (key : value) (m : FiberMap) : option Fiber :=
  match m with
  | [] => None
  | (k, g) :: m' => if bool_decide (k = key) then Some g else Map_get key m'
  end.

Fixpoint Map_delete (key : value) (m : FiberMap) : FiberMap :=
  match m with
  | [] => []
  | (k, g) :: m' =>
      if bool_decide (k = key) then m' else (k, g) :: Map_delete key m'
  end.

(** [props?.key ?? index] *)
Definition key_or_index (key : option value) (index : nat) : value :=
  match key with
  | Some v => if nullish v then VNum (Z.of_nat index) else v
  | None => VNum (Z.of_nat index)
  end.

(** The first loop of [reconcileChildrenWithKeys]: the map of the old
    fibers. *)
Fixpoint build_oldFiberMap (temp : Fiber) (tempIndex : nat) (m : FiberMap)
  : FiberMap :=
  let key := key_or_index (p_key (f_props temp)) tempIndex in
  let m' := Map_set key temp m in
  match f_sibling temp with
  | Some s => build_oldFiberMap s (S tempIndex) m'
  | None => m'
  end.

(** The variables of the second loop of [reconcileChildrenWithKeys]. *)
Record rk_state := {
  rk_map : FiberMap;
  rk_prevSibling : option Fiber;
  rk_children : list Fiber }.

Fixpoint keyed_loop (wipFiber : Fiber) (elements : list (option element))
    (index : nat) (st : rk_state) : M rk_state :=
  match elements with
  | [] => ret st
  | element :: rest =>
      let elementKey :=
        key_or_index (match element with Some el => e_key el | None => None end)
                     index in
      let matchingOldFiber := Map_get elementKey (rk_map st) in
      let sameType := sameType matchingOldFiber element in
      let '(newFiber, map') :=
        match matchingOldFiber, element with
        | Some old, Some el =>
            if sameType
            then (Some (update_fiber wipFiber old el),
                  Map_delete elementKey (rk_map st))
            else (Some (placement_fiber wipFiber el), rk_map st)
        | None, Some el => (Some (placement_fiber wipFiber el), rk_map st)
        | _, None => (None, rk_map st)
        end in
      children <-
        (if bool_decide (index = 0) then ret (option_list newFiber)
         else match rk_prevSibling st with
              | Some _ => ret (rk_children st ++ option_list newFiber)
              | None =>
                  throw "TypeError: Cannot set properties of null (setting 'sibling')"
              end) ;;
      keyed_loop wipFiber rest (S index)
        {| rk_map := map'; rk_prevSibling := newFiber; rk_children := children |}
  end.

Definition reconcileChildrenWithKeys (wipFiber : Fiber)
    (elements : list (option element)) : M Fiber :=
  let oldFiber := match f_alternate wipFiber with
                  | Some alt => f_child alt
                  | None => None
                  end in
  let oldFiberMap := match oldFiber with
                     | Some temp => build_oldFiberMap temp 0 []
                     | None => []
                     end in
  st <- keyed_loop wipFiber elements 0
          {| rk_map := oldFiberMap; rk_prevSibling := None;
             rk_children := chain_of (f_child wipFiber) |} ;;
  let unused := map (fun kv => set_effectTag (Some DELETION) kv.2) (rk_map st) in
  forEach unused (fun fiber _ =>
    modify (fun s =>
      set_win_deletions (Some (default [] (win_deletions s) ++ [fiber])) s)) ;;;
  ret (set_child (link (rk_children st))
         (set_deletions (Some (default [] (f_deletions wipFiber) ++ unused))
            wipFiber)).

(** [!fiber.type]: no type, or the empty string *)
Definition type_falsy (t : option etype) : bool :=
  match t with
  | None => true
  | Some (THost tagName) => bool_decide (tagName = "")
  | Some (TFunc _) => false
  end.

Definition updateHostComponent (fiber : Fiber) : M Fiber :=
  fiber <- match f_dom fiber with
           | Some _ => ret fiber
           | None =>
               match f_alternate fiber with
               | Some alt =>
                   match f_dom alt with
                   | Some d =>
                       if type_falsy (f_type alt)
                          || bool_decide (f_type alt = f_type fiber)
                       then ret (set_dom (Some d) fiber)
                       else dom <- createDom fiber ;; ret (set_dom (Some dom) fiber)
                   | None => dom <- createDom fiber ;; ret (set_dom (Some dom) fiber)
                   end
               | None => dom <- createDom fiber ;; ret (set_dom (Some dom) fiber)
               end
           end ;;
  reconcileChildren fiber (p_children (f_props fiber)).

(** ** hooks/hookUtils *)

Definition getCurrentFiber (s : rt) : option Fiber :=
  match win_wipFiber s with
  | Some f => Some f
  | None => wipFiber s
  end.

Definition getCurrentHookIndex (s : rt) : nat := default 0 (win_hookIndex s).

Definition incrementHookIndex : M unit :=
  modify (fun s => set_win_hookIndex (Some (default 0 (win_hookIndex s) + 1)) s).

Definition validateHookCall (hookName : string) : M unit :=
  fiber <- gets getCurrentFiber ;;
  match fiber with
  | None => throw (hookName +:+ ": must be called within a component")
  | Some _ => ret tt
  end.

Definition getPreviousHook (fiber : Fiber) (index : nat) : option Hook :=
  old_hook fiber index.

(** A write to the fiber that the hooks obtained from [getCurrentFiber].
    [performUnitOfWork] stores one fiber in [wipFiber] and in
    [window.minireact.wipFiber]; when both are set they are that one
    object, and the write shows through both. *)
Definition write_current (g : Fiber -> Fiber) : M unit :=
  modify (fun s =>
    set_win_wipFiber (g <$> win_wipFiber s) (set_wipFiber (g <$> wipFiber s) s)).

(** [fiber.hooks.push(hook)] *)
Definition push_hook (fiber : Fiber) (h : Hook) : M unit :=
  match f_hooks fiber with
  | Some _ =>
      write_current (fun f => set_hooks (Some (default [] (f_hooks f) ++ [h])) f)
  | None =>
      throw "TypeError: Cannot read properties of undefined (reading 'push')"
  end.

(** [fiber.hooks[index] = hook], after [fiber.hooks = fiber.hooks || []].
    An index beyond the length would leave holes in the array, which the
    lists of the embedding do not have. *)
Definition assign_hook (index : nat) (h : Hook) : M unit :=
  fiber <- gets getCurrentFiber ;;
  match fiber with
  | None => stuck
  | Some fiber =>
      let hooks := default [] (f_hooks fiber) in
      if bool_decide (index < length hooks) then
        write_current (set_hooks (Some (<[index := h]> hooks)))
      else if bool_decide (index = length hooks) then
        write_current (set_hooks (Some (hooks ++ [h])))
      else stuck
  end.

(** ** The hooks *)

(** [a || b] on strings *)
Definition str_or (a b : string) : string :=
  if bool_decide (a = "") then b else a.

(** [`${fiber.type?.name || fiber.type?.toString() || 'anonymous'}_${hookIndex}`] *)
Definition hookKey_of (fiber : Fiber) (hookIndex : nat) : string :=
  let label :=
    match f_type fiber with
    | None => "anonymous"
    | Some (THost tagName) => str_or tagName "anonymous"
    | Some (TFunc f) => str_or (fn_name f) (str_or (fn_src f) "anonymous")
    end in
  label +:+ "_" +:+ pretty hookIndex.

(** The argument of [useState]: the initial state, or a function that
    returns it. *)
Inductive initial_state :=
  | InitVal (v : value)
  | InitFn (f : unit -> value).

(** [actions.forEach(action => { currentState = ... })] of [useState] *)
Definition drain (actions : list action) (currentState : value) : value :=
  fold_left (fun s a => apply_action a s) actions currentState.

Definition useState (initial : initial_state) : M (value * string) :=
  validateHookCall "useState" ;;;
  wip <- gets getCurrentFiber ;;
  match wip with
  | None => stuck
  | Some wipFiber =>
      hookIndex <- gets getCurrentHookIndex ;;
      let hookKey := hookKey_of wipFiber hookIndex in
      modify (fun s =>
        match updateQueues s !! hookKey with
        | Some _ => s
        | None => set_updateQueues (<[hookKey := []]> (updateQueues s)) s
        end) ;;;
      queue <- gets (fun s => default [] (updateQueues s !! hookKey)) ;;
      stored <- gets (fun s => hookStates s !! hookKey) ;;
      currentState <-
        match stored with
        | Some v => ret v
        | None =>
            let v := match initial with InitVal v => v | InitFn f => f tt end in
            modify (fun s => set_hookStates (<[hookKey := v]> (hookStates s)) s) ;;;
            ret v
        end ;;
      let actions := queue in
      modify (fun s => set_updateQueues (<[hookKey := []]> (updateQueues s)) s) ;;;
      let currentState := drain actions currentState in
      modify (fun s =>
        set_hookStates (<[hookKey := currentState]> (hookStates s)) s) ;;;
      let hook := StateHook currentState hookKey in
      push_hook wipFiber hook ;;;
      incrementHookIndex ;;;
      ret (currentState, hookKey)
  end.

(** [actions.forEach(action => { currentState = reducer(...) })] *)
Definition reduce (reducer : value -> value -> value) (actions : list value)
    (currentState : value) : value :=
  fold_left reducer actions currentState.

Definition useReducer (reducer : value -> value -> value) (initialState : value)
    (init : option (value -> value)) : M (value * string) :=
  validateHookCall "useReducer" ;;;
  wip <- gets getCurrentFiber ;;
  match wip with
  | None => stuck
  | Some wipFiber =>
      hookIndex <- gets getCurrentHookIndex ;;
      let hookKey := hookKey_of wipFiber hookIndex in
      modify (fun s =>
        match actionQueues s !! hookKey with
        | Some _ => s
        | None => set_actionQueues (<[hookKey := []]> (actionQueues s)) s
        end) ;;;
      queue <- gets (fun s => default [] (actionQueues s !! hookKey)) ;;
      stored <- gets (fun s => reducerStates s !! hookKey) ;;
      currentState <-
        match stored with
        | Some v => ret v
        | None =>
            let v := match init with
                     | Some init => init initialState
                     | None => initialState
                     end in
            modify (fun s =>
              set_reducerStates (<[hookKey := v]> (reducerStates s)) s) ;;;
            ret v
        end ;;
      let actions := queue in
      modify (fun s => set_actionQueues (<[hookKey := []]> (actionQueues s)) s) ;;;
      let currentState := reduce reducer actions currentState in
      modify (fun s =>
        set_reducerStates (<[hookKey := currentState]> (reducerStates s)) s) ;;;
      modify (fun s => set_dispatchers ({[hookKey]} ∪ dispatchers s) s) ;;;
      let hook := ReducerHook currentState hookKey in
      assign_hook hookIndex hook ;;;
      incrementHookIndex ;;;
      ret (currentState, hookKey)
  end.

(** [areDependenciesChanged(deps, oldDeps)] of [hooks/useEffect] *)
Definition areDependenciesChanged (deps oldDeps : option (list value)) : bool :=
  match deps, oldDeps with
  | Some deps, Some oldDeps =>
      if negb (length deps =? length oldDeps)%nat then true
      else some_differs deps oldDeps
  | _, _ => true
  end.

(** [useEffect(effect, deps)]; [effect] is [None] when the argument is not
    a function, [deps] is [None] when the argument is absent. *)
Definition useEffect (effect : option effect_fn) (deps : option (list value))
  : M unit :=
  match effect with
  | None => throw "useEffect: effect must be a function"
  | Some effect =>
      validateHookCall "useEffect" ;;;
      wip <- gets getCurrentFiber ;;
      match wip with
      | None => stuck
      | Some wipFiber =>
          hookIndex <- gets getCurrentHookIndex ;;
          let oldHook := getPreviousHook wipFiber hookIndex in
          let hasChanged :=
            match deps with
            | None => true
            | Some _ =>
                match oldHook with
                | None => true
                | Some old => areDependenciesChanged deps (hook_deps old)
                end
            end in
          let hook :=
            EffectHook effect
              (match oldHook with Some old => hook_cleanup old | None => None end)
              deps hasChanged in
          push_hook wipFiber hook ;;;
          incrementHookIndex
      end
  end.

(** [oldHook.deps === undefined] *)
Definition deps_undefined (h : Hook) : bool :=
  match h with
  | EffectHook _ _ _ _ => false
  | MemoHook _ (Some _) => false
  | _ => true
  end.

(** [oldHook.value] *)
Definition hook_value (h : Hook) : value :=
  match h with
  | MemoHook v _ => v
  | ContextHook _ v => v
  | _ => VUndefined
  end.

(** [useMemo(compute, deps)]; [compute] is [None] when the argument is not
    a function, and [Some v] for a function that returns [v]. *)
Definition useMemo (compute : option value) (deps : option (list value))
  : M value :=
  match compute with
  | None => throw "useMemo: first argument must be a function"
  | Some computed =>
      wip <- gets win_wipFiber ;;
      hookIndex <- gets win_hookIndex ;;
      match wip with
      | None => throw "useMemo: must be called within a component"
      | Some wipFiber =>
          let oldHook := match hookIndex with
                         | Some i => old_hook wipFiber i
                         | None => None
                         end in
          let hasChanged :=
            match oldHook, deps with
            | Some old, Some d =>
                match hook_deps old with
                | Some od =>
                    if (length d =? length od)%nat then some_differs d od
                    else true
                | None => true
                end
            | Some old, None => negb (deps_undefined old)
            | None, _ => true
            end in
          let val := if hasChanged then computed
                     else match oldHook with
                          | Some old => hook_value old
                          | None => VUndefined
                          end in
          let hook := MemoHook val deps in
          write_current (fun f =>
            set_hooks (Some (default [] (f_hooks f) ++ [hook])) f) ;;;
          modify (fun s =>
            set_win_hookIndex (Some (default 0 (win_hookIndex s) + 1)) s) ;;;
          ret val
      end
  end.

(** [useCallback(callback, deps)]: [useMemo(() => callback, deps)] *)
Definition useCallback (callback : value) (deps : option (list value)) : M value :=
  useMemo (Some callback) deps.

Definition useRef (initialValue : value) : M value :=
  validateHookCall "useRef" ;;;
  wip <- gets getCurrentFiber ;;
  match wip with
  | None => stuck
  | Some fiber =>
      hookIndex <- gets getCurrentHookIndex ;;
      let previousHook := getPreviousHook fiber hookIndex in
      let hook := match previousHook with
                  | Some h => h
                  | None => RefHook initialValue
                  end in
      assign_hook hookIndex hook ;;;
      incrementHookIndex ;;;
      ret (match hook with RefHook current => current | _ => VUndefined end)
  end.

(** The object that [createContext] returns. *)
Record context := {
  _contextId : option nat;
  _defaultValue : value }.

Fixpoint lookup_provider (id : nat) (l : list (nat * value)) : option value :=
  match l with
  | [] => None
  | (k, v) :: l' => if bool_decide (k = id) then Some v else lookup_provider id l'
  end.

(** The [while] loop of [useContext] above the fiber itself. *)
Fixpoint find_provider (id : nat) (l : plink) : option value :=
  match lookup_provider id (pl_contextProviders l) with
  | Some v => Some v
  | None => match pl_parent l with
            | Some l' => find_provider id l'
            | None => None
            end
  end.

Definition useContext (ctx : option context) : M value :=
  validateHookCall "useContext" ;;;
  match ctx with
  | None => throw "useContext must be called with a valid context object"
  | Some context =>
      match _contextId context with
      | None => throw "useContext must be called with a valid context object"
      | Some id =>
          wip <- gets getCurrentFiber ;;
          match wip with
          | None => throw "useContext: must be called within a component"
          | Some fiber =>
              let contextValue :=
                match lookup_provider id (f_contextProviders fiber) with
                | Some v => v
                | None =>
                    default (_defaultValue context)
                      (match f_parent fiber with
                       | Some l => find_provider id l
                       | None => None
                       end)
                end in
              let hook := ContextHook id contextValue in
              write_current (fun f =>
                set_hooks (Some (default [] (f_hooks f) ++ [hook])) f) ;;;
              incrementHookIndex ;;;
              ret contextValue
          end
      end
  end.

(** The body of the [Provider] of the context [id]. *)
Definition Provider (id : nat) (val : value) (children : list (option element))
  : M (list (option element)) :=
  write_current (fun f =>
    set_contextProviders ((id, val) :: f_contextProviders f) f) ;;;
  ret children.

(** ** Components and the work loop *)

(** What a component function returns: one element (or [null]), or an
    array. *)
Inductive jsx :=
  | JSingle (e : option element)
  | JArray (l : list (option element)).

(** [Array.isArray(result) ? result : [result]] *)
Definition as_children (result : jsx) : list (option element) :=
  match result with
  | JSingle e => [e]
  | JArray l => l
  end.

(** The fiber at a position of the tree, and the tree with another fiber
    at that position; the moves are followed from the root. *)
Fixpoint get_fwd (f : Fiber) (moves : list move) : option Fiber :=
  match moves with
  | [] => Some f
  | Down :: moves' =>
      match f_child f with Some c => get_fwd c moves' | None => None end
  | Right :: moves' =>
      match f_sibling f with Some sb => get_fwd sb moves' | None => None end
  end.

Fixpoint set_fwd (f : Fiber) (moves : list move) (new : Fiber) : option Fiber :=
  match moves with
  | [] => Some new
  | Down :: moves' =>
      match f_child f with
      | Some c => (fun c' => set_child (Some c') f) <$> set_fwd c moves' new
      | None => None
      end
  | Right :: moves' =>
      match f_sibling f with
      | Some sb => (fun sb' => set_sibling (Some sb') f) <$> set_fwd sb moves' new
      | None => None
      end
  end.

Definition get_at (root : Fiber) (p : path) : option Fiber := get_fwd root (rev p).

Definition set_at (root : Fiber) (p : path) (new : Fiber) : option Fiber :=
  set_fwd root (rev p) new.

(** The position of [fiber.parent]. *)
Fixpoint parent_path (p : path) : option path :=
  match p with
  | [] => None
  | Down :: p' => Some p'
  | Right :: p' => parent_path p'
  end.

(** The last loop of [performUnitOfWork]: the next sibling of the fiber or
    of the nearest ancestor that has one. *)
Fixpoint next_sibling (fuel : nat) (root : Fiber) (nextFiber : path)
  : option (option path) :=
  match fuel with
  | O => None
  | S fuel' =>
      match get_at root nextFiber with
      | None => None
      | Some f =>
          match f_sibling f with
          | Some _ => Some (Some (Right :: nextFiber))
          | None =>
              match parent_path nextFiber with
              | Some parent => next_sibling fuel' root parent
              | None => Some None
              end
          end
      end
  end.

Section WorkLoop.

(** The component functions of the application: the body of every
    function that occurs as the type of an element.  A body reads and
    writes the runtime through the hooks only. *)
Variable components : fn_ref -> props -> M jsx.

(** [updateFunctionComponent(fiber)], for a function that is not a
    class. *)
Definition updateFunctionComponent (fn : fn_ref) (fiber : Fiber) : M Fiber :=
  write_current (set_hooks (Some [])) ;;;
  modify (log (Rendered fn)) ;;;
  result <- components fn (f_props fiber) ;;
  let children := as_children result in
  cur <- gets getCurrentFiber ;;
  match cur with
  | Some fiber => reconcileChildren fiber children
  | None => stuck
  end.

(** [performUnitOfWork(fiber)] for the fiber at [p]: the tree with the
    fiber processed is stored back, the next position is returned. *)
Definition performUnitOfWork (p : path) : M (option path) :=
  root <- gets wipRoot ;;
  match root with
  | None => stuck
  | Some root =>
      match get_at root p with
      | None => stuck
      | Some fiber =>
          modify (set_wipFiber (Some fiber)) ;;;
          modify (set_hookIndex (Some 0)) ;;;
          modify (set_win_wipFiber (Some fiber)) ;;;
          modify (set_win_hookIndex (Some 0)) ;;;
          fiber' <- match f_type fiber with
                    | Some (TFunc fn) => updateFunctionComponent fn fiber
                    | _ => updateHostComponent fiber
                    end ;;
          write_current (fun _ => fiber') ;;;
          match set_at root p fiber' with
          | None => stuck
          | Some root' =>
              modify (set_wipRoot (Some root')) ;;;
              match f_child fiber' with
              | Some _ => ret (Some (Down :: p))
              | None =>
                  match next_sibling (S (length p)) root' p with
                  | Some next => ret next
                  | None => stuck
                  end
              end
          end
      end
  end.

(** [deadline.timeRemaining()] at its successive calls within one call of
    [workLoop]. *)
Definition IdleDeadline := nat -> Z.

(** The [while] loop of [workLoop]; [calls] counts the calls of
    [timeRemaining] so far. *)
Fixpoint work_units (fuel : nat) (deadline : IdleDeadline) (calls : nat)
  : M unit :=
  next <- gets nextUnitOfWork ;;
  match next with
  | None => ret tt
  | Some p =>
      match fuel with
      | O => stuck
      | S fuel' =>
          next' <- performUnitOfWork p ;;
          modify (set_nextUnitOfWork next') ;;;
          let shouldYield := (deadline calls <? 1)%Z in
          if shouldYield then ret tt
          else work_units fuel' deadline (S calls)
      end
  end.

(** The commit branch of [workLoop].  [runEffects] writes to the hooks of
    the tree that [currentRoot] designates; a root that
    [scheduleRerender] built meanwhile has that same tree as
    [alternate]. *)
Definition commit_and_run_effects (completedRoot : Fiber) : M unit :=
  deletions <- gets (fun s => default [] (win_deletions s)) ;;
  commitRoot completedRoot deletions ;;;
  modify (set_currentRoot (Some completedRoot)) ;;;
  modify (set_wipRoot None) ;;;
  modify (set_globalDeletions []) ;;;
  modify (set_win_deletions None) ;;;
  root' <- runEffects completedRoot ;;
  modify (fun s =>
    set_wipRoot (set_alternate (Some root') <$> wipRoot s)
      (set_currentRoot (Some root') s)).

(** [workLoop(deadline)]; [fuel] bounds the turns of its [while] loop. *)
Definition workLoop (fuel : nat) (deadline : IdleDeadline) : M unit :=
  work_units fuel deadline 0 ;;;
  next <- gets nextUnitOfWork ;;
  root <- gets wipRoot ;;
  match next, root with
  | None, Some completedRoot => commit_and_run_effects completedRoot
  | _, _ => ret tt
  end ;;;
  next <- gets nextUnitOfWork ;;
  root <- gets wipRoot ;;
  match next, root with
  | None, None => modify (set_isWorkLoopRunning false)
  | _, _ => requestIdleCallback_workLoop
  end.

(** The host runs one callback registered with [requestIdleCallback]. *)
Definition run_idle_callback (fuel : nat) (deadline : IdleDeadline) : M unit :=
  n <- gets idleCallbacks ;;
  match n with
  | O => ret tt
  | S n' => modify (set_idleCallbacks n') ;;; workLoop fuel deadline
  end.

(** The host runs callbacks until none is registered, or [rounds] of
    them. *)
Fixpoint run_until_idle (rounds fuel : nat) (deadline : IdleDeadline) : M unit :=
  n <- gets idleCallbacks ;;
  match n, rounds with
  | O, _ => ret tt
  | S _, O => stuck
  | S _, S rounds' =>
      run_idle_callback fuel deadline ;;;
      run_until_idle rounds' fuel deadline
  end.

End WorkLoop.

(** [render(element, container)] *)
Definition render (element : option element) (container : node) : M unit :=
  rc <- gets rootContainer ;;
  (if bool_decide (rc = Some container) then ret tt
   else
     modify (set_currentRoot None) ;;;
     modify (set_wipRoot None) ;;;
     modify (set_nextUnitOfWork None) ;;;
     modify (set_wipFiber None) ;;;
     modify (set_hookIndex None) ;;;
     modify (set_isWorkLoopRunning false) ;;;
     clear_children container ;;;
     modify (set_rootContainer (Some container))) ;;;
  cur <- gets currentRoot ;;
  modify (set_wipRoot
            (Some (root_fiber (Some container) (Props None [] [element]) cur))) ;;;
  modify (set_globalDeletions []) ;;;
  modify (set_win_deletions (Some [])) ;;;
  modify (set_nextUnitOfWork (Some [])) ;;;
  startWorkLoop.

(** The runtime when the modules have been loaded in a page whose document
    has the nodes below [nodes]. *)
Definition initial_rt (nodes : nat) : rt :=
  {| nextUnitOfWork := None; currentRoot := None; wipRoot := None;
     wipFiber := None; hookIndex := None; rootContainer := None;
     isWorkLoopRunning := false; globalDeletions := [];
     win_deletions := None; win_wipFiber := None; win_hookIndex := None;
     updateQueues := ∅; hookStates := ∅; actionQueues := ∅;
     reducerStates := ∅; dispatchers := ∅; idleCallbacks := 0;
     document := {| parentNode := ∅; next_node := nodes |};
     console := [] |}.

(** ** Definitions used by the statements *)

Definition is_warn (e : event) : bool :=
  match e with ConsoleWarn _ => true | _ => false end.

(** The events other than the warnings of [scheduleRerender]. *)
Definition visible (evs : list event) : list event :=
  List.filter (fun e => negb (is_warn e)) evs.

(** [s'] continues the console of [s] with [evs]. *)
Definition emitted (s s' : rt) (evs : list event) : Prop :=
  console s' = console s ++ evs.

(** A callback throws iff a [throw] occurs in its body: the calls before
    it return. *)
Definition throws (body : list cmd) : bool :=
  existsb (fun c => match c with CThrow => true | _ => false end) body.

Definition cleanup_error (index : nat) : event :=
  ConsoleError ("Error in useEffect cleanup at index " +:+ pretty index +:+ ":").

Definition effect_error (index : nat) : event :=
  ConsoleError ("Error in useEffect at index " +:+ pretty index +:+ ":").

(** The call of a cleanup from the hook at [index], and the line on the
    console when it throws. *)
Definition cleanup_call (c : cleanup_fn) (index : nat) : list event :=
  CleanupCalled (cl_name c)
    :: if throws (cl_body c) then [cleanup_error index] else [].

Definition effect_call (e : effect_fn) (index : nat) : list event :=
  EffectCalled (ef_name e)
    :: if throws (ef_body e) then [effect_error index] else [].

(** The cleanups that are due in a fiber, in the order of its hooks. *)
Fixpoint due_cleanups_from (fiber : Fiber) (hooks : list Hook) (index : nat)
  : list event :=
  match hooks with
  | [] => []
  | hook :: hooks' =>
      (if is_effect hook then
         match shouldRunCleanup hook (old_hook fiber index) with
         | Some c => cleanup_call c index
         | None => []
         end
       else [])
      ++ due_cleanups_from fiber hooks' (S index)
  end.

(** The effects that are due in a fiber, in the order of its hooks. *)
Fixpoint due_effects_from (fiber : Fiber) (hooks : list Hook) (index : nat)
  : list event :=
  match hooks with
  | [] => []
  | hook :: hooks' =>
      match hook with
      | EffectHook e _ _ _ =>
          if shouldRunEffect hook (old_hook fiber index)
          then effect_call e index else []
      | _ => []
      end
      ++ due_effects_from fiber hooks' (S index)
  end.

Definition due_cleanups (fiber : Fiber) : list event :=
  due_cleanups_from fiber (default [] (f_hooks fiber)) 0.

Definition due_effects (fiber : Fiber) : list event :=
  due_effects_from fiber (default [] (f_hooks fiber)) 0.

(** The effect phase of a tree: the fiber, then the tree of its child,
    then the tree of its sibling. *)
Fixpoint due_tree (fiber : Fiber) : list event :=
  (due_cleanups fiber ++ due_effects fiber)
  ++ match f_child fiber with Some c => due_tree c | None => [] end
  ++ match f_sibling fiber with Some sb => due_tree sb | None => [] end.

(** The calls of application callbacks among the events. *)
Definition is_call (e : event) : bool :=
  match e with EffectCalled _ | CleanupCalled _ => true | _ => false end.



Definition calls (evs : list event) : list event := List.filter is_call evs.


(** The cleanups that [cleanupEffects] calls in a fiber: those that the
    effect hooks hold. *)
Fixpoint held_cleanups_from (hooks : list Hook) (index : nat) : list event :=
  match hooks with
  | [] => []
  | hook :: hooks' =>
      match hook with
      | EffectHook _ (Some c) _ _ => cleanup_call c index
      | _ => []
      end
      ++ held_cleanups_from hooks' (S index)
  end.

Fixpoint held_tree (fiber : Fiber) : list event :=
  held_cleanups_from (default [] (f_hooks fiber)) 0
  ++ match f_child fiber with Some c => held_tree c | None => [] end
  ++ match f_sibling fiber with Some sb => held_tree sb | None => [] end.

(** The fiber when [cleanupEffects] has returned: no hook of its tree holds
    a cleanup. *)
Fixpoint cleared (fiber : Fiber) : Fiber :=
  set_sibling (match f_sibling fiber with Some sb => Some (cleared sb) | None => None end)
    (set_child (match f_child fiber with Some c => Some (cleared c) | None => None end)
       (set_hooks (map (set_cleanup None) <$> f_hooks fiber) fiber)).




(** The message of an error names a hook: the name occurs in it. *)
Definition mentions (hookName msg : string) : bool :=
  bool_decide (is_Some (String.index 0 hookName msg)).

(** A context object is valid when it exists and has a [_contextId]. *)
Definition valid_context (ctx : option context) : bool :=
  match ctx with
  | Some c => bool_decide (is_Some (_contextId c))
  | None => false
  end.

(** The value of the argument of [useState]. *)
Definition initial_value (initial : initial_state) : value :=
  match initial with InitVal v => v | InitFn f => f tt end.

(** The value of the arguments of [useReducer]. *)
Definition reducer_initial (initialState : value) (init : option (value -> value))
  : value :=
  match init with Some f => f initialState | None => initialState end.

(** Two instances of one component function [Item], each with its own
    fiber, while the function is being called for it. *)
Definition Item : fn_ref := {| fn_id := 7; fn_name := "Item"; fn_src := "" |}.

Definition item_fiber (key : value) : Fiber :=
  mkFiber (Some (TFunc Item)) (Props (Some key) [] []) None None None None None
          (Some PLACEMENT) (Some []) None [].


(** An event handler that calls the setter of the hook [hookKey] with each
    of [acts] in turn. *)
Definition setter_calls (hookKey : string) (acts : list action) : list cmd :=
  map (CSetState hookKey) acts.

(** A counter: [const [count, setCount] = useState(0)], rendered as a [div]
    with the count as text. *)
Definition Counter : fn_ref :=
  {| fn_id := 1; fn_name := "Counter"; fn_src := "" |}.

Definition text_element (v : value) : element :=
  Element (THost TEXT_ELEMENT) None [("nodeValue", v)] [].

Definition counter_app (f : fn_ref) (p : props) : M jsx :=
  r <- useState (InitVal (VNum 0)) ;;
  ret (JSingle (Some (Element (THost "div") None [] [Some (text_element r.1)]))).

(** A deadline that never asks to yield. *)
Definition no_deadline : IdleDeadline := fun _ => 50%Z.

(** The state that a computation leaves. *)
Definition state_after {A} (m : M A) (s : rt) : rt :=
  match m s with
  | Ok _ s' | Throw _ s' => s'
  | Stuck => s
  end.

(** The counter mounted in the container [0] of an empty page, the work
    loop run to the end. *)
Definition counter_mounted : rt :=
  state_after
    (render (Some (Element (TFunc Counter) None [] [])) 0 ;;;
     run_until_idle counter_app 10 100 no_deadline)
    (initial_rt 1).

(** The calls of the component function [f] among the events. *)
Definition renders_of (f : fn_ref) (evs : list event) : nat :=
  length (List.filter (fun e => match e with
                                | Rendered g => bool_decide (g = f)
                                | _ => false
                                end) evs).

(** An old fiber as the reconciler leaves it when it removes it. *)
Definition tagged_for_deletion (old : Fiber) : Fiber :=
  set_effectTag (Some DELETION) old.

(** The old children of a fiber that is being reconciled. *)
Definition old_children (wipFiber : Fiber) : list Fiber :=
  chain_of (match f_alternate wipFiber with
            | Some alt => f_child alt
            | None => None
            end).

(** The fiber that positional reconciliation builds for the element [el]
    at the position of [old]. *)
Definition new_child (wipFiber : Fiber) (old : option Fiber) (el : element) : Fiber :=
  match old with
  | Some o =>
      if sameType (Some o) (Some el) then update_fiber wipFiber o el
      else placement_fiber wipFiber el
  | None => placement_fiber wipFiber el
  end.

(** A [div] that was rendered with one [div] child, and is rendered again
    with a [span] at that position. *)
Definition div_with_child (child : string) : element :=
  Element (THost "div") None [] [Some (Element (THost child) None [] [])].

Definition old_div_child : Fiber :=
  mkFiber (Some (THost "div")) (Props None [] []) (Some 2)
          (Some (PLink (Some 1) [] None)) None None None (Some PLACEMENT)
          None None [].

Definition old_div : Fiber :=
  mkFiber (Some (THost "div")) (e_props (div_with_child "div")) (Some 1) None None
          (Some old_div_child) None (Some PLACEMENT) None (Some []) [].

Definition new_div : Fiber :=
  mkFiber (Some (THost "div")) (e_props (div_with_child "span")) (Some 1) None
          (Some old_div) None None (Some UPDATE) None None [].

(** What holds of the variables of the loop of [reconcileChildren] when
    [k] turns have been made over the old children [olds]: the old fiber
    is the one at [k]; the new children are those of a prefix of the
    elements, and the elements after that prefix were all [null]; every old
    fiber that the turns found without an element of its type is on both
    deletion lists, tagged. *)
Definition reconcile_inv (wipFiber : Fiber) (elements : list (option element))
    (olds : list Fiber) (k : nat) (st : rc_state) (s : rt) : Prop :=
  rc_index st = k /\
  chain_of (rc_oldFiber st) = drop k olds /\
  (k = 0 \/
   exists j, j <= k /\ length (rc_children st) = j /\
     (forall i, i < j -> exists el,
         mjoin (elements !! i) = Some el /\
         rc_children st !! i = Some (new_child wipFiber (olds !! i) el)) /\
     (forall i, j <= i -> i < k -> mjoin (elements !! i) = None) /\
     (j = k -> is_Some (rc_prevSibling st)) /\
     (j < k -> rc_prevSibling st = None)) /\
  (forall i old, i < k -> olds !! i = Some old ->
     sameType (Some old) (mjoin (elements !! i)) = false ->
     tagged_for_deletion old ∈ rc_deletions st /\
     tagged_for_deletion old ∈ default [] (win_deletions s)).

(** One turn of the loop of [reconcileChildren], by cases: the new fiber,
    the deletion lists, and the outcome. *)
Definition turn_newFiber (wipFiber : Fiber) (st : rc_state)
    (element : option element) : option Fiber :=
  new_child wipFiber (rc_oldFiber st) <$> element.

Definition turn_deleted (st : rc_state) (element : option element) : list Fiber :=
  match rc_oldFiber st with
  | Some old =>
      if sameType (Some old) element then [] else [tagged_for_deletion old]
  | None => []
  end.

Definition turn_state (wipFiber : Fiber) (st : rc_state)
    (element : option element) (children : list Fiber) : rc_state :=
  {| rc_index := S (rc_index st);
     rc_oldFiber := match rc_oldFiber st with
                    | Some old => f_sibling old
                    | None => None
                    end;
     rc_prevSibling := turn_newFiber wipFiber st element;
     rc_children := children;
     rc_deletions := rc_deletions st ++ turn_deleted st element |}.

Definition turn_rt (st : rc_state) (element : option element) (s : rt) : rt :=
  match turn_deleted st element with
  | [] => s
  | dels => set_win_deletions (Some (default [] (win_deletions s) ++ dels)) s
  end.

Definition turn_outcome (wipFiber : Fiber) (elements : list (option element))
    (st : rc_state) (s : rt) : outcome rc_state :=
  let element := mjoin (elements !! rc_index st) in
  let newFiber := turn_newFiber wipFiber st element in
  let s1 := turn_rt st element s in
  if bool_decide (rc_index st = 0) then
    Ok (turn_state wipFiber st element (option_list newFiber)) s1
  else
    match element, rc_prevSibling st with
    | Some _, None =>
        Throw "TypeError: Cannot set properties of null (setting 'sibling')" s1
    | Some _, Some _ =>
        Ok (turn_state wipFiber st element (rc_children st ++ option_list newFiber)) s1
    | None, _ => Ok (turn_state wipFiber st element (rc_children st)) s1
    end.

(** A list [ul] of three [li], keyed in the given order. *)
Definition li (key : string) : element :=
  Element (THost "li") (Some (VStr key)) [] [].

Definition keyed_list (keys : list string) : element :=
  Element (THost "ul") None [] (map (fun k => Some (li k)) keys).

(** A page without components. *)
Definition no_components (f : fn_ref) (p : props) : M jsx :=
  ret (JSingle None).

(** The list keyed a, b, c mounted in the container [0], and the same
    container after the list keyed c, a, b was rendered into it. *)
Definition list_mounted : rt :=
  state_after
    (render (Some (keyed_list ["a"; "b"; "c"])) 0 ;;;
     run_until_idle no_components 10 100 no_deadline)
    (initial_rt 1).

Definition list_reordered : rt :=
  state_after
    (render (Some (keyed_list ["c"; "a"; "b"])) 0 ;;;
     run_until_idle no_components 10 100 no_deadline)
    list_mounted.

(** Key, output node and tag of each child of the first child of the
    committed root. *)
Definition committed_items (s : rt) : list (option value * option node * option EFFECT_TAGS) :=
  match currentRoot s with
  | Some root =>
      match f_child root with
      | Some ul =>
          map (fun c => (p_key (f_props c), f_dom c, f_effectTag c))
              (chain_of (f_child ul))
      | None => []
      end
  | None => []
  end.

(** The fiber of the [ul] of [list_mounted], about to be reconciled with
    the reordered children. *)
Definition reordered_ul : option Fiber :=
  match currentRoot list_mounted with
  | Some root =>
      match f_child root with
      | Some ul =>
          Some (update_fiber root ul (keyed_list ["c"; "a"; "b"]))
      | None => None
      end
  | None => None
  end.

Definition items_of (m : M Fiber) (s : rt)
  : list (option value * option node * option EFFECT_TAGS) :=
  match m s with
  | Ok ul _ =>
      map (fun c => (p_key (f_props c), f_dom c, f_effectTag c))
          (chain_of (f_child ul))
  | _ => []
  end.

(** A call that the effect phase makes: the cleanup or the effect of the
    hook at [index]. *)
Inductive due_call :=
  | DueCleanup (c : cleanup_fn) (index : nat)
  | DueEffect (e : effect_fn) (index : nat).


(** The call, inside the [try] of [runEffects]. *)
Definition run_due_call (d : due_call) : M unit :=
  match d with
  | DueCleanup c index =>
      try_catch (call_cleanup c)
        (fun _ => console_error
           ("Error in useEffect cleanup at index " +:+ pretty index +:+ ":"))
  | DueEffect e index =>
      try_catch (call_effect e ;;; ret tt)
        (fun _ => console_error
           ("Error in useEffect at index " +:+ pretty index +:+ ":"))
  end.

Fixpoint run_due_calls (l : list due_call) : M unit :=
  match l with
  | [] => ret tt
  | d :: l' => run_due_call d ;;; run_due_calls l'
  end.








(** The state after the calls [l] were made one after the other. *)
Definition after_calls (l : list due_call) (s : rt) : rt :=
  state_after (run_due_calls l) s.



(** A computation that leaves the output tree as it found it, whether it
    returns or throws. *)
Definition keeps_document {A} (m : M A) : Prop :=
  forall s, match m s with
            | Ok _ s' | Throw _ s' => document s' = document s
            | Stuck => True
            end.

(** The nodes that [commitDeletion] looks for under [domParent]: the node
    of a fiber that has one, else those of its children, and then those of
    its siblings. *)
Fixpoint top_doms (fiber : Fiber) : list node :=
  match f_dom fiber with
  | Some d => [d]
  | None => match f_child fiber with Some c => top_doms c | None => [] end
  end
  ++ match f_sibling fiber with Some sb => top_doms sb | None => [] end.


(** A component with an effect that returns a cleanup,
    [useEffect(() => cleanup, [])], mounted in the container [0] of an
    empty page. *)
Definition Subscriber : fn_ref :=
  {| fn_id := 3; fn_name := "Subscriber"; fn_src := "" |}.

Definition subscriber_app (f : fn_ref) (p : props) : M jsx :=
  useEffect (Some {| ef_name := 1; ef_body := [];
                     ef_returns := Some {| cl_name := 1; cl_body := [] |} |})
            (Some []) ;;;
  ret (JSingle (Some (Element (THost "div") None []
                        [Some (text_element (VStr "Test"))]))).

Definition subscriber_mounted : rt :=
  state_after
    (render (Some (Element (TFunc Subscriber) None [] [])) 0 ;;;
     run_until_idle subscriber_app 10 100 no_deadline)
    (initial_rt 1).

(** ** Definitions used by the statements on the hooks *)

(** The runtime while the component function of [fiber] is being called,
    when [index] hooks have been called. *)
Definition rendering (fiber : Fiber) (index : nat) : rt :=
  set_win_hookIndex (Some index)
    (set_win_wipFiber (Some fiber)
       (set_hookIndex (Some index)
          (set_wipFiber (Some fiber) (initial_rt 1)))).

(** The fiber of a function component at a render after the first one,
    before any of its hooks is called; [oldHooks] are the hooks of the
    render before. *)
Definition rerendered (fn : fn_ref) (oldHooks : list Hook) : Fiber :=
  let old := mkFiber (Some (TFunc fn)) (Props None [] []) None None None None
                     None (Some PLACEMENT) (Some oldHooks) None [] in
  mkFiber (Some (TFunc fn)) (Props None [] []) None None (Some old) None None
          (Some UPDATE) (Some []) None [].

(** The fiber [fiber] when the hook [h] has been pushed. *)
Definition with_hook (fiber : Fiber) (h : Hook) : Fiber :=
  set_hooks (Some (default [] (f_hooks fiber) ++ [h])) fiber.

(** The ancestors that a fiber reaches through [parent], the nearest
    first. *)
Fixpoint plinks (l : plink) : list plink :=
  l :: match pl_parent l with Some l' => plinks l' | None => [] end.

(** The [contextProviders] that [useContext] looks into, those of the
    fiber itself first. *)
Definition provider_scopes (fiber : Fiber) : list (list (nat * value)) :=
  f_contextProviders fiber
  :: map pl_contextProviders (from_option plinks [] (f_parent fiber)).

(** A consumer under two providers of the context [1]: the nearer one
    provides ["dark"], the farther one ["light"]. *)
Definition consumer_under_two_providers : Fiber :=
  let outer := PLink None [(1, VStr "light")] None in
  let inner := PLink None [(1, VStr "dark")] (Some outer) in
  let between := PLink (Some 5) [] (Some inner) in
  mkFiber (Some (TFunc Item)) (Props None [] []) None (Some between) None None
          None (Some PLACEMENT) (Some []) None [].

(** A component with a reducer hook, [useReducer((n, a) => n + a, 0)],
    rendered as a [div] with the state as text and mounted in the
    container [0] of an empty page. *)
Definition Tally : fn_ref := {| fn_id := 4; fn_name := "Tally"; fn_src := "" |}.

Definition add_reducer (state a : value) : value :=
  match state, a with
  | VNum n, VNum m => VNum (n + m)
  | _, _ => state
  end.

Definition tally_app (f : fn_ref) (p : props) : M jsx :=
  r <- useReducer add_reducer (VNum 0) None ;;
  ret (JSingle (Some (Element (THost "div") None [] [Some (text_element r.1)]))).

Definition tally_mounted : rt :=
  state_after
    (render (Some (Element (TFunc Tally) None [] [])) 0 ;;;
     run_until_idle tally_app 10 100 no_deadline)
    (initial_rt 1).

(** The hook at [index] when the second pass of [runEffects] is over. *)
Definition hook_after_effect (fiber : Fiber) (index : nat) (hook : Hook) : Hook :=
  match hook with
  | EffectHook e _ _ _ =>
      if shouldRunEffect hook (old_hook fiber index) then
        if throws (ef_body e) then hook else set_cleanup (ef_returns e) hook
      else hook
  | _ => hook
  end.

(** A component at its second render whose effect, without dependency
    list, throws; its hook carries the cleanup that the first run of the
    effect returned. *)
Definition failing_effect_fiber : Fiber :=
  let cleanup := {| cl_name := 1; cl_body := [] |} in
  let first := {| ef_name := 1; ef_body := []; ef_returns := Some cleanup |} in
  let second := {| ef_name := 2; ef_body := [CThrow]; ef_returns := None |} in
  set_hooks (Some [EffectHook second (Some cleanup) None true])
    (rerendered Counter [EffectHook first (Some cleanup) None true]).

(** ** Definitions used by the statements on the reconciler *)

(** An entry [null] of a child array directly before an element. *)
Definition null_before_element (elements : list (option element)) : Prop :=
  exists i el, elements !! i = Some None /\ elements !! S i = Some (Some el).

(** The old children that positional reconciliation removes in its first
    [k] turns: those without an element of their type at their position,
    tagged, in the order of the positions. *)
Definition removed_upto (elements : list (option element)) (olds : list Fiber)
    (k : nat) : list Fiber :=
  flat_map (fun i =>
    match olds !! i with
    | Some old =>
        if sameType (Some old) (mjoin (elements !! i)) then []
        else [tagged_for_deletion old]
    | None => []
    end) (seq 0 k).

(** The key under which [reconcileChildrenWithKeys] files the old child at
    [index], and the key under which it looks for the element at [index]:
    [props?.key ?? index]. *)
Definition old_key (index : nat) (old : Fiber) : value :=
  key_or_index (p_key (f_props old)) index.

Definition element_key (index : nat) (el : element) : value :=
  key_or_index (e_key el) index.

(** The old children, each with its key. *)
Definition keyed_olds (olds : list Fiber) : FiberMap :=
  imap (fun i old => (old_key i old, old)) olds.

(** An old child filed under a key is continued: one of the elements,
    from [index] on, has that key and the type of the child. *)
Fixpoint continued_from (index : nat) (els : list element) (kv : value * Fiber)
  : bool :=
  match els with
  | [] => false
  | el :: els' =>
      bool_decide (element_key index el = kv.1) && sameType (Some kv.2) (Some el)
      || continued_from (S index) els' kv
  end.

(** The old children that keyed reconciliation removes: those that are
    not continued, tagged, in the order of the old children. *)
Definition removed_by_key (els : list element) (olds : list Fiber) : list Fiber :=
  map (fun kv => tagged_for_deletion kv.2)
      (List.filter (fun kv => negb (continued_from 0 els kv)) (keyed_olds olds)).

(** A [ul] that was rendered with the items keyed a and b, on the nodes
    [2] and [3], and is rendered again. *)
Definition old_li (key : string) (dom : node) (sibling : option Fiber) : Fiber :=
  mkFiber (Some (THost "li")) (Props (Some (VStr key)) [] []) (Some dom)
          (Some (PLink (Some 1) [] None)) None None sibling (Some PLACEMENT)
          None None [].

Definition ul_rendered_again : Fiber :=
  let old := mkFiber (Some (THost "ul")) (Props None [] []) (Some 1) None None
                     (Some (old_li "a" 2 (Some (old_li "b" 3 None)))) None
                     (Some PLACEMENT) None (Some []) [] in
  mkFiber (Some (THost "ul")) (Props None [] []) (Some 1) None (Some old) None
          None (Some UPDATE) None None [].

(** ** Definitions used by the statements on the commit *)




(** A [div] with two children, the second a [span]; mounted with a [p] as
    first child in the container [0] of an empty page, and rendered again
    with an [h1] in the place of the [p]: the state when the render pass
    is over, and the state when the work loop has come to rest. *)
Definition two_children (first : string) : element :=
  Element (THost "div") None []
    [Some (Element (THost first) None [] []);
     Some (Element (THost "span") None [] [])].

Definition pair_mounted : rt :=
  state_after
    (render (Some (two_children "p")) 0 ;;;
     run_until_idle no_components 10 100 no_deadline)
    (initial_rt 1).


Definition pair_replaced : rt :=
  state_after
    (render (Some (two_children "h1")) 0 ;;;
     run_until_idle no_components 10 100 no_deadline)
    pair_mounted.

(** ** Definitions used by the statements on the work loop *)

(** The host runs [k] callbacks registered with [requestIdleCallback], one
    after the other. *)
Fixpoint run_callbacks (components : fn_ref -> props -> M jsx) (k fuel : nat)
    (deadline : IdleDeadline) : M unit :=
  match k with
  | O => ret tt
  | S k' =>
      run_idle_callback components fuel deadline ;;;
      run_callbacks components k' fuel deadline
  end.

(** A deadline that asks to yield after every unit of work. *)
Definition always_yield : IdleDeadline := fun _ => 0%Z.

(** [render] of the [div] with two children was called on an empty page;
    no callback has run yet. *)
Definition pair_rendering : rt :=
  state_after (render (Some (two_children "p")) 0) (initial_rt 1).

(** ** vdom/createElement *)

(** The primitive values that are passed as children. *)
Inductive prim :=
  | PUndefined
  | PNull
  | PBool (b : bool)
  | PNum (z : Z)
  | PStr (s : string).

Definition prim_value (p : prim) : value :=
  match p with
  | PUndefined => VUndefined
  | PNull => VNull
  | PBool b => VBool b
  | PNum z => VNum z
  | PStr s => VStr s
  end.

(** A child argument of [createElement]: a primitive, an element, or an
    array of children (a nested array, or what a Fragment returned). *)
Local Unset Elimination Schemes.

Inductive child :=
  | ChPrim (p : prim)
  | ChElement (e : element)
  | ChArray (l : list child).

Local Set Elimination Schemes.

(** An entry of a flattened array is no array. *)
Inductive leaf :=
  | LPrim (p : prim)
  | LElement (e : element).

(** [children.flat(Infinity)], one child at a time *)
Fixpoint flat (c : child) : list leaf :=
  match c with
  | ChPrim p => [LPrim p]
  | ChElement e => [LElement e]
  | ChArray l => flat_map flat l
  end.

(** [child != null && child !== false] *)
Definition kept (c : leaf) : bool :=
  match c with
  | LPrim PUndefined | LPrim PNull | LPrim (PBool false) => false
  | _ => true
  end.

(** [createTextElement(text)] *)
Definition createTextElement (text : prim) : element :=
  Element (THost TEXT_ELEMENT) None [("nodeValue", prim_value text)] [].

(** [typeof child === 'object' ? child : createTextElement(child)]; the
    type of [null] is ['object']. *)
Definition as_element (c : leaf) : option element :=
  match c with
  | LElement e => Some e
  | LPrim PNull => None
  | LPrim p => Some (createTextElement p)
  end.

(** The first argument of [createElement]: the symbol [Fragment], or a tag
    name or function. *)
Inductive ctype :=
  | CFragment
  | CType (t : etype).

(** [createElement(type, props, ...children)].  [props] is [null] or an
    object; its own [children], if any, is overwritten. *)
Definition createElement (type : ctype) (props : option props)
    (children : list child) : jsx :=
  let flatChildren := List.filter kept (flat_map flat children) in
  let mapped := map as_element flatChildren in
  match type with
  | CFragment => JArray mapped
  | CType t =>
      if bool_decide (t = THost "Fragment") then JArray mapped
      else JSingle (Some (Element t (props ≫= p_key)
                            (default [] (p_attrs <$> props)) mapped))
  end.

(** What [createElement] returned, passed on as a child. *)
Definition child_of_entry (e : option element) : child :=
  match e with
  | Some e => ChElement e
  | None => ChPrim PNull
  end.

Definition child_of_jsx (result : jsx) : child :=
  match result with
  | JSingle e => child_of_entry e
  | JArray l => ChArray (map child_of_entry l)
  end.

(** The child array that [createElement] built: that of the element, or
    the array that stands for a Fragment. *)
Definition built_children (result : jsx) : list (option element) :=
  match result with
  | JSingle (Some e) => e_children e
  | JSingle None => []
  | JArray l => l
  end.

(** ** vdom/updateDom: properties, attributes and listeners *)

(** The view of [updateDom] and [createDom] that the runtime above leaves
    out: what they write to one node.  A props object is the list of its
    own keys with their values, in the order of [Object.keys]; a key is
    read at its first entry, and [key in props] looks at the own keys (no
    key is the name of a member of [Object.prototype]).  Names are ASCII
    strings.  What is done to the node is returned as the list of the
    calls and assignments made, with the exception that ended it, if
    any. *)
Module Vdom.

Local Unset Elimination Schemes.

(** A value of a prop.  Functions and objects are compared by identity;
    of an object the own keys and their values are given, as they are
    when [updateDom] reads them. *)
Inductive jsval :=
  | JUndefined
  | JNull
  | JBool (b : bool)
  | JNum (z : Z)
  | JStr (s : string)
  | JFun (id : nat)
  | JObj (id : nat) (fields : list (string * jsval)).

Local Set Elimination Schemes.

Definition object := list (string * jsval).

(** [a === b] *)
Definition strict_eq (a b : jsval) : bool :=
  match a, b with
  | JUndefined, JUndefined | JNull, JNull => true
  | JBool x, JBool y => bool_decide (x = y)
  | JNum x, JNum y => bool_decide (x = y)
  | JStr x, JStr y => bool_decide (x = y)
  | JFun i, JFun j => bool_decide (i = j)
  | JObj i _, JObj j _ => bool_decide (i = j)
  | _, _ => false
  end.

(** [typeof v === 'object'] *)
Definition typeof_object (v : jsval) : bool :=
  match v with JNull | JObj _ _ => true | _ => false end.

(** [v] as a condition *)
Definition truthy (v : jsval) : bool :=
  match v with
  | JUndefined | JNull | JBool false => false
  | JNum z => negb (z =? 0)%Z
  | JStr s => negb (bool_decide (s = ""))
  | _ => true
  end.

(** [v == null ? '' : v] *)
Definition or_empty (v : jsval) : jsval :=
  match v with JUndefined | JNull => JStr "" | _ => v end.

(** [Object.keys(o)] *)
Definition keys (o : object) : list string := map fst o.

(** [o[key]] *)
Fixpoint get (o : object) (key : string) : jsval :=
  match o with
  | [] => JUndefined
  | (k, v) :: o' => if bool_decide (k = key) then v else get o' key
  end.

(** [key in o] *)
Definition has (o : object) (key : string) : bool :=
  bool_decide (key ∈ keys o).

(** Strings *)
Fixpoint startsWith (s prefix : string) : bool :=
  match prefix, s with
  | EmptyString, _ => true
  | String a prefix', String b s' => bool_decide (a = b) && startsWith s' prefix'
  | String _ _, EmptyString => false
  end.

Definition lower (c : Ascii.ascii) : Ascii.ascii :=
  let n := Ascii.nat_of_ascii c in
  if (65 <=? n)%nat && (n <=? 90)%nat then Ascii.ascii_of_nat (n + 32) else c.

Definition upper (c : Ascii.ascii) : Ascii.ascii :=
  let n := Ascii.nat_of_ascii c in
  if (97 <=? n)%nat && (n <=? 122)%nat then Ascii.ascii_of_nat (n - 32) else c.

Fixpoint map_string (f : Ascii.ascii -> Ascii.ascii) (s : string) : string :=
  match s with
  | EmptyString => EmptyString
  | String c s' => String (f c) (map_string f s')
  end.

Definition toLowerCase : string -> string := map_string lower.
Definition toUpperCase : string -> string := map_string upper.

(** [s.substring(n)] *)
Fixpoint substring (n : nat) (s : string) : string :=
  match n, s with
  | S n', String _ s' => substring n' s'
  | _, _ => s
  end.

(** The node that is written to: a text node, or an element with its
    [tagName]. *)
Inductive dom_node :=
  | TextNode
  | ElementNode (tagName : string).

(** What is done to the node. *)
Inductive dom_op :=
  | SetTextContent (v : jsval)
  | RemoveEventListener (eventType : string) (listener : jsval)
  | AddEventListener (eventType : string) (listener : jsval)
  | SetStyle (styleProp : string) (v : jsval)
  | RemoveAttribute (name : string)
  | SetAttribute (name : string) (v : jsval)
  | SetProperty (name : string) (v : jsval)
  | CallRef (ref : nat).

Inductive error := TypeError (message : string).

(** The operations made, and the exception that ended them. *)
Definition step : Type := list dom_op * option error.

Definition did (ops : list dom_op) : step := (ops, None).
Definition raise (e : error) : step := ([], Some e).

Definition and_then (a b : step) : step :=
  match a.2 with
  | Some _ => a
  | None => (a.1 ++ b.1, b.2)
  end.

(** [l.forEach(f)] *)
Definition forEach {A} (f : A -> step) (l : list A) : step :=
  foldr (fun x rest => and_then (f x) rest) (did []) l.

Definition isEvent (key : string) : bool := startsWith key "on".

Definition isProperty (key : string) : bool :=
  negb (bool_decide (key = "children")) && negb (bool_decide (key = "ref"))
  && negb (isEvent key).

Definition isNew (prev next : object) (key : string) : bool :=
  negb (strict_eq (get prev key) (get next key)).

Definition isGone (prev next : object) (key : string) : bool :=
  negb (has next key).

(** [name.toLowerCase().substring(2)] *)
Definition eventType (name : string) : string := substring 2 (toLowerCase name).

(** [name.startsWith('data-') || name.startsWith('aria-') || name === 'id'
    || name === 'className'] *)
Definition isAttribute (name : string) : bool :=
  startsWith name "data-" || startsWith name "aria-"
  || bool_decide (name = "id") || bool_decide (name = "className").

Definition attributeName (name : string) : string :=
  if bool_decide (name = "className") then "class" else name.

(** [Object.keys(v)] for a value [v] with [typeof v === 'object'] *)
Definition Object_keys (v : jsval) : list string + error :=
  match v with
  | JObj _ fields => inl (keys fields)
  | _ => inr (TypeError "Cannot convert undefined or null to object")
  end.

(** [styleProp in v] for such a value *)
Definition in_object (styleProp : string) (v : jsval) : bool + error :=
  match v with
  | JObj _ fields => inl (has fields styleProp)
  | _ => inr (TypeError ("Cannot use 'in' operator to search for '"
                          +:+ styleProp +:+ "' in null"))
  end.

(** [v[styleProp]] for an object *)
Definition field (v : jsval) (styleProp : string) : jsval :=
  match v with
  | JObj _ fields => get fields styleProp
  | _ => JUndefined
  end.

(** The body of the [forEach] over the props that are gone. *)
Definition remove_property (prev : object) (name : string) : step :=
  if bool_decide (name = "style") && typeof_object (get prev name) then
    match Object_keys (get prev name) with
    | inl styleProps => did (map (fun styleProp => SetStyle styleProp (JStr "")) styleProps)
    | inr e => raise e
    end
  else if bool_decide (name = "disabled") then did [RemoveAttribute "disabled"]
  else if isAttribute name then did [RemoveAttribute (attributeName name)]
  else did [SetProperty name (JStr "")].

(** The body of the [forEach] over the props that are new. *)
Definition set_property (dom : dom_node) (prev next : object) (name : string)
  : step :=
  if bool_decide (name = "style") && typeof_object (get next name) then
    and_then
      (if truthy (get prev name) && typeof_object (get prev name) then
         match Object_keys (get prev name) with
         | inl styleProps =>
             forEach (fun styleProp =>
                        match in_object styleProp (get next name) with
                        | inl true => did []
                        | inl false => did [SetStyle styleProp (JStr "")]
                        | inr e => raise e
                        end) styleProps
         | inr e => raise e
         end
       else did [])
      (match Object_keys (get next name) with
       | inl styleProps =>
           did (map (fun styleProp =>
                       SetStyle styleProp (field (get next name) styleProp))
                    styleProps)
       | inr e => raise e
       end)
  else if bool_decide (name = "value")
          && match dom with
             | ElementNode tagName =>
                 negb (bool_decide (tagName = ""))
                 && bool_decide (toLowerCase tagName = "input")
             | TextNode => false
             end then
    did [SetProperty "value"
           (if truthy (get next name) then get next name else JStr "")]
  else if bool_decide (name = "disabled") then
    if truthy (get next name) then did [SetAttribute "disabled" (JStr "")]
    else did [RemoveAttribute "disabled"]
  else if isAttribute name then
    did [SetAttribute (attributeName name) (or_empty (get next name))]
  else did [SetProperty name (or_empty (get next name))].

(** [updateDom(dom, prevProps, nextProps)] *)
Definition updateDom (dom : dom_node) (prevProps nextProps : object) : step :=
  match dom with
  | TextNode =>
      if negb (strict_eq (get prevProps "nodeValue") (get nextProps "nodeValue"))
      then did [SetTextContent (get nextProps "nodeValue")]
      else did []
  | ElementNode _ =>
      and_then
        (forEach (fun name =>
                    did [RemoveEventListener (eventType name) (get prevProps name)])
           (List.filter (fun key => negb (has nextProps key)
                                    || isNew prevProps nextProps key)
              (List.filter isEvent (keys prevProps))))
     (and_then
        (forEach (remove_property prevProps)
           (List.filter (isGone prevProps nextProps)
              (List.filter isProperty (keys prevProps))))
     (and_then
        (forEach (set_property dom prevProps nextProps)
           (List.filter (isNew prevProps nextProps)
              (List.filter isProperty (keys nextProps))))
     (and_then
        (forEach (fun name =>
                    did [AddEventListener (eventType name) (get nextProps name)])
           (List.filter (isNew prevProps nextProps)
              (List.filter isEvent (keys nextProps))))
        (match get nextProps "ref" with
         | JFun ref => did [CallRef ref]
         | _ => did []
         end))))
  end.

(** [createDom(fiber)], for a fiber with a tag name as type: the node that
    [document] creates (the [tagName] of an element of an HTML document is
    its type in upper case), and what [updateDom] does to it. *)
Definition createDom (type : string) (props : object) : dom_node * step :=
  let dom := if bool_decide (type = TEXT_ELEMENT) then TextNode
             else ElementNode (toUpperCase type) in
  (dom, updateDom dom [] props).

(** The listeners of a node: pairs of an event type and a function.
    [addEventListener] adds a pair that is not there yet,
    [removeEventListener] takes it away; a call with [undefined] or [null]
    in the place of the function does nothing. *)
Definition listener : Type := string * nat.

Definition listeners_after_op (op : dom_op) (ls : list listener)
  : list listener :=
  match op with
  | AddEventListener t (JFun f) =>
      if bool_decide ((t, f) ∈ ls) then ls else ls ++ [(t, f)]
  | RemoveEventListener t (JFun f) =>
      List.filter (fun l => negb (bool_decide (l = (t, f)))) ls
  | _ => ls
  end.

Definition listeners_after (ops : list dom_op) (ls : list listener)
  : list listener :=
  foldl (fun ls op => listeners_after_op op ls) ls ops.

(** The values for which that is how a node takes the two calls. *)
Definition is_listener (v : jsval) : bool :=
  match v with JFun _ | JUndefined | JNull => true | _ => false end.

Definition touches_listeners (op : dom_op) : bool :=
  match op with
  | AddEventListener _ _ | RemoveEventListener _ _ => true
  | _ => false
  end.

(** The listeners that a props object asks for. *)
Definition handlers (props : object) : list listener :=
  flat_map (fun key => match get props key with
                       | JFun f => [(eventType key, f)]
                       | _ => []
                       end)
           (List.filter isEvent (keys props)).

(** The attributes of a node, by name, with the values as they are
    passed (the node keeps them as strings).  An element of an HTML
    document takes the name of an attribute in lower case. *)
Definition attributes_after_op (op : dom_op) (attrs : gmap string jsval)
  : gmap string jsval :=
  match op with
  | SetAttribute name v => <[toLowerCase name := v]> attrs
  | RemoveAttribute name => delete (toLowerCase name) attrs
  | _ => attrs
  end.

Definition attributes_after (ops : list dom_op) (attrs : gmap string jsval)
  : gmap string jsval :=
  foldl (fun attrs op => attributes_after_op op attrs) attrs ops.

(** The attribute that the prop [name] is written to, for the props that
    are written to attributes. *)
Definition attribute_of (name : string) : option string :=
  if bool_decide (name = "disabled") || isAttribute name
  then Some (toLowerCase (attributeName name))
  else None.

Definition primitive (v : jsval) : bool :=
  match v with JFun _ | JObj _ _ => false | _ => true end.

(** The last write to the attribute [a] by an operation, and among
    operations: the value set, or [None] for a removal. *)
Definition written (a : string) (op : dom_op) : option (option jsval) :=
  match op with
  | SetAttribute name v =>
      if bool_decide (toLowerCase name = a) then Some (Some v) else None
  | RemoveAttribute name =>
      if bool_decide (toLowerCase name = a) then Some None else None
  | _ => None
  end.

Definition last_write (a : string) (ops : list dom_op)
  : option (option jsval) :=
  foldl (fun w op => match written a op with Some r => Some r | None => w end)
        None ops.

(** The attribute that [set_property] leaves for the prop [name]. *)
Definition attribute_value (props : object) (name : string) : option jsval :=
  if bool_decide (name = "disabled") then
    if truthy (get props name) then Some (JStr "") else None
  else Some (or_empty (get props name)).

End Vdom.

(** ** component: the class [Component] *)

Module Component.

(** An instance: [props], [state] (an object: its keys with their values)
    and [_internalFiber]. *)
Record instance := Instance {
  i_props : props;
  i_state : gmap string value;
  i_internalFiber : option Fiber }.

(** [new Component(props)] *)
Definition new (p : props) : instance :=
  {| i_props := p; i_state := ∅; i_internalFiber := None |}.

(** The argument of [setState]: an object, which may be [null] or
    [undefined], or a function of the state that returns one. *)
Inductive partialState :=
  | PartialObject (o : option (gmap string value))
  | PartialUpdater (f : gmap string value -> option (gmap string value)).

(** [typeof partialState === 'function' ? partialState(this.state)
    : partialState] *)
Definition newState (partial : partialState) (state : gmap string value)
  : option (gmap string value) :=
  match partial with
  | PartialUpdater f => f state
  | PartialObject o => o
  end.

(** [{ ...state, ...newState }] *)
Definition merged (state : gmap string value)
    (newState : option (gmap string value)) : gmap string value :=
  default ∅ newState ∪ state.

(** [this.forceUpdate()]: [window.minireact.scheduleRerender] is
    [scheduleRerender]. *)
Definition forceUpdate : M unit := scheduleRerender.

(** [this.setState(partialState)]; the instance is returned as it is
    left. *)
Definition setState (partial : partialState) (this : instance) : M instance :=
  let newState := newState partial (i_state this) in
  let this := {| i_props := i_props this;
                 i_state := merged (i_state this) newState;
                 i_internalFiber := i_internalFiber this |} in
  forceUpdate ;;;
  ret this.

(** [render()] of the base class *)
Definition render : M jsx :=
  throw "Error: Component subclass must implement render() method".

End Component.

(** A counter held in the state of an instance. *)
Definition count_is (n : Z) : Component.partialState :=
  Component.PartialObject (Some {[ "count" := VNum n ]}).

Definition count_up : Component.partialState :=
  Component.PartialUpdater (fun state =>
    match state !! "count" with
    | Some (VNum n) => Some {[ "count" := VNum (n + 1) ]}
    | _ => None
    end).

(** * Properties *)

(** One step of a computation applied to a state. *)
Ltac msimpl := cbn [bind gets modify ret throw stuck try_catch].

(** ** Induction on the tree of a fiber *)

Lemma Fiber_tree_ind (P : Fiber -> Prop) :
  (forall f,
      (forall c, f_child f = Some c -> P c) ->
      (forall sb, f_sibling f = Some sb -> P sb) ->
      P f) ->
  forall f, P f.
Proof.
  intros step. fix IH 1. intros f. apply step.
  - destruct f as [ty pr d pa al [c|] sb tg hk dl cp]; simpl; intros c' E;
      [injection E as <-; apply IH | discriminate].
  - destruct f as [ty pr d pa al c [sb|] tg hk dl cp]; simpl; intros sb' E;
      [injection E as <-; apply IH | discriminate].
Qed.

(** ** The events of a computation *)

Lemma visible_app l1 l2 : visible (l1 ++ l2) = visible l1 ++ visible l2.
Proof. apply List.filter_app. Qed.

Lemma emitted_refl s : emitted s s [].
Proof. unfold emitted. by rewrite app_nil_r. Qed.

Lemma emitted_trans s1 s2 s3 e1 e2 :
  emitted s1 s2 e1 -> emitted s2 s3 e2 -> emitted s1 s3 (e1 ++ e2).
Proof. unfold emitted. intros -> ->. by rewrite app_assoc. Qed.

Lemma scheduleRerender_emits s :
  exists s' evs, scheduleRerender s = Ok tt s' /\ emitted s s' evs /\ visible evs = [].
Proof.
  unfold scheduleRerender, bind, gets. destruct (currentRoot s) as [r|] eqn:E.
  - unfold startWorkLoop, bind, gets, modify. simpl.
    destruct (isWorkLoopRunning s); simpl;
      eexists _, []; (split; [reflexivity|]); split; try reflexivity;
      unfold emitted; simpl; by rewrite app_nil_r.
  - unfold modify. eexists _, [_]. split; [reflexivity|]. split; [reflexivity|].
    reflexivity.
Qed.

Lemma setState_emits k a s :
  exists s' evs, setState k a s = Ok tt s' /\ emitted s s' evs /\ visible evs = [].
Proof.
  unfold setState, bind, gets.
  destruct (Object_is _ _).
  - exists s, []. split; [reflexivity|]. split; [apply emitted_refl | reflexivity].
  - unfold modify. simpl.
    match goal with |- context [scheduleRerender ?s0] =>
      destruct (scheduleRerender_emits s0) as (s' & evs & -> & He & Hv);
      exists s', evs; split; [reflexivity|]; split; [|exact Hv];
      assert (console s0 = console s) as Hc by (destruct (updateQueues s !! k); reflexivity)
    end.
    unfold emitted in *. by rewrite <- Hc.
Qed.

Lemma dispatch_emits k a s :
  exists s' evs, dispatch k a s = Ok tt s' /\ emitted s s' evs /\ visible evs = [].
Proof.
  unfold dispatch, bind, modify.
  match goal with |- context [scheduleRerender ?s0] =>
    destruct (scheduleRerender_emits s0) as (s' & evs & -> & He & Hv);
    exists s', evs; split; [reflexivity|]; split; [|exact Hv];
    assert (console s0 = console s) as Hc by (destruct (actionQueues s !! k); reflexivity)
  end.
  unfold emitted in *. by rewrite <- Hc.
Qed.

(** The body of a callback returns or throws according to [throws]; in
    both cases it leaves warnings only. *)
Lemma run_cmds_emits body s :
  exists s' evs,
    emitted s s' evs /\ visible evs = [] /\
    if throws body
    then exists msg, run_cmds body s = Throw msg s'
    else run_cmds body s = Ok tt s'.
Proof.
  revert s. induction body as [|c body IH]; intros s.
  - exists s, []. split; [apply emitted_refl|]. split; reflexivity.
  - destruct c as [k a|k a|]; simpl.
    + destruct (setState_emits k a s) as (s1 & e1 & E1 & H1 & V1).
      destruct (IH s1) as (s2 & e2 & H2 & V2 & R).
      exists s2, (e1 ++ e2). split; [by eapply emitted_trans|].
      split; [by rewrite visible_app, V1, V2|].
      unfold bind. rewrite E1. exact R.
    + destruct (dispatch_emits k a s) as (s1 & e1 & E1 & H1 & V1).
      destruct (IH s1) as (s2 & e2 & H2 & V2 & R).
      exists s2, (e1 ++ e2). split; [by eapply emitted_trans|].
      split; [by rewrite visible_app, V1, V2|].
      unfold bind. rewrite E1. exact R.
    + exists s, []. split; [apply emitted_refl|]. split; [reflexivity|].
      eexists. reflexivity.
Qed.

(** ** What the effect phase is expected to call *)

Lemma call_cleanup_caught c index s :
  exists s' evs,
    try_catch (call_cleanup c) (fun _ => console_error
      ("Error in useEffect cleanup at index " +:+ pretty index +:+ ":")) s
    = Ok tt s' /\
    emitted s s' evs /\ visible evs = cleanup_call c index.
Proof.
  unfold try_catch, call_cleanup, bind, modify.
  destruct (run_cmds_emits (cl_body c) (log (CleanupCalled (cl_name c)) s))
    as (s1 & e1 & H1 & V1 & R).
  unfold cleanup_call. destruct (throws (cl_body c)).
  - destruct R as [msg R]. rewrite R. unfold console_error, modify.
    eexists _, (CleanupCalled (cl_name c) :: e1 ++ [cleanup_error index]).
    split; [reflexivity|]. split.
    + unfold emitted in *. simpl in *. rewrite H1.
      by rewrite <- !app_assoc.
    + change (CleanupCalled (cl_name c) :: e1 ++ [cleanup_error index])
        with ([CleanupCalled (cl_name c)] ++ e1 ++ [cleanup_error index]).
      rewrite !visible_app, V1. reflexivity.
  - rewrite R. exists s1, (CleanupCalled (cl_name c) :: e1).
    split; [reflexivity|]. split.
    + unfold emitted in *. simpl in *. rewrite H1. by rewrite <- !app_assoc.
    + change (CleanupCalled (cl_name c) :: e1)
        with ([CleanupCalled (cl_name c)] ++ e1).
      rewrite !visible_app, V1. reflexivity.
Qed.

Lemma call_effect_caught e hook index s :
  exists hook' s' evs,
    try_catch
      (cleanup <- call_effect e ;; ret (set_cleanup cleanup hook))
      (fun _ =>
         console_error ("Error in useEffect at index " +:+ pretty index +:+ ":") ;;;
         ret hook) s
    = Ok hook' s' /\
    emitted s s' evs /\ visible evs = effect_call e index /\
    hook' = if throws (ef_body e) then hook else set_cleanup (ef_returns e) hook.
Proof.
  unfold try_catch, call_effect, bind, modify, ret.
  destruct (run_cmds_emits (ef_body e) (log (EffectCalled (ef_name e)) s))
    as (s1 & e1 & H1 & V1 & R).
  unfold effect_call. destruct (throws (ef_body e)).
  - destruct R as [msg R]. rewrite R. unfold console_error, modify.
    eexists _, _, (EffectCalled (ef_name e) :: e1 ++ [effect_error index]).
    split; [reflexivity|]. split; [|split; [|reflexivity]].
    + unfold emitted in *. simpl in *. rewrite H1. by rewrite <- !app_assoc.
    + change (EffectCalled (ef_name e) :: e1 ++ [effect_error index])
        with ([EffectCalled (ef_name e)] ++ e1 ++ [effect_error index]).
      rewrite !visible_app, V1. reflexivity.
  - rewrite R. eexists _, s1, (EffectCalled (ef_name e) :: e1).
    split; [reflexivity|]. split; [|split; [|reflexivity]].
    + unfold emitted in *. simpl in *. rewrite H1. by rewrite <- !app_assoc.
    + change (EffectCalled (ef_name e) :: e1)
        with ([EffectCalled (ef_name e)] ++ e1).
      rewrite !visible_app, V1. reflexivity.
Qed.

Lemma run_cleanups_from_trace fiber hooks index s :
  exists s' evs,
    forEach_from (run_cleanup_of fiber) hooks index s = Ok tt s' /\
    emitted s s' evs /\ visible evs = due_cleanups_from fiber hooks index.
Proof.
  revert index s. induction hooks as [|hook hooks IH]; intros index s.
  - exists s, []. split; [reflexivity|]. split; [apply emitted_refl | reflexivity].
  - cbn [forEach_from due_cleanups_from]. unfold bind at 1, run_cleanup_of at 1.
    destruct (is_effect hook).
    + destruct (shouldRunCleanup hook (old_hook fiber index)) as [c|].
      * destruct (call_cleanup_caught c index s) as (s1 & e1 & -> & H1 & V1).
        destruct (IH (S index) s1) as (s2 & e2 & -> & H2 & V2).
        exists s2, (e1 ++ e2). split; [reflexivity|].
        split; [by eapply emitted_trans | by rewrite visible_app, V1, V2].
      * cbn [ret]. destruct (IH (S index) s) as (s2 & e2 & -> & H2 & V2).
        exists s2, e2. done.
    + cbn [ret]. destruct (IH (S index) s) as (s2 & e2 & -> & H2 & V2).
      exists s2, e2. done.
Qed.

Lemma run_cleanups_trace fiber hooks s :
  exists s' evs,
    run_cleanups fiber hooks s = Ok tt s' /\
    emitted s s' evs /\ visible evs = due_cleanups_from fiber hooks 0.
Proof. apply run_cleanups_from_trace. Qed.

(** What [run_effect_of] does with one hook. *)
Lemma run_effect_of_trace fiber hook index s :
  exists hook' s' evs,
    run_effect_of fiber hook index s = Ok hook' s' /\
    emitted s s' evs /\
    visible evs = due_effects_from fiber [hook] index.
Proof.
  assert (Hskip : due_effects_from fiber [hook] index = [] ->
    exists hook' s' evs, ret hook s = Ok hook' s' /\ emitted s s' evs /\
      visible evs = due_effects_from fiber [hook] index).
  { intros ->. exists hook, s, []. split; [reflexivity|].
    split; [apply emitted_refl | reflexivity]. }
  unfold run_effect_of.
  destruct hook as [| |effect cl deps hc| | |]; try (apply Hskip; reflexivity).
  cbn [due_effects_from] in *.
  destruct (shouldRunEffect _ _); [|apply Hskip; reflexivity].
  destruct (call_effect_caught effect (EffectHook effect cl deps hc) index s)
    as (h1 & s1 & e1 & -> & H1 & V1 & _).
  exists h1, s1, e1. rewrite app_nil_r. done.
Qed.

Lemma run_new_effects_from_trace fiber hooks index s :
  exists hooks' s' evs,
    forEach_upd_from (run_effect_of fiber) hooks index s = Ok hooks' s' /\
    emitted s s' evs /\ visible evs = due_effects_from fiber hooks index.
Proof.
  revert index s. induction hooks as [|hook hooks IH]; intros index s.
  - exists [], s, []. split; [reflexivity|]. split; [apply emitted_refl | reflexivity].
  - cbn [forEach_upd_from]. unfold bind at 1.
    destruct (run_effect_of_trace fiber hook index s)
      as (h1 & s1 & e1 & -> & H1 & V1).
    unfold bind.
    destruct (IH (S index) s1) as (h2 & s2 & e2 & -> & H2 & V2).
    exists (h1 :: h2), s2, (e1 ++ e2). split; [reflexivity|].
    split; [by eapply emitted_trans|].
    rewrite visible_app, V1, V2. cbn [due_effects_from].
    by rewrite app_nil_r.
Qed.

Lemma run_new_effects_trace fiber hooks s :
  exists hooks' s' evs,
    run_new_effects fiber hooks s = Ok hooks' s' /\
    emitted s s' evs /\ visible evs = due_effects_from fiber hooks 0.
Proof. apply run_new_effects_from_trace. Qed.

(** The effect phase of one fiber makes the due calls of the fiber, the
    cleanups first, and returns. *)
Lemma run_fiber_effects_trace fiber s :
  exists fiber' s' evs,
    run_fiber_effects fiber s = Ok fiber' s' /\
    emitted s s' evs /\
    visible evs = due_cleanups fiber ++ due_effects fiber.
Proof.
  unfold run_fiber_effects, due_cleanups, due_effects.
  destruct (f_hooks fiber) as [hooks|]; simpl.
  - unfold bind.
    destruct (run_cleanups_trace fiber hooks s) as (s1 & e1 & -> & H1 & V1).
    destruct (run_new_effects_trace fiber hooks s1) as (h2 & s2 & e2 & -> & H2 & V2).
    eexists _, s2, (e1 ++ e2). split; [reflexivity|].
    split; [by eapply emitted_trans | by rewrite visible_app, V1, V2].
  - exists fiber, s, []. split; [reflexivity|]. split; [apply emitted_refl | reflexivity].
Qed.

(** The effect phase of a tree always returns, and makes exactly the due
    calls of the tree, in its order. *)
Lemma runEffects_trace fiber :
  forall s, exists fiber' s' evs,
    runEffects fiber s = Ok fiber' s' /\
    emitted s s' evs /\ visible evs = due_tree fiber.
Proof.
  induction fiber as [fiber IHc IHs] using Fiber_tree_ind. intros s.
  destruct fiber as [ty pr d pa al c sb tg hk dl cp].
  cbn [runEffects due_tree f_child f_sibling] in *.
  unfold bind at 1.
  destruct (run_fiber_effects_trace
              (mkFiber ty pr d pa al c sb tg hk dl cp) s)
    as (f1 & s1 & e1 & -> & H1 & V1).
  unfold bind at 1.
  assert (Hc : exists c' s2 e2,
    match c with
    | Some c0 => c' <- runEffects c0 ;; ret (Some c')
    | None => ret None
    end s1 = Ok c' s2 /\ emitted s1 s2 e2 /\
    visible e2 = match c with Some c0 => due_tree c0 | None => [] end).
  { destruct c as [c0|].
    - destruct (IHc c0 eq_refl s1) as (c' & s2 & e2 & E & H2 & V2).
      unfold bind. rewrite E. by exists (Some c'), s2, e2.
    - exists None, s1, []. split; [reflexivity|]. split; [apply emitted_refl|done]. }
  destruct Hc as (c' & s2 & e2 & -> & H2 & V2).
  unfold bind at 1.
  assert (Hs : exists sb' s3 e3,
    match sb with
    | Some sb0 => sb' <- runEffects sb0 ;; ret (Some sb')
    | None => ret None
    end s2 = Ok sb' s3 /\ emitted s2 s3 e3 /\
    visible e3 = match sb with Some sb0 => due_tree sb0 | None => [] end).
  { destruct sb as [sb0|].
    - destruct (IHs sb0 eq_refl s2) as (sb' & s3 & e3 & E & H3 & V3).
      unfold bind. rewrite E. by exists (Some sb'), s3, e3.
    - exists None, s2, []. split; [reflexivity|]. split; [apply emitted_refl|done]. }
  destruct Hs as (sb' & s3 & e3 & -> & H3 & V3).
  eexists _, s3, (e1 ++ e2 ++ e3). split; [reflexivity|]. split.
  - eapply emitted_trans; [exact H1|]. by eapply emitted_trans.
  - by rewrite !visible_app, V1, V2, V3.
Qed.

(** ** The order of cleanups and effects (C1) *)


Lemma calls_visible evs : calls (visible evs) = calls evs.
Proof.
  unfold calls, visible. induction evs as [|e evs IH]; [reflexivity|].
  destruct e; cbn; rewrite ?IH; reflexivity.
Qed.






(** ** Exceptions of callbacks (C8) *)

Lemma cleanup_hook_trace hook index s :
  exists s' evs,
    cleanup_hook hook index s = Ok (set_cleanup None hook) s' /\
    emitted s s' evs /\ visible evs = held_cleanups_from [hook] index.
Proof.
  assert (Hskip : set_cleanup None hook = hook ->
                  held_cleanups_from [hook] index = [] ->
    exists s' evs, ret hook s = Ok (set_cleanup None hook) s' /\
      emitted s s' evs /\ visible evs = held_cleanups_from [hook] index).
  { intros -> ->. exists s, []. split; [reflexivity|].
    split; [apply emitted_refl | reflexivity]. }
  unfold cleanup_hook.
  destruct hook as [| |effect [c|] deps hc| | |]; try (by apply Hskip).
  unfold bind.
  destruct (call_cleanup_caught c index s) as (s1 & e1 & -> & H1 & V1).
  exists s1, e1. cbn. rewrite app_nil_r. done.
Qed.

Lemma cleanup_hooks_from_trace hooks index s :
  exists s' evs,
    forEach_upd_from cleanup_hook hooks index s
    = Ok (map (set_cleanup None) hooks) s' /\
    emitted s s' evs /\ visible evs = held_cleanups_from hooks index.
Proof.
  revert index s. induction hooks as [|hook hooks IH]; intros index s.
  - exists s, []. split; [reflexivity|]. split; [apply emitted_refl | reflexivity].
  - cbn [forEach_upd_from]. unfold bind at 1.
    destruct (cleanup_hook_trace hook index s) as (s1 & e1 & -> & H1 & V1).
    unfold bind.
    destruct (IH (S index) s1) as (s2 & e2 & -> & H2 & V2).
    exists s2, (e1 ++ e2). split; [reflexivity|].
    split; [by eapply emitted_trans|].
    rewrite visible_app, V1, V2. cbn [held_cleanups_from].
    by rewrite app_nil_r.
Qed.

(** [cleanupEffects] always returns; it calls every cleanup that the tree
    holds, once, and leaves none behind. *)
Lemma cleanupEffects_trace fiber :
  forall s, exists s' evs,
    cleanupEffects fiber s = Ok (cleared fiber) s' /\
    emitted s s' evs /\ visible evs = held_tree fiber.
Proof.
  induction fiber as [fiber IHc IHs] using Fiber_tree_ind. intros s.
  destruct fiber as [ty pr d pa al c sb tg hk dl cp].
  cbn [cleanupEffects cleared held_tree f_child f_sibling f_hooks] in *.
  unfold bind at 1.
  assert (Hh : exists s1 e1,
    match hk with
    | Some hooks => h <- cleanup_hooks hooks ;; ret (Some h)
    | None => ret None
    end s = Ok (map (set_cleanup None) <$> hk) s1 /\ emitted s s1 e1 /\
    visible e1 = held_cleanups_from (default [] hk) 0).
  { destruct hk as [hooks|]; cbn.
    - destruct (cleanup_hooks_from_trace hooks 0 s) as (s1 & e1 & E & H1 & V1).
      unfold bind, cleanup_hooks, forEach_upd. rewrite E. by exists s1, e1.
    - exists s, []. split; [reflexivity|]. split; [apply emitted_refl|done]. }
  destruct Hh as (s1 & e1 & -> & H1 & V1).
  unfold bind at 1.
  assert (Hc : exists s2 e2,
    match c with
    | Some c0 => c' <- cleanupEffects c0 ;; ret (Some c')
    | None => ret None
    end s1 = Ok (match c with Some c0 => Some (cleared c0) | None => None end) s2 /\
    emitted s1 s2 e2 /\
    visible e2 = match c with Some c0 => held_tree c0 | None => [] end).
  { destruct c as [c0|].
    - destruct (IHc c0 eq_refl s1) as (s2 & e2 & E & H2 & V2).
      unfold bind. rewrite E. by exists s2, e2.
    - exists s1, []. split; [reflexivity|]. split; [apply emitted_refl|done]. }
  destruct Hc as (s2 & e2 & -> & H2 & V2).
  unfold bind at 1.
  assert (Hs : exists s3 e3,
    match sb with
    | Some sb0 => sb' <- cleanupEffects sb0 ;; ret (Some sb')
    | None => ret None
    end s2 = Ok (match sb with Some sb0 => Some (cleared sb0) | None => None end) s3 /\
    emitted s2 s3 e3 /\
    visible e3 = match sb with Some sb0 => held_tree sb0 | None => [] end).
  { destruct sb as [sb0|].
    - destruct (IHs sb0 eq_refl s2) as (s3 & e3 & E & H3 & V3).
      unfold bind. rewrite E. by exists s3, e3.
    - exists s2, []. split; [reflexivity|]. split; [apply emitted_refl|done]. }
  destruct Hs as (s3 & e3 & -> & H3 & V3).
  exists s3, (e1 ++ e2 ++ e3). split; [reflexivity|]. split.
  - eapply emitted_trans; [exact H1|]. by eapply emitted_trans.
  - by rewrite !visible_app, V1, V2, V3.
Qed.

(** C8: the effect phase and the cleanups of a removal always return.
    Their calls and console lines ([visible]) are those of [due_tree] and
    [held_tree]: every callback that is due is called, whatever the
    callbacks before it did, and one that throws ([throws]) leaves one
    line on the console, written by the [catch] around that call. *)
Theorem C8_callback_exceptions_are_isolated :
  forall fiber s,
    (exists fiber' s' evs,
        runEffects fiber s = Ok fiber' s' /\ emitted s s' evs /\
        visible evs = due_tree fiber) /\
    (exists fiber' s' evs,
        cleanupEffects fiber s = Ok fiber' s' /\ emitted s s' evs /\
        visible evs = held_tree fiber).
Proof.
  intros fiber s. split.
  - apply runEffects_trace.
  - destruct (cleanupEffects_trace fiber s) as (s' & evs & H).
    by exists (cleared fiber), s', evs.
Qed.

(** ** The dependency list of an effect (C4) *)

Lemma Object_is_false a b : Object_is a b = false <-> a <> b.
Proof.
  unfold Object_is. destruct (bool_decide_reflect (a = b)); split; congruence.
Qed.

Lemma some_differs_spec (prev next : list value) :
  length prev = length next ->
  some_differs prev next = true <->
  exists i a b, prev !! i = Some a /\ next !! i = Some b /\ a <> b.
Proof.
  revert next. induction prev as [|p prev IH]; intros [|n next] Hlen;
    simplify_eq/=.
  - split; [discriminate|]. intros (i & a & b & H & _). destruct i; discriminate.
  - rewrite orb_true_iff, (IH next) by done. rewrite negb_true_iff, Object_is_false.
    split.
    + intros [Hne | (i & a & b & Ha & Hb & Hab)].
      * by exists 0, p, n.
      * by exists (S i), a, b.
    + intros ([|i] & a & b & Ha & Hb & Hab); simplify_eq/=.
      * by left.
      * right. by exists i, a, b.
Qed.

Lemma depsChanged_spec (prev next : list value) :
  depsChanged (Some prev) (Some next) = true <->
  length next <> length prev \/
  exists i a b, prev !! i = Some a /\ next !! i = Some b /\ a <> b.
Proof.
  unfold depsChanged. destruct (Nat.eqb_spec (length prev) (length next)) as [E|N];
    cbn.
  - rewrite some_differs_spec by done. split; [by right|].
    intros [H|H]; [congruence | done].
  - split; [|done]. intros _. left. congruence.
Qed.

Lemma calls_effect_call e index : calls (effect_call e index) = [EffectCalled (ef_name e)].
Proof. unfold effect_call. by destruct (throws _). Qed.

(** C4: in the effect phase, the effect of a hook with dependency list
    [deps] is called, or not, according to the list and to the hook at the
    same index of the previous generation ([prior]): always when the list
    is absent; always when there is no prior hook; never when both lists
    are empty; and when both lists are present, iff the lengths differ or
    the values at some index are not the same for [Object.is]. *)
Theorem C4_effect_runs_by_dependency_list :
  forall fiber effect cleanup deps hasChanged index s,
    let hook := EffectHook effect cleanup deps hasChanged in
    let prior := old_hook fiber index in
    let called (evs : list event) := calls evs = [EffectCalled (ef_name effect)] in
    exists hook' s' evs,
      run_effect_of fiber hook index s = Ok hook' s' /\ emitted s s' evs /\
      (called evs \/ calls evs = []) /\
      (deps = None -> called evs) /\
      (prior = None -> called evs) /\
      (forall old, prior = Some old -> deps = Some [] ->
                   hook_deps old = Some [] -> calls evs = []) /\
      (forall old next prev,
          prior = Some old -> deps = Some next -> hook_deps old = Some prev ->
          called evs <->
          length next <> length prev \/
          exists i a b, prev !! i = Some a /\ next !! i = Some b /\ a <> b).
Proof.
  intros fiber effect cleanup deps hasChanged index s hook prior called.
  destruct (run_effect_of_trace fiber hook index s) as (h' & s' & evs & E & H & V).
  exists h', s', evs. split; [exact E|]. split; [exact H|].
  assert (Hc : calls evs
               = if shouldRunEffect hook prior
                 then [EffectCalled (ef_name effect)] else []).
  { rewrite <- calls_visible, V. cbn. fold prior.
    destruct (shouldRunEffect hook prior); [|reflexivity].
    rewrite app_nil_r. apply calls_effect_call. }
  unfold called. rewrite Hc. clear Hc E H V.
  unfold shouldRunEffect, hook. cbn [hook_deps].
  split; [|split; [|split; [|split]]].
  - destruct (_ || _); [by left | by right].
  - by intros ->.
  - intros ->. by destruct (negb _).
  - intros old -> -> Ho. rewrite Ho. reflexivity.
  - intros old next prev -> -> Ho. rewrite Ho.
    rewrite bool_decide_eq_true_2 by (by eexists). cbn [negb orb].
    rewrite <- depsChanged_spec.
    destruct (depsChanged (Some prev) (Some next)); split; congruence.
Qed.

(** ** Hooks called outside a component (C7) *)

Lemma validateHookCall_outside hookName s :
  getCurrentFiber s = None ->
  validateHookCall hookName s
  = Throw (hookName +:+ ": must be called within a component") s.
Proof. intros H. unfold validateHookCall, bind, gets. by rewrite H. Qed.

(** C7, as stated, fails for [useCallback]: with no current fiber its
    error is the one of [useMemo], and does not name [useCallback]. *)
Lemma C7_useCallback_error_names_useMemo :
  getCurrentFiber (initial_rt 1) = None /\
  useCallback (VObj 0) (Some []) (initial_rt 1)
  = Throw "useMemo: must be called within a component" (initial_rt 1) /\
  mentions "useCallback" "useMemo: must be called within a component" = false.
Proof. repeat split. Qed.

(** C7, amended: with no current fiber, [useState], [useEffect], [useMemo],
    [useRef], [useReducer] and [useContext] throw an error that names the
    hook called, and [useCallback] throws the error of [useMemo];
    [useContext] throws an error that names it whenever its argument is not
    a valid context.  Nothing is written before the error. *)
Theorem C7_hooks_throw_outside_a_component :
  forall s,
    getCurrentFiber s = None ->
    (forall initial, exists msg,
        useState initial s = Throw msg s /\ mentions "useState" msg = true) /\
    (forall effect deps, exists msg,
        useEffect effect deps s = Throw msg s /\ mentions "useEffect" msg = true) /\
    (forall compute deps, exists msg,
        useMemo compute deps s = Throw msg s /\ mentions "useMemo" msg = true) /\
    (forall callback deps, exists msg,
        useCallback callback deps s = Throw msg s /\ mentions "useMemo" msg = true) /\
    (forall initialValue, exists msg,
        useRef initialValue s = Throw msg s /\ mentions "useRef" msg = true) /\
    (forall reducer initialState init, exists msg,
        useReducer reducer initialState init s = Throw msg s /\
        mentions "useReducer" msg = true) /\
    (forall ctx, exists msg,
        useContext ctx s = Throw msg s /\ mentions "useContext" msg = true) /\
    (forall s0 ctx, valid_context ctx = false -> exists msg,
        useContext ctx s0 = Throw msg s0 /\ mentions "useContext" msg = true).
Proof.
  intros s H.
  assert (Hw : win_wipFiber s = None).
  { unfold getCurrentFiber in H. by destruct (win_wipFiber s). }
  repeat split.
  - intros initial. eexists. unfold useState, bind.
    rewrite validateHookCall_outside by done. split; reflexivity.
  - intros [effect|] deps; eexists; unfold useEffect, bind;
      rewrite ?validateHookCall_outside by done; split; reflexivity.
  - intros [computed|] deps; eexists; unfold useMemo, bind, gets;
      rewrite ?Hw; split; reflexivity.
  - intros callback deps. eexists. unfold useCallback, useMemo, bind, gets.
    rewrite Hw. split; reflexivity.
  - intros initialValue. eexists. unfold useRef, bind.
    rewrite validateHookCall_outside by done. split; reflexivity.
  - intros reducer initialState init. eexists. unfold useReducer, bind.
    rewrite validateHookCall_outside by done. split; reflexivity.
  - intros ctx. eexists. unfold useContext, bind.
    rewrite validateHookCall_outside by done. split; reflexivity.
  - intros s0 ctx Hv. unfold useContext, bind, validateHookCall, gets.
    destruct (getCurrentFiber s0) eqn:E; cbn; rewrite E.
    + destruct ctx as [[[id|] dv]|]; try discriminate Hv;
        eexists; split; reflexivity.
    + eexists; split; reflexivity.
Qed.

Lemma C7_hooks_throw_outside_a_component_witness :
  getCurrentFiber (initial_rt 1) = None /\
  exists msg,
    useState (InitVal (VNum 0)) (initial_rt 1) = Throw msg (initial_rt 1) /\
    mentions "useState" msg = true.
Proof.
  split; [reflexivity|].
  exact (proj1 (C7_hooks_throw_outside_a_component (initial_rt 1) eq_refl)
               (InitVal (VNum 0))).
Defined.

(** ** The state cells (C10, C3) *)

(** What [useState] returns and stores, in a component that is being
    rendered. *)
Lemma useState_spec initial s fiber hooks :
  getCurrentFiber s = Some fiber ->
  f_hooks fiber = Some hooks ->
  let hookKey := hookKey_of fiber (getCurrentHookIndex s) in
  let v := drain (default [] (updateQueues s !! hookKey))
                 (default (initial_value initial) (hookStates s !! hookKey)) in
  exists s',
    useState initial s = Ok (v, hookKey) s' /\
    hookStates s' = <[hookKey := v]> (hookStates s) /\
    updateQueues s' = <[hookKey := []]> (updateQueues s).
Proof.
  intros Hf Hh hookKey v.
  unfold useState, validateHookCall. msimpl. rewrite Hf. msimpl. rewrite Hf.
  msimpl. fold hookKey. unfold push_hook. rewrite Hh.
  unfold incrementHookIndex, write_current. subst v.
  destruct (updateQueues s !! hookKey) as [q|] eqn:Eq;
    destruct (hookStates s !! hookKey) as [v0|] eqn:Ev; cbn;
    rewrite ?Eq, ?Ev, ?lookup_insert_eq; cbn;
    (eexists; split; [reflexivity|]); cbn;
    rewrite ?insert_insert_eq; done.
Qed.

(** What [useReducer] returns and stores, in a component that is being
    rendered. *)
Lemma useReducer_spec reducer initialState init s fiber :
  getCurrentFiber s = Some fiber ->
  getCurrentHookIndex s <= length (default [] (f_hooks fiber)) ->
  let hookKey := hookKey_of fiber (getCurrentHookIndex s) in
  let v := reduce reducer (default [] (actionQueues s !! hookKey))
                  (default (reducer_initial initialState init)
                           (reducerStates s !! hookKey)) in
  exists s',
    useReducer reducer initialState init s = Ok (v, hookKey) s' /\
    reducerStates s' = <[hookKey := v]> (reducerStates s) /\
    actionQueues s' = <[hookKey := []]> (actionQueues s).
Proof.
  intros Hf Hi hookKey v.
  unfold useReducer, validateHookCall. msimpl. rewrite Hf. msimpl. rewrite Hf.
  msimpl. fold hookKey. unfold assign_hook, incrementHookIndex, write_current.
  subst v.
  destruct (actionQueues s !! hookKey) as [q|] eqn:Eq;
    destruct (reducerStates s !! hookKey) as [v0|] eqn:Ev; cbn;
    rewrite ?Eq, ?Ev, ?lookup_insert_eq; cbn;
    unfold getCurrentFiber at 1; cbn; fold (getCurrentFiber s); rewrite Hf; cbn;
    repeat case_bool_decide; try lia; cbn;
    (eexists; split; [reflexivity|]); cbn;
    rewrite ?insert_insert_eq; done.
Qed.

(** The stores after a call of the setter of a state hook. *)
Lemma setState_stores hookKey a s :
  exists s',
    setState hookKey a s = Ok tt s' /\
    hookStates s' = hookStates s /\
    updateQueues s'
    = if Object_is (apply_action a (default VUndefined (hookStates s !! hookKey)))
                   (default VUndefined (hookStates s !! hookKey))
      then updateQueues s
      else match updateQueues s !! hookKey with
           | Some q => <[hookKey := q ++ [a]]> (updateQueues s)
           | None => updateQueues s
           end.
Proof.
  unfold setState. msimpl. destruct (Object_is _ _); msimpl.
  - by exists s.
  - unfold scheduleRerender, startWorkLoop, requestIdleCallback_workLoop. msimpl.
    destruct (updateQueues s !! hookKey) as [q|]; cbn;
      destruct (currentRoot s); cbn; try destruct (isWorkLoopRunning s); cbn;
      eexists; (split; [reflexivity|]); done.
Qed.

(** The stores after a call of the dispatcher of a reducer hook. *)
Lemma dispatch_stores hookKey a s :
  exists s',
    dispatch hookKey a s = Ok tt s' /\
    reducerStates s' = reducerStates s /\
    actionQueues s'
    = match actionQueues s !! hookKey with
      | Some q => <[hookKey := q ++ [a]]> (actionQueues s)
      | None => actionQueues s
      end.
Proof.
  unfold dispatch, scheduleRerender, startWorkLoop, requestIdleCallback_workLoop.
  msimpl.
  destruct (actionQueues s !! hookKey) as [q|]; cbn;
    destruct (currentRoot s); cbn; try destruct (isWorkLoopRunning s); cbn;
    eexists; (split; [reflexivity|]); done.
Qed.

Lemma hookKey_of_name fiber fn index :
  f_type fiber = Some (TFunc fn) -> fn_name fn <> "" ->
  hookKey_of fiber index = fn_name fn +:+ "_" +:+ pretty index.
Proof.
  intros Ht Hn. unfold hookKey_of, str_or. rewrite Ht.
  by rewrite bool_decide_eq_false_2.
Qed.

(** C10: the key of a state cell is made of the name of the component
    function and the index of the hook.  Two fibers whose types are
    functions of one name have the same key at every index; the state that
    [useState] (or [useReducer]) reads for the first, and what the setter
    (or dispatcher) it returns writes, is what the hook at that index reads
    for the second, whatever initial state the second passes. *)
Theorem C10_state_cell_shared_by_function_name :
  forall fn1 fn2 fiber1 fiber2 index,
    f_type fiber1 = Some (TFunc fn1) ->
    f_type fiber2 = Some (TFunc fn2) ->
    fn_name fn1 = fn_name fn2 ->
    fn_name fn1 <> "" ->
    hookKey_of fiber1 index = hookKey_of fiber2 index /\
    (forall s1 s2 initial1 initial2 hooks1 hooks2,
        getCurrentFiber s1 = Some fiber1 -> getCurrentHookIndex s1 = index ->
        f_hooks fiber1 = Some hooks1 ->
        getCurrentFiber s2 = Some fiber2 -> getCurrentHookIndex s2 = index ->
        f_hooks fiber2 = Some hooks2 ->
        exists v1 key s1',
          useState initial1 s1 = Ok (v1, key) s1' /\
          forall a, exists s1'',
            setState key a s1' = Ok tt s1'' /\
            (hookStates s2 = hookStates s1'' ->
             updateQueues s2 = updateQueues s1'' ->
             exists s2',
               useState initial2 s2 = Ok (apply_action a v1, key) s2')) /\
    (forall s1 s2 reducer1 reducer2 initial1 initial2 init1 init2,
        getCurrentFiber s1 = Some fiber1 -> getCurrentHookIndex s1 = index ->
        index <= length (default [] (f_hooks fiber1)) ->
        getCurrentFiber s2 = Some fiber2 -> getCurrentHookIndex s2 = index ->
        index <= length (default [] (f_hooks fiber2)) ->
        exists v1 key s1',
          useReducer reducer1 initial1 init1 s1 = Ok (v1, key) s1' /\
          forall a, exists s1'',
            dispatch key a s1' = Ok tt s1'' /\
            (reducerStates s2 = reducerStates s1'' ->
             actionQueues s2 = actionQueues s1'' ->
             exists s2',
               useReducer reducer2 initial2 init2 s2 = Ok (reducer2 v1 a, key) s2')).
Proof.
  intros fn1 fn2 fiber1 fiber2 index Ht1 Ht2 Hname Hne.
  assert (Hkey : hookKey_of fiber1 index = hookKey_of fiber2 index).
  { rewrite (hookKey_of_name fiber1 fn1), (hookKey_of_name fiber2 fn2);
      congruence. }
  split; [exact Hkey|]. split.
  - intros s1 s2 initial1 initial2 hooks1 hooks2 Hf1 Hi1 Hh1 Hf2 Hi2 Hh2.
    destruct (useState_spec initial1 s1 fiber1 hooks1 Hf1 Hh1)
      as (s1' & E1 & Hs1 & Hq1).
    rewrite Hi1 in *. set (key := hookKey_of fiber1 index) in *.
    eexists _, key, s1'. split; [exact E1|]. intros a.
    destruct (setState_stores key a s1') as (s1'' & E2 & Hs2 & Hq2).
    exists s1''. split; [exact E2|]. intros Hs Hq.
    destruct (useState_spec initial2 s2 fiber2 hooks2 Hf2 Hh2)
      as (s2' & E3 & _ & _).
    rewrite Hi2, <- Hkey in E3. fold key in E3.
    exists s2'. rewrite E3. f_equal. f_equal.
    rewrite Hs, Hq, Hs2, Hq2, Hs1, Hq1, !lookup_insert_eq. cbn.
    match goal with |- context [if Object_is ?x ?y then _ else _] =>
      destruct (Object_is x y) eqn:Eo end; rewrite lookup_insert_eq; cbn.
    + unfold Object_is in Eo. by apply bool_decide_eq_true_1 in Eo.
    + reflexivity.
  - intros s1 s2 reducer1 reducer2 initial1 initial2 init1 init2
           Hf1 Hi1 Hl1 Hf2 Hi2 Hl2.
    rewrite <- Hi1 in Hl1. rewrite <- Hi2 in Hl2.
    destruct (useReducer_spec reducer1 initial1 init1 s1 fiber1 Hf1 Hl1)
      as (s1' & E1 & Hs1 & Hq1).
    rewrite Hi1 in *. set (key := hookKey_of fiber1 index) in *.
    eexists _, key, s1'. split; [exact E1|]. intros a.
    destruct (dispatch_stores key a s1') as (s1'' & E2 & Hs2 & Hq2).
    exists s1''. split; [exact E2|]. intros Hs Hq.
    destruct (useReducer_spec reducer2 initial2 init2 s2 fiber2 Hf2 Hl2)
      as (s2' & E3 & _ & _).
    rewrite Hi2, <- Hkey in E3. fold key in E3.
    exists s2'. rewrite E3. f_equal. f_equal.
    by rewrite Hs, Hq, Hs2, Hq2, Hs1, Hq1, !lookup_insert_eq.
Qed.

Lemma C10_state_cell_shared_by_function_name_witness :
  hookKey_of (item_fiber (VStr "a")) 0 = hookKey_of (item_fiber (VStr "b")) 0.
Proof.
  refine (proj1 (C10_state_cell_shared_by_function_name Item Item
                   (item_fiber (VStr "a")) (item_fiber (VStr "b")) 0
                   eq_refl eq_refl eq_refl _)).
  discriminate.
Defined.

(** ** Batched state updates (C3) *)





(** The same scenario run to the end: the three calls cost one call of the
    component function, which reads 3. *)
Lemma counter_three_setters_one_render :
  let before := counter_mounted in
  let after :=
    state_after
      (run_cmds (setter_calls "Counter_0"
                   [AVal (VNum 1); AVal (VNum 2); AVal (VNum 3)]) ;;;
       run_until_idle counter_app 10 100 no_deadline) before in
  renders_of Counter (console after) = renders_of Counter (console before) + 1 /\
  hookStates after !! "Counter_0" = Some (VNum 3) /\
  idleCallbacks after = 0.
Proof. vm_compute. repeat split. Qed.

(** ** Positional reconciliation (C5) *)

Lemma chain_set_sibling o f :
  chain (set_sibling o f) = set_sibling o f :: chain_of o.
Proof. destruct f, o; reflexivity. Qed.

Lemma chain_of_link_cons g l :
  chain_of (link (g :: l)) = set_sibling (link l) g :: chain_of (link l).
Proof. cbn [link chain_of]. apply chain_set_sibling. Qed.

Lemma chain_of_link_lookup l i f :
  l !! i = Some f ->
  chain_of (link l) !! i = Some (set_sibling (link (drop (S i) l)) f).
Proof.
  revert i. induction l as [|g l IH]; intros [|i] H; try discriminate H;
    rewrite chain_of_link_cons.
  - cbn in H. by injection H as ->.
  - cbn in H. cbn [lookup list_lookup drop]. by apply IH.
Qed.

Lemma chain_of_link_length l : length (chain_of (link l)) = length l.
Proof.
  induction l as [|g l IH]; [reflexivity|].
  rewrite chain_of_link_cons. cbn. by rewrite IH.
Qed.

Lemma chain_of_sibling f : chain_of (f_sibling f) = drop 1 (chain f).
Proof. destruct f as [ty pr d pa al c [sb|] tg hk dl cp]; reflexivity. Qed.

Lemma chain_of_drop_head (olds : list Fiber) k old o :
  olds !! k = Some old ->
  chain_of o = drop k olds ->
  o = Some old.
Proof.
  intros H E.
  assert (H0 : chain_of o !! 0 = Some old)
    by (by rewrite E, lookup_drop, Nat.add_0_r).
  destruct o as [f|]; [|discriminate H0].
  destruct f; cbn in H0. by simplify_eq/=.
Qed.

Lemma chain_of_drop_none (olds : list Fiber) k o :
  olds !! k = None ->
  chain_of o = drop k olds ->
  o = None.
Proof.
  intros H E. destruct o as [f|]; [|reflexivity].
  apply lookup_ge_None in H. rewrite drop_ge in E by done.
  destruct f; discriminate E.
Qed.

Lemma old_fiber_at (olds : list Fiber) k o :
  chain_of o = drop k olds -> o = olds !! k.
Proof.
  intros E. destruct (olds !! k) as [old|] eqn:H.
  - by eapply chain_of_drop_head.
  - by eapply chain_of_drop_none.
Qed.

(** [reconcile_step] is [turn_outcome]. *)
Lemma reconcile_step_eq wipFiber elements st s :
  reconcile_step wipFiber elements st s = turn_outcome wipFiber elements st s.
Proof.
  unfold reconcile_step, turn_outcome, turn_state, turn_rt, turn_deleted,
    turn_newFiber, new_child, addDeletion, tagged_for_deletion.
  destruct st as [index o prev children dels]. cbn [rc_index rc_oldFiber
    rc_prevSibling rc_children rc_deletions].
  destruct (mjoin (elements !! index)) as [el|];
    destruct o as [old|]; cbn [fmap option_fmap option_map];
    try destruct (sameType (Some old) (Some el)) eqn:Es; msimpl; cbn [negb];
    msimpl; rewrite ?app_nil_r;
    case_bool_decide; msimpl; try reflexivity;
    destruct prev; msimpl; reflexivity.
Qed.

(** One turn of the loop keeps [reconcile_inv], unless it throws. *)
Lemma reconcile_step_inv wipFiber elements olds k st s st' s' :
  reconcile_inv wipFiber elements olds k st s ->
  reconcile_step wipFiber elements st s = Ok st' s' ->
  reconcile_inv wipFiber elements olds (S k) st' s'.
Proof.
  intros (Hi & Ho & Hc & Hd) E. rewrite reconcile_step_eq in E.
  apply old_fiber_at in Ho as Ho'.
  unfold turn_outcome in E. rewrite Hi in E.
  set (element := mjoin (elements !! k)) in *.
  (* what every outcome of the turn has *)
  assert (Hany : forall children,
    (k = 0 \/
     exists j, j <= S k /\ length children = j /\
       (forall i, i < j -> exists el,
           mjoin (elements !! i) = Some el /\
           children !! i = Some (new_child wipFiber (olds !! i) el)) /\
       (forall i, j <= i -> i < S k -> mjoin (elements !! i) = None) /\
       (j = S k -> is_Some (turn_newFiber wipFiber st element)) /\
       (j < S k -> turn_newFiber wipFiber st element = None)) ->
    (k = 0 -> children = option_list (turn_newFiber wipFiber st element)) ->
    reconcile_inv wipFiber elements olds (S k)
      (turn_state wipFiber st element children) (turn_rt st element s)).
  { intros children Hch H0. unfold turn_state.
    split; [cbn; by rewrite Hi|]. split; [|split].
    - cbn [rc_oldFiber]. rewrite Ho'. destruct (olds !! k) as [old|] eqn:Hk.
      + rewrite chain_of_sibling. rewrite Ho' in Ho. cbn in Ho.
        rewrite Ho, drop_drop. f_equal. lia.
      + apply lookup_ge_None in Hk. by rewrite drop_ge by lia.
    - right. cbn [rc_children rc_prevSibling].
      destruct Hch as [->|Hch]; [|exact Hch].
      rewrite H0 by done. unfold turn_newFiber. rewrite Ho'.
      destruct element as [el|] eqn:Eel; cbn.
      + exists 1. repeat split; try lia; try done.
        intros [|i] Hi1; [|lia]. exists el. done.
      + exists 0. repeat split; try lia; try done.
        intros i _ Hi1. assert (i = 0) as -> by lia. done.
    - intros i old Hik Hold Hst. cbn [rc_deletions].
      unfold turn_rt, turn_deleted. rewrite Ho'.
      destruct (decide (i = k)) as [->|Hne].
      + rewrite Hold. fold element in Hst. rewrite Hst. cbn. split.
        * apply elem_of_app. right. by apply list_elem_of_singleton.
        * apply elem_of_app. right. by apply list_elem_of_singleton.
      + destruct (Hd i old) as [H1 H2]; [lia|done|done|]. split.
        * apply elem_of_app. by left.
        * clear Hst. destruct (olds !! k) as [oldk|]; [|done].
          destruct (sameType (Some oldk) element); [done|]. cbn.
          apply elem_of_app. by left. }
  case_bool_decide as Hk0.
  - injection E as <- <-. apply Hany; [by left | done].
  - destruct element as [el|] eqn:Eel.
    + destruct (rc_prevSibling st) as [prev|] eqn:Eprev; [|discriminate].
      injection E as <- <-. apply Hany; [|done]. right.
      destruct Hc as [->|(j & Hjk & Hlen & Hch & Hnull & Hp1 & Hp2)]; [done|].
      assert (j = k) as ->.
      { destruct (decide (j = k)); [done|]. discriminate Hp2. lia. }
      exists (S k). unfold turn_newFiber. cbn. rewrite length_app. cbn.
      repeat split; try lia; try done.
      intros i Hik. destruct (decide (i = k)) as [->|Hne].
      * exists el. fold element. rewrite Eel. split; [done|].
        rewrite lookup_app_r by lia. rewrite Hlen, Nat.sub_diag.
        by rewrite Ho'.
      * destruct (Hch i) as (el' & H1 & H2); [lia|]. exists el'.
        split; [done|]. rewrite lookup_app_l by lia. done.
    + injection E as <- <-. apply Hany; [|done]. right.
      destruct Hc as [->|(j & Hjk & Hlen & Hch & Hnull & Hp1 & Hp2)]; [done|].
      exists j. unfold turn_newFiber. cbn.
      repeat split; try lia; try done.
      intros i Hji Hik. destruct (decide (i = k)) as [->|Hne]; [done|].
      apply Hnull; lia.
Qed.

Lemma reconcile_step_not_stuck wipFiber elements st s :
  reconcile_step wipFiber elements st s <> Stuck.
Proof.
  rewrite reconcile_step_eq. unfold turn_outcome.
  case_bool_decide; [done|].
  destruct (mjoin _); [destruct (rc_prevSibling st)|]; done.
Qed.

(** The loop of [reconcileChildren] ends within its fuel, and keeps
    [reconcile_inv] up to the end of both lists. *)
Lemma reconcile_loop_inv wipFiber elements olds :
  forall fuel k st s,
    reconcile_inv wipFiber elements olds k st s ->
    (length elements - k) + length (drop k olds) <= fuel ->
    reconcile_loop fuel wipFiber elements st s <> Stuck /\
    forall st' s',
      reconcile_loop fuel wipFiber elements st s = Ok st' s' ->
      exists K, length elements <= K /\ length olds <= K /\
                reconcile_inv wipFiber elements olds K st' s'.
Proof.
  induction fuel as [|fuel IH]; intros k st s Hinv Hfuel.
  - destruct Hinv as (Hi & Ho & Hrest). cbn [reconcile_loop]. rewrite Hi.
    rewrite length_drop in Hfuel.
    assert (rc_oldFiber st = None) as Hnone.
    { apply old_fiber_at in Ho. rewrite Ho. apply lookup_ge_None. lia. }
    rewrite Hnone. rewrite bool_decide_eq_false_2 by lia.
    rewrite bool_decide_eq_false_2 by (by intros [? ?]).
    cbn. split; [done|]. intros st' s' [= <- <-]. exists k.
    split; [lia|]. split; [lia|]. by split.
  - cbn [reconcile_loop].
    destruct (bool_decide (rc_index st < length elements)
              || bool_decide (is_Some (rc_oldFiber st))) eqn:Econd.
    + msimpl.
      destruct (reconcile_step wipFiber elements st s) as [st1 s1|msg s1|] eqn:E.
      * pose proof (reconcile_step_inv _ _ _ _ _ _ _ _ Hinv E) as Hinv1.
        apply (IH (S k)); [exact Hinv1|].
        destruct Hinv as (Hi & Ho & _). rewrite length_drop in *.
        apply orb_true_iff in Econd as [Hc|Hc].
        -- apply bool_decide_eq_true_1 in Hc. lia.
        -- apply bool_decide_eq_true_1 in Hc. apply old_fiber_at in Ho.
           rewrite Ho in Hc. apply lookup_lt_is_Some in Hc. lia.
      * split; [done|]. intros ? ? [=].
      * by apply reconcile_step_not_stuck in E.
    + apply orb_false_iff in Econd as [H1 H2].
      apply bool_decide_eq_false_1 in H1, H2.
      cbn. split; [done|]. intros st' s' [= <- <-]. exists k.
      destruct Hinv as (Hi & Ho & Hrest).
      split; [lia|]. split; [|by split].
      apply old_fiber_at in Ho.
      destruct (olds !! k) eqn:Hk; [rewrite Ho in H2; by destruct H2|].
      by apply lookup_ge_None in Hk.
Qed.



(** ** Keyed children (C2) *)

(** C2 fails on the code: the render path reconciles by position.  When
    the list keyed a, b, c is rendered again as c, a, b, every child is
    tagged [UPDATE], but the child keyed c takes the output node that the
    child keyed a had, and so on around.  [reconcileChildrenWithKeys], on
    the same fiber, gives every key the node it had; the render path does
    not call it. *)
Theorem C2_keyed_reorder_adopts_by_position :
  committed_items list_mounted
  = [(Some (VStr "a"), Some 2, Some PLACEMENT);
     (Some (VStr "b"), Some 3, Some PLACEMENT);
     (Some (VStr "c"), Some 4, Some PLACEMENT)] /\
  committed_items list_reordered
  = [(Some (VStr "c"), Some 2, Some UPDATE);
     (Some (VStr "a"), Some 3, Some UPDATE);
     (Some (VStr "b"), Some 4, Some UPDATE)] /\
  exists ul,
    reordered_ul = Some ul /\
    items_of (updateHostComponent ul) list_mounted
    = [(Some (VStr "c"), Some 2, Some UPDATE);
       (Some (VStr "a"), Some 3, Some UPDATE);
       (Some (VStr "b"), Some 4, Some UPDATE)] /\
    items_of (reconcileChildrenWithKeys ul (p_children (f_props ul))) list_mounted
    = [(Some (VStr "c"), Some 4, Some UPDATE);
       (Some (VStr "a"), Some 2, Some UPDATE);
       (Some (VStr "b"), Some 3, Some UPDATE)].
Proof.
  split; [vm_compute; reflexivity|]. split; [vm_compute; reflexivity|].
  destruct reordered_ul as [ul|] eqn:E; [|vm_compute in E; discriminate].
  exists ul. split; [reflexivity|].
  assert (Some ul = reordered_ul) as Hul by done. clear E.
  vm_compute in Hul. injection Hul as ->.
  split; vm_compute; reflexivity.
Qed.

(** ** The effect phase as a sequence of calls *)

Lemma run_due_call_ok d s : exists s', run_due_call d s = Ok tt s'.
Proof.
  destruct d as [c index|e index]; cbn [run_due_call].
  - destruct (call_cleanup_caught c index s) as (s' & _ & E & _). by exists s'.
  - unfold call_effect. msimpl.
    destruct (run_cmds_emits (ef_body e) (log (EffectCalled (ef_name e)) s))
      as (s1 & e1 & _ & _ & R).
    destruct (throws (ef_body e)).
    + destruct R as [msg ->]. unfold console_error. msimpl. by eexists.
    + rewrite R. by eexists.
Qed.

Lemma run_due_calls_total l s : exists s', run_due_calls l s = Ok tt s'.
Proof.
  revert s. induction l as [|d l IH]; intros s; [by exists s|].
  cbn [run_due_calls]. msimpl.
  destruct (run_due_call_ok d s) as [s1 ->]. apply IH.
Qed.

Lemma run_due_calls_ok l s : run_due_calls l s = Ok tt (after_calls l s).
Proof.
  unfold after_calls, state_after.
  by destruct (run_due_calls_total l s) as [s' ->].
Qed.









(** ** Updates issued by effects (C9) *)











(** ** Unmounting *)

Lemma keeps_ret {A} (a : A) : keeps_document (ret a).
Proof. by intros s. Qed.

Lemma keeps_throw {A} msg : keeps_document (@throw A msg).
Proof. by intros s. Qed.

Lemma keeps_gets {A} (f : rt -> A) : keeps_document (gets f).
Proof. by intros s. Qed.

Lemma keeps_modify f :
  (forall s, document (f s) = document s) -> keeps_document (modify f).
Proof. intros H s. apply H. Qed.

Lemma keeps_bind {A B} (m : M A) (k : A -> M B) :
  keeps_document m -> (forall a, keeps_document (k a)) ->
  keeps_document (bind m k).
Proof.
  intros Hm Hk s. unfold bind. specialize (Hm s).
  destruct (m s) as [a s1|msg s1|]; [|done..].
  specialize (Hk a s1). destruct (k a s1); congruence.
Qed.

Lemma keeps_try_catch {A} (m : M A) h :
  keeps_document m -> (forall msg, keeps_document (h msg)) ->
  keeps_document (try_catch m h).
Proof.
  intros Hm Hh s. unfold try_catch. specialize (Hm s).
  destruct (m s) as [a s1|msg s1|]; [done| |done].
  specialize (Hh msg s1). destruct (h msg s1); congruence.
Qed.

Lemma keeps_forEach_upd_from {A} (body : A -> nat -> M A) l :
  (forall x i, keeps_document (body x i)) ->
  forall index, keeps_document (forEach_upd_from body l index).
Proof.
  intros Hb. induction l as [|x l IH]; intros index; cbn [forEach_upd_from].
  - apply keeps_ret.
  - apply keeps_bind; [apply Hb|]. intros x'.
    apply keeps_bind; [apply IH|]. intros l'. apply keeps_ret.
Qed.

Lemma scheduleRerender_keeps : keeps_document scheduleRerender.
Proof.
  unfold scheduleRerender. apply keeps_bind; [apply keeps_gets|].
  intros [root|]; [|by apply keeps_modify].
  repeat (apply keeps_bind; [by apply keeps_modify|]; intros _).
  unfold startWorkLoop. apply keeps_bind; [apply keeps_gets|].
  intros [|]; cbn [negb]; [apply keeps_ret|].
  apply keeps_bind; [by apply keeps_modify|]. intros _. by apply keeps_modify.
Qed.

Lemma run_cmds_keeps body : keeps_document (run_cmds body).
Proof.
  induction body as [|[k a|k a|] body IH]; cbn [run_cmds].
  - apply keeps_ret.
  - apply keeps_bind; [|intros _; exact IH].
    unfold setState. apply keeps_bind; [apply keeps_gets|]. intros v.
    destruct (Object_is _ _); [apply keeps_ret|].
    apply keeps_bind; [|intros _; apply scheduleRerender_keeps].
    apply keeps_modify. intros s. by destruct (updateQueues s !! k).
  - apply keeps_bind; [|intros _; exact IH].
    unfold dispatch.
    apply keeps_bind; [|intros _; apply scheduleRerender_keeps].
    apply keeps_modify. intros s. by destruct (actionQueues s !! k).
  - apply keeps_throw.
Qed.

Lemma cleanup_hook_keeps hook index : keeps_document (cleanup_hook hook index).
Proof.
  unfold cleanup_hook.
  destruct hook as [| |effect [c|] deps hc| | |]; try apply keeps_ret.
  apply keeps_bind; [|intros _; apply keeps_ret].
  apply keeps_try_catch.
  - unfold call_cleanup. apply keeps_bind; [by apply keeps_modify|].
    intros _. apply run_cmds_keeps.
  - intros _. by apply keeps_modify.
Qed.

Lemma cleanupEffects_keeps fiber : keeps_document (cleanupEffects fiber).
Proof.
  induction fiber as [fiber IHc IHs] using Fiber_tree_ind.
  destruct fiber as [ty pr d pa al c sb tg hk dl cp].
  cbn [cleanupEffects f_child f_sibling f_hooks] in *.
  apply keeps_bind.
  { destruct hk as [hooks|]; [|apply keeps_ret].
    apply keeps_bind; [|intros h; apply keeps_ret].
    apply keeps_forEach_upd_from. apply cleanup_hook_keeps. }
  intros hooks'. apply keeps_bind.
  { destruct c as [c0|]; [|apply keeps_ret].
    apply keeps_bind; [by apply IHc|]. intros c'. apply keeps_ret. }
  intros child'. apply keeps_bind.
  { destruct sb as [sb0|]; [|apply keeps_ret].
    apply keeps_bind; [by apply IHs|]. intros c'. apply keeps_ret. }
  intros sibling'. apply keeps_ret.
Qed.

Lemma cleared_top_doms fiber : top_doms (cleared fiber) = top_doms fiber.
Proof.
  induction fiber as [fiber IHc IHs] using Fiber_tree_ind.
  destruct fiber as [ty pr d pa al c sb tg hk dl cp].
  cbn in *. f_equal.
  - destruct d; [done|]. destruct c as [c0|]; [|done]. by apply IHc.
  - destruct sb as [sb0|]; [|done]. by apply IHs.
Qed.

Lemma cleared_size fiber : fiber_size (cleared fiber) = fiber_size fiber.
Proof.
  induction fiber as [fiber IHc IHs] using Fiber_tree_ind.
  destruct fiber as [ty pr d pa al c sb tg hk dl cp].
  cbn in *. f_equal. f_equal.
  - destruct c as [c0|]; [|done]. by apply IHc.
  - destruct sb as [sb0|]; [|done]. by apply IHs.
Qed.

Lemma held_cleanups_from_cleared hooks index :
  held_cleanups_from (map (set_cleanup None) hooks) index = [].
Proof.
  revert index. induction hooks as [|hook hooks IH]; intros index; [done|].
  cbn [map held_cleanups_from]. rewrite IH. by destruct hook.
Qed.

Lemma cleared_held_tree fiber : held_tree (cleared fiber) = [].
Proof.
  induction fiber as [fiber IHc IHs] using Fiber_tree_ind.
  destruct fiber as [ty pr d pa al c sb tg hk dl cp].
  cbn in *.
  replace (held_cleanups_from (default [] (map (set_cleanup None) <$> hk)) 0)
    with (@nil event)
    by (destruct hk; cbn; by rewrite ?held_cleanups_from_cleared).
  destruct c as [c0|], sb as [sb0|]; cbn;
    rewrite ?(IHc c0 eq_refl), ?(IHs sb0 eq_refl); done.
Qed.

(** A node attached under [parent] is found there by [contains]. *)
Lemma contains_child (pn : gmap nat nat) parent n :
  pn !! n = Some parent -> contains_fuel (size pn) pn parent n = true.
Proof.
  intros Hn.
  destruct (size pn) as [|k] eqn:Hsz.
  { apply map_size_empty_iff in Hsz. subst pn. by rewrite lookup_empty in Hn. }
  cbn [contains_fuel]. case_bool_decide; [done|].
  rewrite Hn. destruct k; cbn [contains_fuel]; by rewrite bool_decide_eq_true_2.
Qed.

Lemma cleared_fields fiber :
  f_dom (cleared fiber) = f_dom fiber /\
  f_child (cleared fiber) = cleared <$> f_child fiber /\
  f_sibling (cleared fiber) = cleared <$> f_sibling fiber.
Proof. destruct fiber as [ty pr d pa al [c|] [sb|] tg hk dl cp]; done. Qed.

(** [commitDeletion] on a chain of fibers whose nodes are attached under
    [domParent], each once: it returns, it calls every cleanup that the
    fibers hold, once, and it detaches the nodes. *)
Lemma commitDeletion_fuel_removes fuel :
  forall o parent s,
    from_option fiber_size 0 o <= fuel ->
    NoDup (from_option top_doms [] o) ->
    (forall n, n ∈ from_option top_doms [] o ->
               parentNode (document s) !! n = Some parent) ->
    exists s' evs,
      commitDeletion_fuel fuel o (Some parent) s = Ok tt s' /\
      emitted s s' evs /\
      visible evs = from_option held_tree [] o /\
      forall n, parentNode (document s') !! n =
                if decide (n ∈ from_option top_doms [] o) then None
                else parentNode (document s) !! n.
Proof.
  induction fuel as [|fuel IH]; intros o parent s Hsz Hnd Hat.
  - destruct o as [fiber|].
    + destruct fiber as [ty pr d pa al c sb tg hk dl cp]. cbn in Hsz. lia.
    + exists s, []. cbn. split; [done|]. split; [apply emitted_refl|].
      split; [done|]. intros n. case_decide; [set_solver|done].
  - destruct o as [fiber|]; cycle 1.
    { exists s, []. cbn. split; [done|]. split; [apply emitted_refl|].
      split; [done|]. intros n. case_decide; [set_solver|done]. }
    destruct (cleared_fields fiber) as (Hcd & Hcc & Hcs).
    cbn [commitDeletion_fuel from_option] in *.
    assert (Hszc : from_option fiber_size 0 (f_child (cleared fiber)) <= fuel).
    { rewrite Hcc. destruct fiber as [ty pr d pa al [c|] sb tg hk dl cp];
        cbn in *; rewrite ?cleared_size; lia. }
    assert (Hszs : from_option fiber_size 0 (f_sibling (cleared fiber)) <= fuel).
    { rewrite Hcs. destruct fiber as [ty pr d pa al c [sb|] tg hk dl cp];
        cbn in *; rewrite ?cleared_size; lia. }
    assert (Htc : from_option top_doms [] (f_child (cleared fiber))
                  = from_option top_doms [] (f_child fiber)).
    { rewrite Hcc. destruct (f_child fiber); cbn; by rewrite ?cleared_top_doms. }
    assert (Hts : from_option top_doms [] (f_sibling (cleared fiber))
                  = from_option top_doms [] (f_sibling fiber)).
    { rewrite Hcs. destruct (f_sibling fiber); cbn; by rewrite ?cleared_top_doms. }
    assert (Hhc : from_option held_tree [] (f_child (cleared fiber)) = []).
    { rewrite Hcc. destruct (f_child fiber); cbn; by rewrite ?cleared_held_tree. }
    assert (Hhs : from_option held_tree [] (f_sibling (cleared fiber)) = []).
    { rewrite Hcs. destruct (f_sibling fiber); cbn; by rewrite ?cleared_held_tree. }
    assert (Htop : top_doms fiber
                   = match f_dom fiber with
                     | Some d => [d]
                     | None => from_option top_doms [] (f_child fiber)
                     end ++ from_option top_doms [] (f_sibling fiber)).
    { by destruct fiber as [ty pr d pa al [c|] [sb|] tg hk dl cp]. }
    rewrite Htop in Hnd, Hat |- *. clear Htop.
    destruct (cleanupEffects_trace fiber s) as (s1 & e1 & E1 & H1 & V1).
    pose proof (cleanupEffects_keeps fiber s) as Hdoc1. rewrite E1 in Hdoc1.
    destruct (f_dom fiber) as [d|].
    + assert (Hd : parentNode (document s) !! d = Some parent)
        by (apply Hat; set_solver).
      unfold bind at 1. unfold bind at 1. unfold contains, gets.
      rewrite (contains_child _ _ _ Hd). unfold bind at 1. rewrite E1.
      unfold bind at 1. unfold removeChild.
      rewrite Hdoc1, (bool_decide_eq_true_2 _ Hd). cbn [ret].
      set (s2 := set_document _ s1).
      apply NoDup_cons in Hnd as [Hd' Hnd].
      destruct (IH (f_sibling (cleared fiber)) parent s2 Hszs)
        as (s3 & e3 & E3 & H3 & V3 & D3).
      { by rewrite Hts. }
      { intros n Hn. rewrite Hts in Hn. cbn.
        rewrite lookup_delete_ne by (intros ->; done).
        apply Hat. set_solver. }
      exists s3, (e1 ++ e3). split; [exact E3|]. split.
      { eapply emitted_trans; [exact H1|]. exact H3. }
      split.
      { rewrite visible_app, V1, V3, Hhs. by rewrite app_nil_r. }
      intros n. rewrite D3, Hts. cbn.
      destruct (decide (n = d)) as [->|Hne].
      * rewrite lookup_delete_eq. repeat case_decide; try done; set_solver.
      * rewrite lookup_delete_ne by done.
        destruct (decide (n ∈ _)) as [Hn|Hn], (decide (n ∈ _)) as [Hn'|Hn'];
          try done;
          rewrite ?elem_of_app, ?elem_of_cons, ?elem_of_nil in *; tauto.
    + unfold bind at 1. rewrite E1. unfold bind at 1.
      apply NoDup_app in Hnd as (Hndc & Hdisj & Hnds).
      destruct (IH (f_child (cleared fiber)) parent s1 Hszc)
        as (s2 & e2 & E2 & H2 & V2 & D2).
      { by rewrite Htc. }
      { intros n Hn. rewrite Htc in Hn. rewrite Hdoc1. apply Hat. set_solver. }
      rewrite E2.
      destruct (IH (f_sibling (cleared fiber)) parent s2 Hszs)
        as (s3 & e3 & E3 & H3 & V3 & D3).
      { by rewrite Hts. }
      { intros n Hn. rewrite Hts in Hn. rewrite D2, Htc, Hdoc1.
        case_decide; [by destruct (Hdisj n)|]. apply Hat. set_solver. }
      exists s3, (e1 ++ e2 ++ e3). split; [exact E3|]. split.
      { eapply emitted_trans; [exact H1|]. by eapply emitted_trans. }
      split.
      { rewrite !visible_app, V1, V2, V3, Hhc, Hhs. by rewrite !app_nil_r. }
      intros n. rewrite D3, Hts, D2, Htc, Hdoc1.
      destruct (decide (n ∈ from_option top_doms [] (f_sibling fiber))) as [Hn|Hn],
        (decide (n ∈ from_option top_doms [] (f_child fiber))) as [Hn'|Hn'],
        (decide (n ∈ _)) as [Hn''|Hn'']; try done;
        rewrite ?elem_of_app in *; tauto.
Qed.


Lemma childNodes_spec d container n :
  n ∈ childNodes d container <-> parentNode d !! n = Some container.
Proof.
  unfold childNodes. rewrite elem_of_dom. unfold is_Some. split.
  - intros [x Hx]. apply map_lookup_filter_Some in Hx as [Hx Hp].
    cbn in Hp. by subst x.
  - intros Hn. exists container. by apply map_lookup_filter_Some.
Qed.






(** * Further properties of the code *)

(** ** hooks/useMemo and hooks/useCallback *)

Lemma some_differs_same (d od : list value) :
  length d = length od -> some_differs d od = false <-> d = od.
Proof.
  revert od. induction d as [|x d IH]; intros [|y od] Hlen; simplify_eq/=.
  - done.
  - rewrite orb_false_iff, negb_false_iff, (IH od) by done.
    unfold Object_is. rewrite bool_decide_eq_true.
    split; [by intros [-> ->] | by intros [= -> ->]].
Qed.

(** [useMemo] at a re-render, over a memo hook of the render before. *)
Lemma useMemo_spec computed deps s fiber index v od :
  win_wipFiber s = Some fiber ->
  win_hookIndex s = Some index ->
  old_hook fiber index = Some (MemoHook v od) ->
  let val := if decide (deps = od) then v else computed in
  exists s',
    useMemo (Some computed) deps s = Ok val s' /\
    win_wipFiber s' = Some (with_hook fiber (MemoHook val deps)) /\
    win_hookIndex s' = Some (index + 1).
Proof.
  intros Hf Hi Hold val. unfold useMemo. msimpl. rewrite Hf, Hi, Hold.
  cbn [hook_deps deps_undefined hook_value].
  assert (Hval : (if match deps with
                     | Some d =>
                         match od with
                         | Some od0 =>
                             if (length d =? length od0)%nat
                             then some_differs d od0 else true
                         | None => true
                         end
                     | None => negb (match od with Some _ => false | None => true end)
                     end
                  then computed else v) = val).
  { subst val. destruct deps as [d|], od as [od0|]; cbn; try done.
    - destruct (length d =? length od0)%nat eqn:Hlen.
      + apply Nat.eqb_eq in Hlen.
        destruct (some_differs d od0) eqn:Hsd.
        * rewrite decide_False; [done|]. intros [= ->].
          apply not_true_iff_false in Hsd; [done|].
          by apply some_differs_same.
        * apply some_differs_same in Hsd; [|done]. subst. by rewrite decide_True.
      + apply Nat.eqb_neq in Hlen. rewrite decide_False; [done|].
        by intros [= ->]. }
  rewrite Hval. unfold write_current. cbn. rewrite Hf, Hi. cbn.
  eexists. split; [reflexivity|]. cbn. done.
Qed.

(** [useMemo] computes again exactly when the dependency list differs from
    the list of the render before: when one list is absent and the other
    not, when the lengths differ, or when two entries at one index are not
    the same value.  With no list at either render the first value is
    returned for ever.  [useCallback] returns the function of the render
    before under the same condition. *)
Theorem useMemo_recomputes_iff_deps_differ :
  forall computed deps s fiber index v od,
    win_wipFiber s = Some fiber ->
    win_hookIndex s = Some index ->
    old_hook fiber index = Some (MemoHook v od) ->
    let val := if decide (deps = od) then v else computed in
    (exists s',
       useMemo (Some computed) deps s = Ok val s' /\
       win_wipFiber s' = Some (with_hook fiber (MemoHook val deps)) /\
       win_hookIndex s' = Some (index + 1)) /\
    (exists s',
       useCallback computed deps s = Ok val s' /\
       win_wipFiber s' = Some (with_hook fiber (MemoHook val deps))).
Proof.
  intros computed deps s fiber index v od Hf Hi Hold val.
  destruct (useMemo_spec computed deps s fiber index v od Hf Hi Hold)
    as (s' & E & Hw & Hn).
  split; [by exists s'|]. exists s'. by split.
Qed.

(** A memo without dependency list, at the second render: the value of
    the first render is returned, not the new one. *)
Lemma useMemo_recomputes_iff_deps_differ_witness :
  exists s',
    useMemo (Some (VNum 2)) None
            (rendering (rerendered Counter [MemoHook (VNum 1) None]) 0)
    = Ok (VNum 1) s'.
Proof.
  destruct (useMemo_recomputes_iff_deps_differ (VNum 2) None
              (rendering (rerendered Counter [MemoHook (VNum 1) None]) 0)
              (rerendered Counter [MemoHook (VNum 1) None]) 0 (VNum 1) None)
    as [(s' & E & _) _]; [reflexivity..|].
  by exists s'.
Defined.

(** ** hooks/useRef *)

Lemma getCurrentFiber_written g s fiber :
  getCurrentFiber s = Some fiber ->
  getCurrentFiber
    (set_win_wipFiber (g <$> win_wipFiber s) (set_wipFiber (g <$> wipFiber s) s))
  = Some (g fiber).
Proof.
  unfold getCurrentFiber. cbn.
  destruct (win_wipFiber s); cbn; [by intros [= ->]|]. by intros ->.
Qed.

(** [useRef] stores at its index the hook of the render before, or a new
    one, and returns its ref. *)
Lemma useRef_spec v s fiber index :
  getCurrentFiber s = Some fiber ->
  getCurrentHookIndex s = index ->
  index <= length (default [] (f_hooks fiber)) ->
  let h := default (RefHook v) (old_hook fiber index) in
  exists s' fiber',
    useRef v s = Ok (match h with RefHook c => c | _ => VUndefined end) s' /\
    getCurrentFiber s' = Some fiber' /\
    default [] (f_hooks fiber') !! index = Some h.
Proof.
  intros Hfs His Hl h.
  unfold useRef, validateHookCall, getPreviousHook. msimpl.
  rewrite Hfs. msimpl. rewrite Hfs. msimpl. rewrite His.
  replace (match old_hook fiber index with
           | Some h0 => h0 | None => RefHook v end) with h
    by (subst h; by destruct (old_hook fiber index)).
  unfold assign_hook, incrementHookIndex, write_current. msimpl.
  rewrite Hfs.
  destruct (decide (index < length (default [] (f_hooks fiber)))) as [Hlt|Hge].
  - rewrite bool_decide_eq_true_2 by done. msimpl. eexists _, _.
    split; [reflexivity|].
    split; [apply (getCurrentFiber_written _ s fiber Hfs)|].
    destruct fiber; cbn. by apply list_lookup_insert_eq.
  - rewrite bool_decide_eq_false_2 by done.
    rewrite bool_decide_eq_true_2 by lia. msimpl. eexists _, _.
    split; [reflexivity|].
    split; [apply (getCurrentFiber_written _ s fiber Hfs)|].
    destruct fiber as [ty pr d pa al c sb tg hk dl cp]; cbn in *.
    rewrite lookup_app_r by lia.
    by replace (index - length (default [] hk)) with 0 by lia.
Qed.

(** The ref of a hook is made at the first render, from the argument of
    that render; at the next render [useRef] returns it, whatever its
    argument is then. *)
Theorem useRef_keeps_the_ref_of_the_first_render :
  forall v0 v1 s1 fiber1 index,
    getCurrentFiber s1 = Some fiber1 ->
    getCurrentHookIndex s1 = index ->
    old_hook fiber1 index = None ->
    index <= length (default [] (f_hooks fiber1)) ->
    exists s1' fiber1',
      useRef v0 s1 = Ok v0 s1' /\
      getCurrentFiber s1' = Some fiber1' /\
      default [] (f_hooks fiber1') !! index = Some (RefHook v0) /\
      forall s2 fiber2,
        getCurrentFiber s2 = Some fiber2 ->
        getCurrentHookIndex s2 = index ->
        f_alternate fiber2 = Some fiber1' ->
        index <= length (default [] (f_hooks fiber2)) ->
        exists s2', useRef v1 s2 = Ok v0 s2'.
Proof.
  intros v0 v1 s1 fiber1 index Hf Hi Hold Hlen.
  destruct (useRef_spec v0 s1 fiber1 index Hf Hi Hlen)
    as (s1' & fiber1' & E1 & Hf1 & Hh1).
  rewrite Hold in E1, Hh1. cbn in E1, Hh1.
  exists s1', fiber1'. split; [exact E1|]. split; [exact Hf1|].
  split; [exact Hh1|].
  intros s2 fiber2 Hf2 Hi2 Halt Hlen2.
  destruct (useRef_spec v1 s2 fiber2 index Hf2 Hi2 Hlen2) as (s2' & _ & E2 & _).
  replace (old_hook fiber2 index) with (Some (RefHook v0)) in E2.
  { by exists s2'. }
  unfold old_hook. rewrite Halt.
  destruct (f_hooks fiber1') as [hooks|]; cbn in Hh1; [by rewrite Hh1|].
  by rewrite lookup_nil in Hh1.
Qed.

Lemma useRef_keeps_the_ref_of_the_first_render_witness :
  exists s', useRef (VNum 1) (rendering (item_fiber (VStr "a")) 0) = Ok (VNum 1) s'.
Proof.
  destruct (useRef_keeps_the_ref_of_the_first_render (VNum 1) (VNum 2)
              (rendering (item_fiber (VStr "a")) 0) (item_fiber (VStr "a")) 0)
    as (s' & _ & E & _); [reflexivity..|cbn; lia|].
  by exists s'.
Defined.

(** ** hooks/useContext *)

Lemma plink_ind (P : plink -> Prop) :
  (forall l, (forall l', pl_parent l = Some l' -> P l') -> P l) ->
  forall l, P l.
Proof.
  intros step. fix IH 1. intros l. apply step.
  destruct l as [d cp [l0|]]; simpl; intros l' E;
    [injection E as <-; apply IH | discriminate].
Qed.

Lemma plinks_unfold l :
  plinks l = l :: from_option plinks [] (pl_parent l).
Proof. by destruct l as [d cp [l0|]]. Qed.

Lemma find_provider_unfold id l :
  find_provider id l
  = match lookup_provider id (pl_contextProviders l) with
    | Some v => Some v
    | None => from_option (find_provider id) None (pl_parent l)
    end.
Proof. by destruct l as [d cp [l0|]]. Qed.

Lemma find_provider_nearest id i :
  forall l ps v,
    map pl_contextProviders (plinks l) !! i = Some ps ->
    lookup_provider id ps = Some v ->
    (forall j qs, j < i -> map pl_contextProviders (plinks l) !! j = Some qs ->
                  lookup_provider id qs = None) ->
    find_provider id l = Some v.
Proof.
  induction i as [|i IH]; intros l ps v Hi Hv Hnear;
    rewrite find_provider_unfold; rewrite plinks_unfold in Hi, Hnear.
  - cbn in Hi. injection Hi as <-. by rewrite Hv.
  - rewrite (Hnear 0 (pl_contextProviders l)) by (done || lia).
    cbn in Hi. destruct (pl_parent l) as [l'|]; cbn in *; [|done].
    apply (IH l' ps v Hi Hv). intros j qs Hj Hq.
    apply (Hnear (S j) qs); [lia | done].
Qed.

Lemma find_provider_none id l :
  (forall ps, ps ∈ map pl_contextProviders (plinks l) ->
              lookup_provider id ps = None) ->
  find_provider id l = None.
Proof.
  induction l as [l IH] using plink_ind. intros Hnone.
  rewrite find_provider_unfold. rewrite plinks_unfold in Hnone.
  rewrite (Hnone (pl_contextProviders l)) by (cbn; apply list_elem_of_here).
  destruct (pl_parent l) as [l'|]; cbn in *; [|done].
  apply (IH l' eq_refl). intros ps Hps. apply Hnone. by apply list_elem_of_further.
Qed.

(** What [useContext] returns in a component that is being rendered. *)
Lemma useContext_spec ctx id s fiber :
  getCurrentFiber s = Some fiber ->
  _contextId ctx = Some id ->
  exists s',
    useContext (Some ctx) s
    = Ok (match lookup_provider id (f_contextProviders fiber) with
          | Some v => v
          | None => default (_defaultValue ctx)
                            (from_option (find_provider id) None (f_parent fiber))
          end) s'.
Proof.
  intros Hf Hid. unfold useContext, validateHookCall. msimpl.
  rewrite Hf. msimpl. rewrite Hid. msimpl. rewrite Hf. msimpl.
  unfold write_current, incrementHookIndex. msimpl. eexists. reflexivity.
Qed.

(** [useContext] returns the value of the nearest fiber that provides the
    context, the consuming fiber itself first and then its ancestors from
    the parent upwards; values provided farther up are not seen.  When no
    fiber on the way provides the context, it returns the default value of
    the context. *)
Theorem useContext_reads_the_nearest_provider :
  forall ctx id s fiber,
    getCurrentFiber s = Some fiber ->
    _contextId ctx = Some id ->
    (forall i ps v,
        provider_scopes fiber !! i = Some ps ->
        lookup_provider id ps = Some v ->
        (forall j qs, j < i -> provider_scopes fiber !! j = Some qs ->
                      lookup_provider id qs = None) ->
        exists s', useContext (Some ctx) s = Ok v s') /\
    ((forall ps, ps ∈ provider_scopes fiber -> lookup_provider id ps = None) ->
     exists s', useContext (Some ctx) s = Ok (_defaultValue ctx) s').
Proof.
  intros ctx id s fiber Hf Hid.
  destruct (useContext_spec ctx id s fiber Hf Hid) as [s' E].
  unfold provider_scopes. split.
  - intros i ps v Hi Hv Hnear. exists s'. rewrite E.
    destruct i as [|i]; cbn in Hi.
    + injection Hi as <-. by rewrite Hv.
    + rewrite (Hnear 0 (f_contextProviders fiber)) by (done || lia).
      destruct (f_parent fiber) as [l|]; cbn in *; [|done].
      rewrite (find_provider_nearest id i l ps v Hi Hv); [done|].
      intros j qs Hj Hq. apply (Hnear (S j) qs); [lia | done].
  - intros Hnone. exists s'. rewrite E.
    rewrite (Hnone (f_contextProviders fiber)) by apply list_elem_of_here.
    destruct (f_parent fiber) as [l|]; cbn in *; [|done].
    rewrite find_provider_none; [done|].
    intros ps Hps. apply Hnone. by apply list_elem_of_further.
Qed.

(** Under two providers of one context the consumer reads the nearer
    one. *)
Lemma useContext_reads_the_nearest_provider_witness :
  exists s',
    useContext (Some {| _contextId := Some 1; _defaultValue := VStr "none" |})
               (rendering consumer_under_two_providers 0)
    = Ok (VStr "dark") s'.
Proof.
  destruct (useContext_reads_the_nearest_provider
              {| _contextId := Some 1; _defaultValue := VStr "none" |} 1
              (rendering consumer_under_two_providers 0)
              consumer_under_two_providers eq_refl eq_refl) as [Hnear _].
  apply (Hnear 2 [(1, VStr "dark")] (VStr "dark")); [reflexivity..|].
  intros [|[|j]] qs Hj; [by intros [= <-]..|lia].
Defined.

(** ** hooks/useReducer *)

Lemma dispatch_step hookKey a s q root :
  actionQueues s !! hookKey = Some q ->
  currentRoot s = Some root ->
  exists s',
    dispatch hookKey a s = Ok tt s' /\
    reducerStates s' = reducerStates s /\ currentRoot s' = currentRoot s /\
    actionQueues s' = <[hookKey := q ++ [a]]> (actionQueues s) /\
    wipRoot s' = Some (root_fiber (f_dom root) (f_props root) (Some root)) /\
    nextUnitOfWork s' = Some [] /\
    isWorkLoopRunning s' = true /\
    idleCallbacks s' = idleCallbacks s + (if isWorkLoopRunning s then 0 else 1).
Proof.
  intros Hq Hr. unfold dispatch. msimpl. rewrite Hq.
  unfold scheduleRerender, startWorkLoop, requestIdleCallback_workLoop.
  msimpl. cbn. rewrite Hr. cbn.
  destruct (isWorkLoopRunning s) eqn:Erun; cbn;
    (eexists; split; [reflexivity|]); cbn; repeat split; try assumption; lia.
Qed.

Lemma dispatch_calls_queue hookKey root acts :
  forall s q,
    actionQueues s !! hookKey = Some q ->
    currentRoot s = Some root ->
    exists s',
      run_cmds (map (CDispatch hookKey) acts) s = Ok tt s' /\
      reducerStates s' = reducerStates s /\ currentRoot s' = currentRoot s /\
      actionQueues s' !! hookKey = Some (q ++ acts) /\
      match acts with
      | [] => s' = s
      | _ :: _ =>
          wipRoot s' = Some (root_fiber (f_dom root) (f_props root) (Some root)) /\
          nextUnitOfWork s' = Some [] /\
          isWorkLoopRunning s' = true /\
          idleCallbacks s'
          = idleCallbacks s + (if isWorkLoopRunning s then 0 else 1)
      end.
Proof.
  induction acts as [|a acts IH]; intros s q Hq Hr.
  - exists s. cbn. rewrite app_nil_r. done.
  - cbn [map run_cmds].
    destruct (dispatch_step hookKey a s q root Hq Hr)
      as (s1 & E1 & Hs1 & Hr1 & Hq1 & Hw1 & Hn1 & Hrun1 & Hidle1).
    msimpl. rewrite E1.
    destruct (IH s1 (q ++ [a])) as (s' & E & Hs' & Hr' & Hq' & H');
      [by rewrite Hq1, lookup_insert_eq | congruence |].
    exists s'. split; [exact E|]. split; [congruence|]. split; [congruence|].
    split; [by rewrite Hq', <- app_assoc|].
    destruct acts.
    + subst s'. done.
    + destruct H' as (Hw' & Hn' & Hrun' & Hidle').
      rewrite Hrun1 in Hidle'. rewrite Hr1, Hr in Hr'.
      repeat split; try done. lia.
Qed.

(** Every action passed to the dispatcher of a reducer hook is queued,
    also one that the reducer answers with the state it was given: there
    is no test before queueing.  However many are dispatched from one
    handler, one call of [workLoop] is registered.  The next [useReducer]
    at the hook folds its reducer over the queued actions, in the order of
    the calls, from the stored state; the initial state and the function
    [init] that are passed then play no part. *)
Theorem dispatched_actions_are_reduced_in_order :
  forall s hookKey v root acts,
    reducerStates s !! hookKey = Some v ->
    actionQueues s !! hookKey = Some [] ->
    currentRoot s = Some root ->
    isWorkLoopRunning s = false ->
    exists s',
      run_cmds (map (CDispatch hookKey) acts) s = Ok tt s' /\
      actionQueues s' !! hookKey = Some acts /\
      reducerStates s' !! hookKey = Some v /\
      idleCallbacks s'
      = idleCallbacks s + (if bool_decide (acts = []) then 0 else 1) /\
      (forall sr fiber reducer initialState init,
          reducerStates sr = reducerStates s' ->
          actionQueues sr = actionQueues s' ->
          getCurrentFiber sr = Some fiber ->
          getCurrentHookIndex sr <= length (default [] (f_hooks fiber)) ->
          hookKey_of fiber (getCurrentHookIndex sr) = hookKey ->
          exists sr',
            useReducer reducer initialState init sr
            = Ok (fold_left reducer acts v, hookKey) sr' /\
            reducerStates sr' !! hookKey = Some (fold_left reducer acts v) /\
            actionQueues sr' !! hookKey = Some []).
Proof.
  intros s hookKey v root acts Hv Hq Hr Hrun.
  destruct (dispatch_calls_queue hookKey root acts s [] Hq Hr)
    as (s' & E & Hs' & Hr' & Hq' & H').
  cbn [app] in Hq'.
  exists s'. split; [exact E|]. split; [exact Hq'|].
  split; [by rewrite Hs'|]. split.
  - destruct acts; cbn.
    + subst s'. lia.
    + destruct H' as (_ & _ & _ & ->). by rewrite Hrun.
  - intros sr fiber reducer initialState init Hsr Hqr Hf Hi Hk.
    destruct (useReducer_spec reducer initialState init sr fiber Hf Hi)
      as (sr' & Er & Hs & Hu).
    rewrite Hk in *. exists sr'. split.
    + rewrite Er. by rewrite Hqr, Hq', Hsr, Hs', Hv.
    + rewrite Hs, Hu, !lookup_insert_eq. by rewrite Hqr, Hq', Hsr, Hs', Hv.
Qed.

(** Two actions dispatched to the mounted tally register one call of
    [workLoop]. *)
Lemma dispatched_actions_are_reduced_in_order_witness :
  exists s',
    run_cmds (map (CDispatch "Tally_0") [VNum 1; VNum 0]) tally_mounted
    = Ok tt s' /\
    actionQueues s' !! "Tally_0" = Some [VNum 1; VNum 0] /\
    idleCallbacks s' = 1.
Proof.
  destruct (currentRoot tally_mounted) as [root|] eqn:Er;
    [|vm_compute in Er; discriminate].
  destruct (dispatched_actions_are_reduced_in_order tally_mounted "Tally_0"
              (VNum 0) root [VNum 1; VNum 0])
    as (s' & E & Hq & _ & Hidle & _).
  - vm_compute. reflexivity.
  - vm_compute. reflexivity.
  - exact Er.
  - vm_compute. reflexivity.
  - exists s'. split; [exact E|]. split; [exact Hq|].
    rewrite Hidle. vm_compute. reflexivity.
Defined.

(** ** hooks/useEffect and the effect phase of core/commit *)

Lemma some_differs_sym (a b : list value) :
  length a = length b -> some_differs a b = some_differs b a.
Proof.
  revert b. induction a as [|x a IH]; intros [|y b] Hlen; simplify_eq/=; [done|].
  rewrite (IH b) by done. f_equal. f_equal. unfold Object_is.
  apply bool_decide_ext. split; congruence.
Qed.

(** The two comparisons of dependency lists, the one of [hooks/useEffect]
    and the one of [core/commit], agree. *)
Lemma areDependenciesChanged_depsChanged deps oldDeps :
  areDependenciesChanged deps oldDeps = depsChanged oldDeps deps.
Proof.
  destruct deps as [d|], oldDeps as [od|]; cbn; try done.
  rewrite (Nat.eqb_sym (length od)).
  destruct (length d =? length od)%nat eqn:Hlen; cbn; [|done].
  apply Nat.eqb_eq in Hlen. by apply some_differs_sym.
Qed.

(** [useEffect] pushes a hook that records in [hasChanged] whether the
    effect is to run; [runEffects] does not read the record but decides
    again, from the hook of the render before.  The two decisions are the
    same. *)
Theorem useEffect_flag_is_the_decision_of_runEffects :
  forall effect deps s fiber hooks,
    getCurrentFiber s = Some fiber ->
    f_hooks fiber = Some hooks ->
    getCurrentHookIndex s = length hooks ->
    exists s' cleanup hasChanged,
      let hook := EffectHook effect cleanup deps hasChanged in
      useEffect (Some effect) deps s = Ok tt s' /\
      getCurrentFiber s' = Some (with_hook fiber hook) /\
      default [] (f_hooks (with_hook fiber hook)) !! length hooks = Some hook /\
      cleanup = (old_hook fiber (length hooks) ≫= hook_cleanup) /\
      hasChanged
      = shouldRunEffect hook (old_hook (with_hook fiber hook) (length hooks)).
Proof.
  intros effect deps s fiber hooks Hf Hh Hi.
  unfold useEffect, validateHookCall, getPreviousHook. msimpl.
  rewrite Hf. msimpl. rewrite Hf. msimpl. rewrite Hi.
  unfold push_hook. rewrite Hh. unfold write_current, incrementHookIndex. msimpl.
  set (cl := old_hook fiber (length hooks) ≫= hook_cleanup).
  set (hc := match deps with
             | Some _ =>
                 match old_hook fiber (length hooks) with
                 | Some old => areDependenciesChanged deps (hook_deps old)
                 | None => true
                 end
             | None => true
             end).
  eexists _, cl, hc. split; [reflexivity|].
  split.
  { apply (getCurrentFiber_written
             (fun f => with_hook f (EffectHook effect cl deps hc)) s fiber Hf). }
  split.
  { unfold with_hook. rewrite Hh. destruct fiber; cbn.
    rewrite lookup_app_r by done. by rewrite Nat.sub_diag. }
  split; [done|].
  replace (old_hook (with_hook fiber _) (length hooks))
    with (old_hook fiber (length hooks)) by (by destruct fiber).
  unfold shouldRunEffect. cbn [hook_deps]. subst hc.
  destruct deps as [d|]; [|done].
  rewrite (bool_decide_eq_true_2 (is_Some (Some d))) by done.
  cbn [negb orb].
  destruct (old_hook fiber (length hooks)) as [old|]; [|done].
  apply areDependenciesChanged_depsChanged.
Qed.

Lemma useEffect_flag_is_the_decision_of_runEffects_witness :
  exists s',
    useEffect (Some {| ef_name := 1; ef_body := []; ef_returns := None |})
              (Some [VNum 1])
              (rendering (rerendered Counter
                 [EffectHook {| ef_name := 1; ef_body := []; ef_returns := None |}
                             None (Some [VNum 1]) true]) 0)
    = Ok tt s'.
Proof.
  destruct (useEffect_flag_is_the_decision_of_runEffects
              {| ef_name := 1; ef_body := []; ef_returns := None |}
              (Some [VNum 1])
              (rendering (rerendered Counter
                 [EffectHook {| ef_name := 1; ef_body := []; ef_returns := None |}
                             None (Some [VNum 1]) true]) 0)
              (rerendered Counter
                 [EffectHook {| ef_name := 1; ef_body := []; ef_returns := None |}
                             None (Some [VNum 1]) true]) [])
    as (s' & _ & _ & E & _); [reflexivity..|].
  by exists s'.
Defined.

Lemma run_new_effects_from_hooks fiber hooks :
  forall index s hooks' s',
    forEach_upd_from (run_effect_of fiber) hooks index s = Ok hooks' s' ->
    forall i hook,
      hooks !! i = Some hook ->
      hooks' !! i = Some (hook_after_effect fiber (index + i) hook).
Proof.
  induction hooks as [|h hooks IH]; intros index s hooks' s' E i hook Hi;
    [by rewrite lookup_nil in Hi|].
  cbn [forEach_upd_from] in E. revert E. msimpl.
  assert (Hh : exists s1, run_effect_of fiber h index s
                          = Ok (hook_after_effect fiber index h) s1).
  { unfold run_effect_of, hook_after_effect.
    destruct h as [| |e cl deps hc| | |]; try (by eexists).
    destruct (shouldRunEffect _ _); [|by eexists].
    destruct (call_effect_caught e (EffectHook e cl deps hc) index s)
      as (h1 & s1 & e1 & -> & _ & _ & ->). by eexists. }
  destruct Hh as [s1 ->].
  destruct (forEach_upd_from (run_effect_of fiber) hooks (S index) s1)
    as [hs s2| |] eqn:E2; [|done..].
  intros [= <- <-]. destruct i as [|i]; cbn in *.
  - injection Hi as <-. by rewrite Nat.add_0_r.
  - replace (index + S i) with (S index + i) by lia.
    by apply (IH (S index) s1 hs s2 E2).
Qed.

Lemma due_cleanups_from_called fiber hooks :
  forall index i hook c,
    hooks !! i = Some hook -> is_effect hook = true ->
    shouldRunCleanup hook (old_hook fiber (index + i)) = Some c ->
    CleanupCalled (cl_name c) ∈ due_cleanups_from fiber hooks index.
Proof.
  induction hooks as [|h hooks IH]; intros index i hook c Hi He Hc;
    [by rewrite lookup_nil in Hi|].
  cbn [due_cleanups_from]. apply elem_of_app. destruct i as [|i]; cbn in Hi.
  - injection Hi as ->. left. rewrite He. rewrite Nat.add_0_r in Hc.
    rewrite Hc. apply list_elem_of_here.
  - right. apply (IH (S index) i hook c Hi He).
    by replace (S index + i) with (index + S i) by lia.
Qed.

Lemma held_cleanups_from_called hooks :
  forall index i e c deps hc,
    hooks !! i = Some (EffectHook e (Some c) deps hc) ->
    CleanupCalled (cl_name c) ∈ held_cleanups_from hooks index.
Proof.
  induction hooks as [|h hooks IH]; intros index i e c deps hc Hi;
    [by rewrite lookup_nil in Hi|].
  cbn [held_cleanups_from]. apply elem_of_app. destruct i as [|i]; cbn in Hi.
  - injection Hi as ->. left. apply list_elem_of_here.
  - right. by apply (IH (S index) i e c deps hc).
Qed.

Lemma visible_subseteq evs e : e ∈ visible evs -> e ∈ evs.
Proof.
  unfold visible. intros H. apply list_elem_of_In in H.
  apply List.filter_In in H as [H _]. by apply list_elem_of_In.
Qed.

(** When an effect that is run again throws, its hook keeps the cleanup
    that it carried from the render before, although that cleanup was
    called in the first pass of the same effect phase: the cleanup will be
    called a second time, here by [cleanupEffects] when the component is
    removed. *)
Theorem failed_effect_keeps_the_cleanup_already_called :
  forall fiber hooks i e c deps hc old s,
    f_hooks fiber = Some hooks ->
    hooks !! i = Some (EffectHook e (Some c) deps hc) ->
    old_hook fiber i = Some old ->
    hook_cleanup old = Some c ->
    shouldRunEffect (EffectHook e (Some c) deps hc) (Some old) = true ->
    throws (ef_body e) = true ->
    exists fiber' s' evs,
      run_fiber_effects fiber s = Ok fiber' s' /\
      emitted s s' evs /\
      CleanupCalled (cl_name c) ∈ evs /\
      default [] (f_hooks fiber') !! i = Some (EffectHook e (Some c) deps hc) /\
      forall s2, exists fiber2 s2' evs2,
        cleanupEffects fiber' s2 = Ok fiber2 s2' /\
        emitted s2 s2' evs2 /\
        CleanupCalled (cl_name c) ∈ evs2.
Proof.
  intros fiber hooks i e c deps hc old s Hh Hi Hold Hcl Hrun Hthrow.
  destruct (run_fiber_effects_trace fiber s) as (fiber' & s' & evs & E & Hev & Hvis).
  exists fiber', s', evs. split; [exact E|]. split; [exact Hev|].
  assert (Hcleanup : shouldRunCleanup (EffectHook e (Some c) deps hc) (Some old)
                     = Some c).
  { unfold shouldRunCleanup. rewrite Hcl. unfold shouldRunEffect in Hrun.
    cbn [hook_deps] in *.
    destruct (negb (bool_decide (is_Some deps))); [done|]. cbn in *.
    rewrite Hrun. by rewrite orb_true_r. }
  split.
  { apply visible_subseteq. rewrite Hvis. apply elem_of_app. left.
    unfold due_cleanups. rewrite Hh. cbn [default from_option id].
    apply (due_cleanups_from_called fiber hooks 0 i _ c Hi); [done|].
    cbn. by rewrite Hold. }
  assert (Hhook' : default [] (f_hooks fiber') !! i
                   = Some (EffectHook e (Some c) deps hc)).
  { revert E. unfold run_fiber_effects. rewrite Hh. msimpl.
    destruct (run_cleanups fiber hooks s) as [[] s1| |]; [|done..].
    unfold run_new_effects, forEach_upd.
    destruct (forEach_upd_from (run_effect_of fiber) hooks 0 s1)
      as [hooks' s2| |] eqn:E2; [|done..].
    intros [= <- <-]. destruct fiber; cbn.
    rewrite (run_new_effects_from_hooks _ hooks 0 s1 hooks' s2 E2 i _ Hi).
    cbn. cbn in Hold. rewrite Hold, Hrun, Hthrow. done. }
  split; [exact Hhook'|].
  intros s2. destruct (cleanupEffects_trace fiber' s2) as (s2' & evs2 & E2 & Hev2 & Hvis2).
  exists (cleared fiber'), s2', evs2. split; [exact E2|]. split; [exact Hev2|].
  apply visible_subseteq. rewrite Hvis2.
  destruct fiber' as [ty pr d pa al ch sb tg hk dl cp]. cbn [held_tree f_hooks].
  apply elem_of_app. left. cbn in Hhook'.
  by apply (held_cleanups_from_called _ 0 i e c deps hc).
Qed.

Lemma failed_effect_keeps_the_cleanup_already_called_witness :
  exists fiber' s' evs,
    run_fiber_effects failing_effect_fiber (initial_rt 1) = Ok fiber' s' /\
    emitted (initial_rt 1) s' evs /\ CleanupCalled 1 ∈ evs /\
    held_tree fiber' = [CleanupCalled 1].
Proof.
  destruct (failed_effect_keeps_the_cleanup_already_called failing_effect_fiber
              [EffectHook {| ef_name := 2; ef_body := [CThrow]; ef_returns := None |}
                          (Some {| cl_name := 1; cl_body := [] |}) None true]
              0 {| ef_name := 2; ef_body := [CThrow]; ef_returns := None |}
              {| cl_name := 1; cl_body := [] |} None true
              (EffectHook {| ef_name := 1; ef_body := [];
                             ef_returns := Some {| cl_name := 1; cl_body := [] |} |}
                          (Some {| cl_name := 1; cl_body := [] |}) None true)
              (initial_rt 1))
    as (fiber' & s' & evs & E & Hev & Hin & _); [reflexivity..|].
  exists fiber', s', evs. split; [exact E|]. split; [exact Hev|].
  split; [exact Hin|].
  revert E. vm_compute. by intros [= <- _].
Defined.

(** ** core/reconciler: positional reconciliation *)

Lemma reconcile_loop_throws wipFiber elements :
  forall fuel st s msg s',
    reconcile_loop fuel wipFiber elements st s = Throw msg s' ->
    msg = "TypeError: Cannot set properties of null (setting 'sibling')".
Proof.
  induction fuel as [|fuel IH]; intros st s msg s'; cbn [reconcile_loop];
    destruct (_ || _); try done.
  msimpl. rewrite reconcile_step_eq.
  destruct (turn_outcome wipFiber elements st s) as [st1 s1|msg1 s1|] eqn:E;
    [apply IH| |done].
  intros [= <- <-]. revert E. unfold turn_outcome.
  case_bool_decide; [done|].
  destruct (mjoin _); [destruct (rc_prevSibling st)|]; try done.
  by intros [= <- _].
Qed.

(** The first state of the loop of [reconcileChildren] has the invariant. *)
Lemma reconcile_inv_start wipFiber elements s :
  reconcile_inv wipFiber elements (old_children wipFiber) 0
    {| rc_index := 0;
       rc_oldFiber := match f_alternate wipFiber with
                      | Some alt => f_child alt
                      | None => None
                      end;
       rc_prevSibling := None;
       rc_children := chain_of (f_child wipFiber);
       rc_deletions := default [] (f_deletions wipFiber) |} s.
Proof. split; [done|]. split; [done|]. split; [by left|]. intros; lia. Qed.

(** The outcome of [reconcileChildren], by the shape of the child array. *)
Lemma reconcileChildren_outcome :
  forall wipFiber elements s,
    (null_before_element elements ->
     exists s',
       reconcileChildren wipFiber elements s
       = Throw "TypeError: Cannot set properties of null (setting 'sibling')" s') /\
    (~ null_before_element elements ->
     exists wipFiber' s', reconcileChildren wipFiber elements s = Ok wipFiber' s').
Proof.
  intros wipFiber elements s. unfold reconcileChildren. msimpl.
  set (st0 := {| rc_index := 0; rc_oldFiber := _ |}).
  pose proof (reconcile_inv_start wipFiber elements s) as Hinv0. fold st0 in Hinv0.
  destruct (reconcile_loop_inv wipFiber elements (old_children wipFiber)
              (length elements + length (old_children wipFiber)) 0 st0 s Hinv0)
    as [Hns Hok].
  { rewrite drop_0. lia. }
  fold (old_children wipFiber).
  destruct (reconcile_loop _ wipFiber elements st0 s) as [st' s'|msg s'|] eqn:E;
    [| |done].
  - (* the loop returned: no [null] is followed by an element *)
    destruct (Hok st' s' eq_refl) as (K & HK & _ & _ & _ & Hc & _).
    split; [|by eexists _, _].
    intros (i & el & Hi & Hsi). exfalso.
    assert (Hlt : S i < length elements) by (by eapply lookup_lt_Some).
    destruct Hc as [->|(j & Hjk & _ & Hch & Hnull & _)]; [lia|].
    destruct (decide (i < j)) as [Hij|Hij].
    + destruct (Hch i Hij) as (el' & Hel' & _). by rewrite Hi in Hel'.
    + specialize (Hnull (S i)). rewrite Hsi in Hnull. cbn in Hnull.
      discriminate Hnull; lia.
  - (* the loop threw *)
    apply reconcile_loop_throws in E as Hmsg. subst msg.
    split; [by exists s'|]. intros Hno. exfalso. apply Hno. clear Hno Hns Hok.
    (* the turn that throws comes after a turn whose element was [null] *)
    assert (Hfind : forall fuel k st s0,
      reconcile_inv wipFiber elements (old_children wipFiber) k st s0 ->
      forall msg s1,
        reconcile_loop fuel wipFiber elements st s0 = Throw msg s1 ->
        null_before_element elements).
    { induction fuel as [|fuel IH]; intros k st s0 Hinv msg s1;
        cbn [reconcile_loop]; destruct (_ || _); try done.
      msimpl.
      destruct (reconcile_step wipFiber elements st s0) as [st1 s2|msg1 s2|] eqn:E1.
      - apply (IH (S k)). by eapply reconcile_step_inv.
      - intros _. rewrite reconcile_step_eq in E1. unfold turn_outcome in E1.
        destruct Hinv as (Hi & _ & Hc & _). rewrite Hi in E1.
        case_bool_decide as Hk0; [done|].
        destruct (mjoin (elements !! k)) as [el|] eqn:Hel; [|done].
        destruct (rc_prevSibling st) eqn:Hprev; [done|].
        destruct Hc as [->|(j & Hjk & _ & _ & Hnull & Hp1 & _)]; [done|].
        assert (Hj : j < k).
        { destruct (decide (j = k)) as [->|]; [|lia].
          by destruct (Hp1 eq_refl). }
        destruct k as [|k]; [done|]. exists k, el.
        assert (Hk : elements !! S k = Some (Some el)).
        { destruct (elements !! S k) as [[e|]|]; by simplify_eq/=. }
        split; [|exact Hk].
        assert (Hlt : k < length elements).
        { apply lookup_lt_Some in Hk. lia. }
        apply lookup_lt_is_Some in Hlt as [x Hx].
        specialize (Hnull k). rewrite Hx in Hnull. cbn in Hnull.
        rewrite Hnull in Hx by lia. done.
      - done. }
    exact (Hfind _ 0 st0 s Hinv0 _ s' E).
Qed.

(** [reconcileChildren] throws a [TypeError] when an entry [null] of the
    child array comes directly before an element (it then writes to the
    [sibling] of a fiber that does not exist), and returns in every other
    case: for an array without [null], and for one whose [null] entries
    are all at the end. *)
Theorem reconcileChildren_throws_iff_null_precedes_element :
  forall wipFiber elements s,
    (null_before_element elements ->
     exists s',
       reconcileChildren wipFiber elements s
       = Throw "TypeError: Cannot set properties of null (setting 'sibling')" s') /\
    (~ null_before_element elements ->
     exists wipFiber' s', reconcileChildren wipFiber elements s = Ok wipFiber' s').
Proof. exact reconcileChildren_outcome. Qed.

(** A host element rendered again with a child array that has a hole
    before an element. *)
Lemma reconcileChildren_throws_iff_null_precedes_element_witness :
  exists s',
    reconcileChildren new_div [None; Some (li "a")] (initial_rt 3)
    = Throw "TypeError: Cannot set properties of null (setting 'sibling')" s'.
Proof.
  apply reconcileChildren_throws_iff_null_precedes_element.
  by exists 0, (li "a").
Defined.

Lemma removed_upto_S elements olds k :
  removed_upto elements olds (S k)
  = removed_upto elements olds k
    ++ match olds !! k with
       | Some old =>
           if sameType (Some old) (mjoin (elements !! k)) then []
           else [tagged_for_deletion old]
       | None => []
       end.
Proof.
  unfold removed_upto. rewrite seq_S, flat_map_app. cbn. by rewrite app_nil_r.
Qed.

Lemma removed_upto_ge elements olds k :
  length olds <= k ->
  removed_upto elements olds k = removed_upto elements olds (length olds).
Proof.
  intros Hk. replace k with (length olds + (k - length olds)) by lia.
  generalize (k - length olds) as d. clear k Hk.
  induction d as [|d IH]; [by rewrite Nat.add_0_r|].
  rewrite Nat.add_succ_r, removed_upto_S, IH.
  rewrite (proj2 (lookup_ge_None olds (length olds + d))) by lia.
  by rewrite app_nil_r.
Qed.

(** The deletion lists along the loop of [reconcileChildren]. *)
Lemma reconcile_loop_removed wipFiber elements olds dels wdels :
  forall fuel k st s st' s',
    rc_index st = k ->
    chain_of (rc_oldFiber st) = drop k olds ->
    rc_deletions st = dels ++ removed_upto elements olds k ->
    default [] (win_deletions s) = wdels ++ removed_upto elements olds k ->
    reconcile_loop fuel wipFiber elements st s = Ok st' s' ->
    exists K, length olds <= K /\
      rc_deletions st' = dels ++ removed_upto elements olds K /\
      default [] (win_deletions s') = wdels ++ removed_upto elements olds K.
Proof.
  induction fuel as [|fuel IH]; intros k st s st' s' Hi Ho Hd Hw;
    cbn [reconcile_loop];
    destruct (bool_decide (rc_index st < length elements)
              || bool_decide (is_Some (rc_oldFiber st))) eqn:Econd; try done.
  1,3: (intros [= <- <-]; exists k; split; [|done];
        apply orb_false_iff in Econd as [_ H2];
        apply bool_decide_eq_false_1 in H2;
        apply old_fiber_at in Ho; rewrite Ho in H2;
        destruct (olds !! k) eqn:Hk; [by destruct H2|];
        by apply lookup_ge_None in Hk).
  msimpl. rewrite reconcile_step_eq.
  destruct (turn_outcome wipFiber elements st s) as [st1 s1| |] eqn:E; [|done..].
  apply old_fiber_at in Ho as Ho'.
  assert (Hst1 : rc_index st1 = S k /\
                 rc_oldFiber st1 = (rc_oldFiber st ≫= f_sibling) /\
                 rc_deletions st1
                 = rc_deletions st ++ turn_deleted st (mjoin (elements !! k)) /\
                 s1 = turn_rt st (mjoin (elements !! k)) s).
  { revert E. unfold turn_outcome. rewrite Hi.
    destruct (bool_decide (k = 0)).
    - intros [= <- <-]. cbn. rewrite Hi. by destruct (rc_oldFiber st).
    - destruct (mjoin (elements !! k)); [destruct (rc_prevSibling st)|];
        try done; intros [= <- <-]; cbn; rewrite Hi;
        by destruct (rc_oldFiber st). }
  destruct Hst1 as (Hi1 & Ho1 & Hd1 & ->).
  assert (Hturn : turn_deleted st (mjoin (elements !! k))
                  = match olds !! k with
                    | Some old =>
                        if sameType (Some old) (mjoin (elements !! k)) then []
                        else [tagged_for_deletion old]
                    | None => []
                    end).
  { unfold turn_deleted. by rewrite Ho'. }
  apply (IH (S k)); [exact Hi1| | |].
  + rewrite Ho1, Ho'. destruct (olds !! k) as [old|] eqn:Hk; cbn.
    * rewrite chain_of_sibling. rewrite Ho' in Ho. cbn in Ho.
      rewrite Ho, drop_drop. f_equal. lia.
    * apply lookup_ge_None in Hk. by rewrite drop_ge by lia.
  + by rewrite Hd1, Hd, removed_upto_S, Hturn, app_assoc.
  + rewrite removed_upto_S, <- Hturn, app_assoc, <- Hw. unfold turn_rt.
    destruct (turn_deleted st (mjoin (elements !! k))); [by rewrite app_nil_r|].
    done.
Qed.

(** When [reconcileChildren] returns, it has put on the deletion list of
    the fiber, and on the list of the work loop, the old children that
    have no element of their type at their position, each once, tagged
    [DELETION], in the order of the positions, and nothing else: an old
    child that a new fiber continues is not removed. *)
Theorem reconcileChildren_removes_exactly_the_unmatched :
  forall wipFiber elements s wipFiber' s',
    reconcileChildren wipFiber elements s = Ok wipFiber' s' ->
    let olds := old_children wipFiber in
    let removed := removed_upto elements olds (length olds) in
    f_deletions wipFiber' = Some (default [] (f_deletions wipFiber) ++ removed) /\
    default [] (win_deletions s') = default [] (win_deletions s) ++ removed.
Proof.
  intros wipFiber elements s wipFiber' s'. unfold reconcileChildren. msimpl.
  set (st0 := {| rc_index := 0; rc_oldFiber := _ |}).
  fold (old_children wipFiber).
  destruct (reconcile_loop _ wipFiber elements st0 s) as [st1 s1| |] eqn:E;
    [|done..].
  intros [= <- <-]. set (olds := old_children wipFiber) in *.
  destruct (reconcile_loop_removed wipFiber elements olds
              (default [] (f_deletions wipFiber)) (default [] (win_deletions s))
              (length elements + length olds) 0 st0 s st1 s1)
    as (K & HK & Hd & Hw);
    [done | done | by rewrite app_nil_r | by rewrite app_nil_r | exact E |].
  rewrite (removed_upto_ge _ _ K HK) in Hd, Hw.
  split; [|exact Hw]. destruct wipFiber; cbn. by rewrite Hd.
Qed.

(** The [div] rendered again with a [span] in the place of its [div]
    child: the old child is the one removal. *)
Lemma reconcileChildren_removes_exactly_the_unmatched_witness :
  exists wipFiber' s',
    reconcileChildren new_div (p_children (f_props new_div)) (initial_rt 3)
    = Ok wipFiber' s' /\
    f_deletions wipFiber' = Some [tagged_for_deletion old_div_child] /\
    win_deletions s' = Some [tagged_for_deletion old_div_child].
Proof.
  destruct (reconcileChildren new_div (p_children (f_props new_div)) (initial_rt 3))
    as [w' s'| |] eqn:E; [|vm_compute in E; discriminate..].
  destruct (reconcileChildren_removes_exactly_the_unmatched new_div
              (p_children (f_props new_div)) (initial_rt 3) w' s' E) as [Hd Hw].
  exists w', s'. split; [reflexivity|]. split; [exact Hd|].
  revert E. vm_compute. by intros [= _ <-].
Defined.

Lemma no_null_before_element (els : list element) :
  ~ null_before_element (map Some els).
Proof.
  intros (i & el & Hi & _). rewrite list_lookup_fmap in Hi.
  by destruct (els !! i).
Qed.

(** For a child array without [null], as [createElement] builds them, and
    a fiber that has no child yet, [reconcileChildren] returns and leaves
    one new fiber for every element, in the order of the array: the one
    at a position continues the old child at that position when the types
    agree ([UPDATE], with the node and as [alternate] the old child) and is
    new otherwise ([PLACEMENT], without node); it has the props of its
    element, and the next one as [sibling]. *)
Theorem reconcileChildren_builds_one_fiber_per_element :
  forall wipFiber els s,
    f_child wipFiber = None ->
    exists wipFiber' s',
      reconcileChildren wipFiber (map Some els) s = Ok wipFiber' s' /\
      length (chain_of (f_child wipFiber')) = length els /\
      forall i el,
        els !! i = Some el ->
        exists new,
          chain_of (f_child wipFiber') !! i = Some new /\
          set_sibling None new
          = new_child wipFiber (old_children wipFiber !! i) el /\
          f_sibling new = chain_of (f_child wipFiber') !! S i.
Proof.
  intros wipFiber els s Hnochild.
  destruct (reconcileChildren_outcome wipFiber (map Some els) s) as [_ Hret].
  destruct (Hret (no_null_before_element els)) as (w' & s' & E).
  exists w', s'. split; [exact E|].
  revert E. unfold reconcileChildren. msimpl.
  set (st0 := {| rc_index := 0; rc_oldFiber := _ |}).
  pose proof (reconcile_inv_start wipFiber (map Some els) s) as Hinv0.
  fold st0 in Hinv0. fold (old_children wipFiber).
  set (olds := old_children wipFiber) in *.
  destruct (reconcile_loop_inv wipFiber (map Some els) olds
              (length (map Some els) + length olds) 0 st0 s Hinv0) as [_ Hok].
  { rewrite drop_0. lia. }
  destruct (reconcile_loop _ wipFiber (map Some els) st0 s) as [st1 s1| |] eqn:E;
    [|done..].
  intros [= <- <-].
  destruct (Hok st1 s1 eq_refl) as (K & HK & HKo & Hi & _ & Hc & _).
  rewrite length_map in HK.
  assert (Hchildren : length (rc_children st1) = length els /\
    forall i el, els !! i = Some el ->
                 rc_children st1 !! i = Some (new_child wipFiber (olds !! i) el)).
  { destruct Hc as [->|(j & Hjk & Hlen & Hch & Hnull & _)].
    - (* no turn was made *)
      assert (els = []) as -> by (destruct els; [done | cbn in HK; lia]).
      assert (Hold : rc_oldFiber st0 = None).
      { subst st0 olds. unfold old_children in HKo. cbn.
        destruct (match f_alternate wipFiber with
                  | Some alt => f_child alt | None => None end) as [o|];
          [destruct o; cbn in HKo; lia | done]. }
      assert (olds = []) as Holds by (destruct olds; [done | cbn in HKo; lia]).
      revert E. rewrite Holds. cbn [map length Nat.add reconcile_loop].
      rewrite Hold. cbn. intros [= <- _]. cbn. by rewrite Hnochild.
    - assert (j = length els) as ->.
      { destruct (decide (j < length els)) as [Hlt|Hge].
        - specialize (Hnull j).
          destruct (lookup_lt_is_Some_2 els j Hlt) as [el Hel].
          rewrite list_lookup_fmap, Hel in Hnull. cbn in Hnull.
          discriminate Hnull; lia.
        - destruct (decide (j = length els)) as [|Hne]; [done|].
          destruct (Hch (length els)) as (el & Hel & _); [lia|].
          rewrite list_lookup_fmap in Hel.
          rewrite (proj2 (lookup_ge_None els (length els))) in Hel by lia.
          done. }
      split; [exact Hlen|]. intros i el Hel.
      destruct (Hch i) as (el' & Hel' & Hnew); [by eapply lookup_lt_Some|].
      rewrite list_lookup_fmap, Hel in Hel'. cbn in Hel'. by injection Hel' as <-. }
  destruct Hchildren as [Hlen Hnew].
  replace (f_child (set_child (link (rc_children st1))
                      (set_deletions (Some (rc_deletions st1)) wipFiber)))
    with (link (rc_children st1)) by (by destruct wipFiber).
  split; [by rewrite chain_of_link_length|].
  intros i el Hel. specialize (Hnew i el Hel).
  rewrite (chain_of_link_lookup _ _ _ Hnew). eexists. split; [reflexivity|].
  split.
  - destruct (new_child wipFiber (olds !! i) el) eqn:En.
    cbn. revert En. unfold new_child, update_fiber, placement_fiber.
    destruct (olds !! i); [destruct (sameType _ _)|]; by intros [= <- <- <- <- <- <- <- <- <- <- <-].
  - destruct (rc_children st1 !! S i) as [nx|] eqn:Hnx.
    + rewrite (chain_of_link_lookup _ _ _ Hnx).
      rewrite (drop_S _ nx (S i) Hnx). by destruct (new_child _ _ _).
    + apply lookup_ge_None in Hnx.
      rewrite (proj2 (lookup_ge_None (chain_of (link (rc_children st1))) (S i)))
        by (by rewrite chain_of_link_length).
      rewrite drop_ge by done.
      by destruct (new_child _ _ _).
Qed.

Lemma reconcileChildren_builds_one_fiber_per_element_witness :
  exists wipFiber' s',
    reconcileChildren new_div (map Some [li "a"; li "b"]) (initial_rt 3)
    = Ok wipFiber' s' /\
    length (chain_of (f_child wipFiber')) = 2.
Proof.
  destruct (reconcileChildren_builds_one_fiber_per_element new_div
              [li "a"; li "b"] (initial_rt 3) eq_refl)
    as (w' & s' & E & Hlen & _).
  by exists w', s'.
Defined.

(** ** core/reconciler: reconciliation by keys *)

Lemma Map_set_fresh key f (m : FiberMap) :
  key ∉ m.*1 -> Map_set key f m = m ++ [(key, f)].
Proof.
  induction m as [|[k g] m IH]; intros Hk; [done|]. cbn in *.
  apply not_elem_of_cons in Hk as [Hne Hk].
  rewrite bool_decide_eq_false_2 by done. by rewrite IH.
Qed.

Lemma Map_get_delete_ne k k' (m : FiberMap) :
  k <> k' -> Map_get k (Map_delete k' m) = Map_get k m.
Proof.
  intros Hne. induction m as [|[k0 g] m IH]; [done|]. cbn.
  destruct (decide (k0 = k')) as [->|Hk0].
  - rewrite bool_decide_eq_true_2 by done.
    by rewrite (bool_decide_eq_false_2 (k' = k)) by done.
  - rewrite bool_decide_eq_false_2 by done. cbn. by rewrite IH.
Qed.

Lemma Map_get_Some k f (m : FiberMap) :
  Map_get k m = Some f -> (k, f) ∈ m.
Proof.
  induction m as [|[k0 g] m IH]; [done|]. cbn. case_bool_decide as Hk.
  - intros [= ->]. subst. apply list_elem_of_here.
  - intros H. apply list_elem_of_further. by apply IH.
Qed.

Lemma Map_get_None k (m : FiberMap) :
  Map_get k m = None -> k ∉ m.*1.
Proof.
  induction m as [|[k0 g] m IH]; cbn; [intros _; apply not_elem_of_nil|].
  case_bool_decide as Hk; [done|]. intros H. apply not_elem_of_cons.
  split; [congruence | by apply IH].
Qed.

Lemma Map_get_elem k f (m : FiberMap) :
  NoDup m.*1 -> (k, f) ∈ m -> Map_get k m = Some f.
Proof.
  induction m as [|[k0 g] m IH]; intros Hnd Hin; [by apply elem_of_nil in Hin|].
  cbn in *. apply NoDup_cons in Hnd as [Hk0 Hnd].
  apply elem_of_cons in Hin as [[= -> ->]|Hin].
  - by rewrite bool_decide_eq_true_2.
  - rewrite bool_decide_eq_false_2; [by apply IH|].
    intros ->. apply Hk0. apply list_elem_of_fmap. by exists (k, f).
Qed.

(** With distinct keys, [Map.delete] takes out the entries of the key. *)
Lemma Map_delete_filter k (m : FiberMap) :
  NoDup m.*1 ->
  Map_delete k m = List.filter (fun kv => negb (bool_decide (kv.1 = k))) m.
Proof.
  induction m as [|[k0 g] m IH]; intros Hnd; [done|]. cbn in *.
  apply NoDup_cons in Hnd as [Hk0 Hnd].
  destruct (decide (k0 = k)) as [->|Hne].
  - rewrite bool_decide_eq_true_2 by done. cbn.
    clear IH. induction m as [|[k1 g1] m IH]; [done|]. cbn in *.
    apply not_elem_of_cons in Hk0 as [Hne Hk0].
    apply NoDup_cons in Hnd as [_ Hnd].
    rewrite bool_decide_eq_false_2 by done. cbn. f_equal. by apply IH.
  - rewrite bool_decide_eq_false_2 by done. cbn. f_equal. by apply IH.
Qed.

Lemma filter_keys_subseteq (P : value * Fiber -> bool) (m : FiberMap) :
  NoDup m.*1 -> NoDup (List.filter P m).*1.
Proof.
  induction m as [|kv m IH]; intros Hnd; [done|]. cbn in *.
  apply NoDup_cons in Hnd as [Hk Hnd]. destruct (P kv); [|by apply IH].
  cbn. apply NoDup_cons. split; [|by apply IH].
  intros Hin. apply Hk. apply list_elem_of_fmap in Hin as (kv' & -> & Hin).
  apply list_elem_of_fmap. exists kv'. split; [done|].
  apply list_elem_of_In. apply list_elem_of_In in Hin.
  by apply List.filter_In in Hin as [Hin _].
Qed.

(** With distinct keys, the first loop of [reconcileChildrenWithKeys] files
    every old child, in order. *)
Lemma build_oldFiberMap_keyed temp :
  forall index (m : FiberMap),
    NoDup (m.*1 ++ imap (fun i old => old_key (index + i) old) (chain temp)) ->
    build_oldFiberMap temp index m
    = m ++ imap (fun i old => (old_key (index + i) old, old)) (chain temp).
Proof.
  induction temp as [temp _ IHs] using Fiber_tree_ind. intros index m Hnd.
  destruct temp as [ty pr d pa al c sb tg hk dl cp].
  cbn [build_oldFiberMap chain f_sibling f_props] in *.
  rewrite !imap_cons in *. rewrite Nat.add_0_r in *.
  fold (old_key index (mkFiber ty pr d pa al c sb tg hk dl cp)) in *.
  set (temp := mkFiber ty pr d pa al c sb tg hk dl cp) in *.
  assert (Hfresh : old_key index temp ∉ m.*1).
  { apply NoDup_app in Hnd as (_ & Hdisj & _). intros Hin.
    apply (Hdisj _ Hin). apply list_elem_of_here. }
  rewrite Map_set_fresh by done.
  destruct sb as [sb|]; cbn [chain_of] in *.
  - rewrite (IHs sb eq_refl (S index)).
    + rewrite <- app_assoc. cbn. do 2 f_equal.
      apply imap_ext. intros i x _. cbn. do 2 f_equal. lia.
    + rewrite fmap_app. cbn. rewrite <- app_assoc. cbn.
      erewrite imap_ext; [exact Hnd|]. intros i x _. cbn. f_equal. lia.
  - done.
Qed.

Lemma filter_all {A} (l : list A) : List.filter (fun _ => true) l = l.
Proof. induction l as [|x l IH]; [done|]. cbn. by rewrite IH. Qed.

Lemma filter_filter_and {A} (P Q : A -> bool) (l : list A) :
  List.filter P (List.filter Q l) = List.filter (fun x => Q x && P x) l.
Proof.
  induction l as [|x l IH]; [done|]. cbn. destruct (Q x); cbn; [|done].
  destruct (P x); by rewrite IH.
Qed.

(** What one turn of the second loop leaves in the map. *)
Lemma continued_from_turn index el els (m : FiberMap) :
  NoDup m.*1 ->
  let k0 := element_key index el in
  List.filter (fun kv => negb (continued_from (S index) els kv))
    (if sameType (Map_get k0 m) (Some el) then Map_delete k0 m else m)
  = List.filter (fun kv => negb (continued_from index (el :: els) kv)) m.
Proof.
  intros Hnd k0. cbn [continued_from]. fold k0.
  assert (Hkey : forall kv, In kv m -> kv.1 = k0 -> Map_get k0 m = Some kv.2).
  { intros [k f] Hin Hk. cbn in *. subst k. apply Map_get_elem; [done|].
    by apply list_elem_of_In. }
  destruct (sameType (Map_get k0 m) (Some el)) eqn:Hsame.
  - rewrite Map_delete_filter, filter_filter_and by done.
    apply List.filter_ext_in. intros kv Hin.
    destruct (decide (kv.1 = k0)) as [Hk|Hk].
    + rewrite (bool_decide_eq_true_2 (kv.1 = k0)) by done.
      rewrite (bool_decide_eq_true_2 (k0 = kv.1)) by done.
      by rewrite <- (Hkey kv Hin Hk), Hsame.
    + rewrite (bool_decide_eq_false_2 (kv.1 = k0)) by done.
      by rewrite (bool_decide_eq_false_2 (k0 = kv.1)) by done.
  - apply List.filter_ext_in. intros kv Hin.
    destruct (decide (k0 = kv.1)) as [Hk|Hk].
    + rewrite (bool_decide_eq_true_2 (k0 = kv.1)) by done.
      by rewrite <- (Hkey kv Hin (eq_sym Hk)), Hsame.
    + by rewrite (bool_decide_eq_false_2 (k0 = kv.1)) by done.
Qed.

Lemma keyed_loop_spec wipFiber :
  forall els index st s,
    (index = 0 \/ is_Some (rk_prevSibling st)) ->
    (index = 0 -> rk_children st = []) ->
    NoDup (rk_map st).*1 ->
    NoDup (imap (fun i el => element_key (index + i) el) els) ->
    exists st',
      keyed_loop wipFiber (map Some els) index st s = Ok st' s /\
      rk_children st'
      = rk_children st
        ++ imap (fun i el =>
                   new_child wipFiber
                     (Map_get (element_key (index + i) el) (rk_map st)) el) els /\
      rk_map st'
      = List.filter (fun kv => negb (continued_from index els kv)) (rk_map st).
Proof.
  induction els as [|el els IH]; intros index st s Hprev Hch Hndm Hnde.
  - exists st. cbn. rewrite app_nil_r. split; [done|]. split; [done|].
    by rewrite filter_all.
  - cbn [map keyed_loop]. fold (element_key index el).
    rewrite imap_cons in Hnde. rewrite Nat.add_0_r in Hnde.
    apply NoDup_cons in Hnde as [Hk0 Hnde].
    set (k0 := element_key index el) in *.
    set (old := Map_get k0 (rk_map st)).
    set (newFiber := new_child wipFiber old el).
    set (map' := if sameType old (Some el) then Map_delete k0 (rk_map st)
                 else rk_map st).
    assert (Hturn :
      match old with
      | Some o =>
          if sameType old (Some el)
          then (Some (update_fiber wipFiber o el), Map_delete k0 (rk_map st))
          else (Some (placement_fiber wipFiber el), rk_map st)
      | None => (Some (placement_fiber wipFiber el), rk_map st)
      end = (Some newFiber, map')).
    { subst newFiber map'. unfold new_child.
      destruct old as [o|]; [destruct (sameType (Some o) (Some el))|]; done. }
    assert (Hchildren : exists children,
      (if bool_decide (index = 0) then ret (option_list (Some newFiber))
       else match rk_prevSibling st with
            | Some _ => ret (rk_children st ++ option_list (Some newFiber))
            | None =>
                throw "TypeError: Cannot set properties of null (setting 'sibling')"
            end) s = Ok children s /\
      children = rk_children st ++ [newFiber]).
    { case_bool_decide as Hi0.
      - eexists. split; [reflexivity|]. by rewrite Hch.
      - destruct Hprev as [->|[p Hp]]; [done|]. rewrite Hp. by eexists. }
    destruct Hchildren as (children & Ech & Hchildren).
    assert (Hndm' : NoDup map'.*1).
    { subst map'. destruct (sameType old (Some el)); [|done].
      rewrite Map_delete_filter by done. by apply filter_keys_subseteq. }
    destruct (IH (S index)
                 {| rk_map := map'; rk_prevSibling := Some newFiber;
                    rk_children := children |} s)
      as (st' & E & Hc' & Hm'); [by right | done | done | |].
    { erewrite imap_ext; [exact Hnde|]. intros i x _. cbn. f_equal. lia. }
    exists st'. split; [|split].
    + rewrite Hturn. msimpl. rewrite Ech. exact E.
    + rewrite Hc'. cbn [rk_children rk_map]. rewrite Hchildren, <- app_assoc.
      f_equal. rewrite imap_cons, Nat.add_0_r. cbn [app]. f_equal.
      apply imap_ext. intros i x Hx. cbn.
      replace (S (index + i)) with (index + S i) by lia.
      replace (S index + i) with (index + S i) by lia.
      f_equal. subst map'. destruct (sameType old (Some el)); [|done].
      apply Map_get_delete_ne. intros Heq. apply Hk0.
      apply elem_of_lookup_imap. exists i, x. split; [|done].
      by rewrite <- Heq.
    + rewrite Hm'. cbn [rk_map]. subst map' old k0.
      by apply continued_from_turn.
Qed.

Lemma forEach_add_deletions (l : list Fiber) :
  forall index s, exists s',
    forEach_from (fun fiber (_ : nat) =>
      modify (fun s =>
        set_win_deletions (Some (default [] (win_deletions s) ++ [fiber])) s))
      l index s = Ok tt s' /\
    default [] (win_deletions s') = default [] (win_deletions s) ++ l.
Proof.
  induction l as [|f l IH]; intros index s.
  - exists s. by rewrite app_nil_r.
  - cbn [forEach_from]. msimpl.
    destruct (IH (S index)
                 (set_win_deletions (Some (default [] (win_deletions s) ++ [f])) s))
      as (s' & E & Hw).
    exists s'. split; [exact E|]. rewrite Hw. cbn. by rewrite <- app_assoc.
Qed.

Lemma keyed_olds_keys olds :
  (keyed_olds olds).*1 = imap old_key olds.
Proof.
  unfold keyed_olds. rewrite fmap_imap. by apply imap_ext.
Qed.

(** The map that [reconcileChildrenWithKeys] builds. *)
Lemma oldFiberMap_keyed wipFiber :
  NoDup (imap old_key (old_children wipFiber)) ->
  match match f_alternate wipFiber with
        | Some alt => f_child alt
        | None => None
        end with
  | Some temp => build_oldFiberMap temp 0 []
  | None => []
  end = keyed_olds (old_children wipFiber).
Proof.
  unfold old_children.
  destruct (match f_alternate wipFiber with
            | Some alt => f_child alt | None => None end) as [temp|]; [|done].
  intros Hnd. cbn [chain_of] in *. by rewrite build_oldFiberMap_keyed.
Qed.

(** [reconcileChildrenWithKeys], for old children with distinct keys and a
    child array without [null] whose elements have distinct keys (an
    element or old child without key counts with its index): every
    element gets one new fiber, in the order of the array, which continues
    the old child filed under the key of the element when their types
    agree, wherever that child stood, and is new otherwise.  The old
    children that no element continues are removed, each once, in their
    old order, on both deletion lists.  The render path does not call this
    function. *)
Theorem reconcileChildrenWithKeys_matches_by_key :
  forall wipFiber els s,
    let olds := old_children wipFiber in
    f_child wipFiber = None ->
    NoDup (imap old_key olds) ->
    NoDup (imap element_key els) ->
    exists wipFiber' s',
      reconcileChildrenWithKeys wipFiber (map Some els) s = Ok wipFiber' s' /\
      (forall j old, olds !! j = Some old ->
                     Map_get (old_key j old) (keyed_olds olds) = Some old) /\
      length (chain_of (f_child wipFiber')) = length els /\
      (forall i el,
          els !! i = Some el ->
          exists new,
            chain_of (f_child wipFiber') !! i = Some new /\
            set_sibling None new
            = new_child wipFiber
                (Map_get (element_key i el) (keyed_olds olds)) el) /\
      f_deletions wipFiber'
      = Some (default [] (f_deletions wipFiber) ++ removed_by_key els olds) /\
      default [] (win_deletions s')
      = default [] (win_deletions s) ++ removed_by_key els olds.
Proof.
  intros wipFiber els s olds Hnochild Hndo Hnde.
  unfold reconcileChildrenWithKeys. rewrite (oldFiberMap_keyed wipFiber Hndo).
  fold olds. msimpl.
  destruct (keyed_loop_spec wipFiber els 0
              {| rk_map := keyed_olds olds; rk_prevSibling := None;
                 rk_children := chain_of (f_child wipFiber) |} s)
    as (st' & E & Hc & Hm); [by left | by rewrite Hnochild | | done |].
  { cbn. by rewrite keyed_olds_keys. }
  rewrite E. cbn [rk_children rk_map] in Hc, Hm. rewrite Hnochild in Hc.
  cbn [chain_of app] in Hc.
  unfold forEach.
  destruct (forEach_add_deletions
              (map (fun kv => set_effectTag (Some DELETION) kv.2) (rk_map st')) 0 s)
    as (s' & Ef & Hw).
  rewrite Ef. eexists _, s'. split; [reflexivity|].
  split.
  { intros j old Hj. apply Map_get_elem; [by rewrite keyed_olds_keys|].
    unfold keyed_olds. apply elem_of_lookup_imap. by exists j, old. }
  replace (f_child (set_child (link (rk_children st')) _))
    with (link (rk_children st')) by (by destruct wipFiber).
  split; [by rewrite chain_of_link_length, Hc, length_imap|].
  split.
  { intros i el Hel.
    assert (Hnew : rk_children st' !! i
                   = Some (new_child wipFiber
                             (Map_get (element_key i el) (keyed_olds olds)) el)).
    { rewrite Hc. rewrite list_lookup_imap, Hel. done. }
    rewrite (chain_of_link_lookup _ _ _ Hnew). eexists. split; [reflexivity|].
    destruct (new_child _ _ _) eqn:En. cbn. revert En.
    unfold new_child, update_fiber, placement_fiber.
    destruct (Map_get _ _); [destruct (sameType _ _)|];
      by intros [= <- <- <- <- <- <- <- <- <- <- <-]. }
  unfold removed_by_key, tagged_for_deletion. rewrite <- Hm.
  split; [by destruct wipFiber | exact Hw].
Qed.

(** The items keyed a and b given in the order b, a: each keeps its
    node, and nothing is removed. *)
Lemma reconcileChildrenWithKeys_matches_by_key_witness :
  exists wipFiber' s',
    reconcileChildrenWithKeys ul_rendered_again (map Some [li "b"; li "a"])
                              (initial_rt 4)
    = Ok wipFiber' s' /\
    f_dom <$> chain_of (f_child wipFiber') = [Some 3; Some 2] /\
    f_deletions wipFiber' = Some [].
Proof.
  destruct (reconcileChildrenWithKeys_matches_by_key ul_rendered_again
              [li "b"; li "a"] (initial_rt 4)) as (w' & s' & E & _).
  - reflexivity.
  - apply (bool_decide_eq_true_1 (NoDup _)). vm_compute. reflexivity.
  - apply (bool_decide_eq_true_1 (NoDup _)). vm_compute. reflexivity.
  - exists w', s'. split; [exact E|].
    revert E. vm_compute. by intros [= <- _].
Defined.

(** ** core/fiber: [render] into another container *)

Lemma childNodes_cleared (pn : gmap nat nat) next container other :
  childNodes {| parentNode := filter (fun kv => kv.2 ≠ container) pn;
                next_node := next |} other
  = if decide (other = container) then ∅
    else childNodes {| parentNode := pn; next_node := next |} other.
Proof.
  apply set_eq. intros n. rewrite childNodes_spec. cbn.
  rewrite map_lookup_filter_Some. cbn.
  destruct (decide (other = container)) as [->|Hne].
  - rewrite elem_of_empty. split; [by intros [_ ?] | done].
  - rewrite childNodes_spec. cbn. split; [by intros [? _] | by intros ?].
Qed.

(** [render] with a container other than the one of the last call starts
    afresh: the new root continues no committed root, and the children
    of the new container are detached.  The tree in the old container is
    not unmounted: no cleanup is called and its nodes stay.  The stored
    states of the hooks are kept, and a call of [workLoop] is registered
    whether or not one was already waiting. *)
Theorem render_into_another_container_starts_afresh :
  forall element container s,
    rootContainer s <> Some container ->
    exists s',
      render element container s = Ok tt s' /\
      wipRoot s'
      = Some (root_fiber (Some container) (Props None [] [element]) None) /\
      currentRoot s' = None /\
      nextUnitOfWork s' = Some [] /\
      rootContainer s' = Some container /\
      childNodes (document s') container = ∅ /\
      (forall other, other <> container ->
         childNodes (document s') other = childNodes (document s) other) /\
      console s' = console s /\
      hookStates s' = hookStates s /\ reducerStates s' = reducerStates s /\
      idleCallbacks s' = S (idleCallbacks s).
Proof.
  intros element container s Hrc. unfold render. msimpl.
  rewrite bool_decide_eq_false_2 by done.
  unfold clear_children, startWorkLoop, requestIdleCallback_workLoop. msimpl.
  cbn. eexists. split; [reflexivity|]. cbn.
  repeat split; try done.
  - rewrite childNodes_cleared. by rewrite decide_True.
  - intros other Hne. rewrite childNodes_cleared.
    rewrite decide_False by done. by destruct (document s).
Qed.

(** The subscriber is mounted in the container [0]; its root is rendered
    into the container [7]. *)
Lemma render_into_another_container_starts_afresh_witness :
  exists s',
    render (Some (Element (TFunc Subscriber) None [] [])) 7 subscriber_mounted
    = Ok tt s' /\
    currentRoot s' = None /\
    childNodes (document s') 0 = childNodes (document subscriber_mounted) 0 /\
    console s' = console subscriber_mounted.
Proof.
  destruct (render_into_another_container_starts_afresh
              (Some (Element (TFunc Subscriber) None [] [])) 7 subscriber_mounted)
    as (s' & E & _ & Hr & _ & _ & _ & Hother & Hc & _).
  - vm_compute. discriminate.
  - exists s'. split; [exact E|]. split; [exact Hr|].
    split; [by apply Hother | exact Hc].
Defined.

(** ** core/commit: [commitDeletion] *)

(** [commitDeletion(fiber, domParent)] for a fiber whose nodes are
    attached under [domParent], each once: it returns, every cleanup that
    the hooks of the fiber, of its descendants and of the siblings after
    it hold is called once, and the nodes are detached, those of the
    siblings after the fiber as well, whether or not the siblings were
    tagged for deletion.  A fiber with a node that is not under
    [domParent], and without sibling, is left alone: nothing is detached
    and no cleanup of the fiber or below it is called. *)
Theorem commitDeletion_detaches_the_fiber_and_its_later_siblings :
  forall fiber parent s,
    (NoDup (top_doms fiber) ->
     (forall n, n ∈ top_doms fiber -> parentNode (document s) !! n = Some parent) ->
     exists s' evs,
       commitDeletion fiber (Some parent) s = Ok tt s' /\
       emitted s s' evs /\
       visible evs = held_tree fiber /\
       forall n, parentNode (document s') !! n
                 = if decide (n ∈ top_doms fiber) then None
                   else parentNode (document s) !! n) /\
    (forall d,
       f_dom fiber = Some d -> f_sibling fiber = None ->
       contains_fuel (size (parentNode (document s))) (parentNode (document s))
                     parent d = false ->
       commitDeletion fiber (Some parent) s = Ok tt s).
Proof.
  intros fiber parent s. split.
  - intros Hnd Hat. unfold commitDeletion.
    by apply (commitDeletion_fuel_removes (fiber_size fiber) (Some fiber)).
  - intros d Hd Hsb Hout. unfold commitDeletion.
    destruct fiber as [ty pr d0 pa al c sb tg hk dl cp]. cbn in Hd, Hsb. subst.
    cbn [fiber_size commitDeletion_fuel f_dom f_sibling]. unfold contains. msimpl.
    rewrite Hout. msimpl. by destruct (_ + _).
Qed.

(** The subscriber: its fiber has no node of its own, the [div] under it
    is attached to the container; the cleanup is called once. *)
Lemma commitDeletion_detaches_the_fiber_and_its_later_siblings_witness :
  exists fiber s' evs,
    (currentRoot subscriber_mounted ≫= f_child) = Some fiber /\
    commitDeletion fiber (Some 0) subscriber_mounted = Ok tt s' /\
    emitted subscriber_mounted s' evs /\
    visible evs = [CleanupCalled 1] /\
    parentNode (document s') !! 1 = None.
Proof.
  destruct (currentRoot subscriber_mounted ≫= f_child) as [fiber|] eqn:Ef;
    [|vm_compute in Ef; discriminate].
  destruct (commitDeletion_detaches_the_fiber_and_its_later_siblings
              fiber 0 subscriber_mounted) as [Hat _].
  destruct Hat as (s' & evs & E & Hev & Hvis & Hdoc).
  - vm_compute in Ef. injection Ef as <-. vm_compute. apply NoDup_singleton.
  - vm_compute in Ef. injection Ef as <-. intros n Hn.
    apply list_elem_of_singleton in Hn as ->. vm_compute. reflexivity.
  - exists fiber, s', evs. split; [done|]. split; [exact E|].
    split; [exact Hev|]. split.
    + rewrite Hvis. vm_compute in Ef. injection Ef as <-. vm_compute. reflexivity.
    + rewrite Hdoc. vm_compute in Ef. injection Ef as <-. vm_compute. reflexivity.
Defined.

(** ** core/commit: [commitWork] and [commitRoot] *)








(** The same through the whole work loop: when it has come to rest, the
    node of the [span] is in no parent. *)
Lemma pair_replaced_loses_the_span :
  parentNode (document pair_mounted) !! 3 = Some 1 /\
  parentNode (document pair_replaced) !! 3 = None /\
  parentNode (document pair_replaced) !! 4 = Some 1.
Proof. vm_compute. done. Qed.

(** ** core/fiber: the work loop and its deadline *)

Section Yield.

Variable components : fn_ref -> props -> M jsx.

Lemma work_units_done fuel deadline calls s :
  nextUnitOfWork s = None ->
  work_units components fuel deadline calls s = Ok tt s.
Proof. intros H. destruct fuel; cbn [work_units]; msimpl; by rewrite H. Qed.

(** Without yields the number of past calls of [timeRemaining] plays no
    part. *)
Lemma work_units_no_deadline_calls fuel :
  forall calls calls' s,
    work_units components fuel no_deadline calls s
    = work_units components fuel no_deadline calls' s.
Proof.
  induction fuel as [|fuel IH]; intros calls calls' s; [done|].
  cbn [work_units]. msimpl. destruct (nextUnitOfWork s) as [p|]; [|done].
  msimpl. destruct (performUnitOfWork components p s) as [next s1| |];
    [|done..].
  msimpl. change (no_deadline calls <? 1)%Z with false.
  change (no_deadline calls' <? 1)%Z with false. cbn. apply IH.
Qed.

(** More fuel does not change what the loop returns. *)
Lemma work_units_more_fuel fuel :
  forall fuel' deadline calls s s',
    work_units components fuel deadline calls s = Ok tt s' ->
    fuel <= fuel' ->
    work_units components fuel' deadline calls s = Ok tt s'.
Proof.
  induction fuel as [|fuel IH]; intros fuel' deadline calls s s' E Hle.
  - revert E. cbn [work_units]. msimpl.
    destruct (nextUnitOfWork s) as [p|] eqn:Hn; [done|].
    intros [= <-]. by apply work_units_done.
  - destruct fuel' as [|fuel']; [lia|]. revert E. cbn [work_units]. msimpl.
    destruct (nextUnitOfWork s) as [p|]; [|done]. msimpl.
    destruct (performUnitOfWork components p s) as [next s1| |]; [|done..].
    msimpl. destruct (deadline calls <? 1)%Z; [done|].
    intros E. apply (IH fuel'); [done | lia].
Qed.

(** A loop that yields stops at a state from which the loop that does not
    yield goes on to the same end. *)
Lemma work_units_yield fuel :
  forall fuel' deadline calls s s_end,
    work_units components fuel no_deadline 0 s = Ok tt s_end ->
    fuel <= fuel' ->
    work_units components fuel' deadline calls s = Ok tt s_end \/
    exists s1 fuel1,
      fuel1 < fuel /\
      work_units components fuel' deadline calls s = Ok tt s1 /\
      is_Some (nextUnitOfWork s1) /\
      work_units components fuel1 no_deadline 0 s1 = Ok tt s_end.
Proof.
  induction fuel as [|fuel IH]; intros fuel' deadline calls s s_end E Hle.
  - left. revert E. cbn [work_units]. msimpl.
    destruct (nextUnitOfWork s) as [p|] eqn:Hn; [done|].
    intros [= <-]. by apply work_units_done.
  - destruct fuel' as [|fuel']; [lia|]. revert E. cbn [work_units]. msimpl.
    destruct (nextUnitOfWork s) as [p|]; [|by left]. msimpl.
    destruct (performUnitOfWork components p s) as [next s1| |]; [|done..].
    msimpl. change (no_deadline 0%nat <? 1)%Z with false. cbn.
    rewrite (work_units_no_deadline_calls fuel 1 0). intros E.
    destruct (deadline calls <? 1)%Z.
    + destruct next as [q|].
      * right. exists (set_nextUnitOfWork (Some q) s1), fuel.
        split; [lia|]. split; [done|]. split; [by eexists | done].
      * left. cbn. rewrite work_units_done in E by done. by injection E as <-.
    + destruct (IH fuel' deadline (S calls) _ s_end E) as [H|(s2 & f1 & Hf & H)];
        [lia | by left |].
      right. exists s2, f1. split; [lia | done].
Qed.

(** [workLoop] after a loop that yielded: nothing is committed, and one
    more callback is registered. *)
Lemma workLoop_yielded fuel deadline s s1 :
  work_units components fuel deadline 0 s = Ok tt s1 ->
  is_Some (nextUnitOfWork s1) ->
  workLoop components fuel deadline s
  = Ok tt (set_idleCallbacks (S (idleCallbacks s1)) s1).
Proof.
  intros E [p Hp]. unfold workLoop. msimpl. rewrite E. msimpl. rewrite Hp.
  destruct (wipRoot s1); msimpl; cbn; rewrite Hp;
    unfold requestIdleCallback_workLoop; msimpl; by destruct (wipRoot s1).
Qed.

(** [workLoop] depends on the deadline through its [while] loop only. *)
Lemma workLoop_same_units fuel fuel' deadline deadline' s s1 :
  work_units components fuel deadline 0 s = Ok tt s1 ->
  work_units components fuel' deadline' 0 s = Ok tt s1 ->
  workLoop components fuel deadline s = workLoop components fuel' deadline' s.
Proof. intros E E'. unfold workLoop. msimpl. by rewrite E, E'. Qed.

Lemma set_idleCallbacks_back s n :
  set_idleCallbacks n (set_idleCallbacks (S n) s) = set_idleCallbacks n s.
Proof. done. Qed.

Lemma set_idleCallbacks_same s : set_idleCallbacks (idleCallbacks s) s = s.
Proof. by destruct s. Qed.

(** The callback that the host runs after a yield carries on with the
    loop. *)
Lemma run_idle_callback_after_yield fuel deadline s1 :
  run_idle_callback components fuel deadline
    (set_idleCallbacks (S (idleCallbacks s1)) s1)
  = workLoop components fuel deadline s1.
Proof.
  unfold run_idle_callback. msimpl. cbn [idleCallbacks set_idleCallbacks].
  msimpl. by rewrite set_idleCallbacks_back, set_idleCallbacks_same.
Qed.

Lemma callbacks_reach_the_end fuel deadline s' :
  forall n s1 s_end,
    work_units components n no_deadline 0 s1 = Ok tt s_end ->
    n <= fuel ->
    workLoop components n no_deadline s1 = Ok tt s' ->
    exists k,
      run_callbacks components k fuel deadline
        (set_idleCallbacks (S (idleCallbacks s1)) s1) = Ok tt s'.
Proof.
  induction n as [n IH] using lt_wf_ind. intros s1 s_end E Hle Hloop.
  destruct (work_units_yield n fuel deadline 0 s1 s_end E Hle)
    as [Hsame|(s2 & f1 & Hf1 & E2 & Hnext & Erest)].
  - exists 1. cbn [run_callbacks]. msimpl.
    rewrite run_idle_callback_after_yield.
    rewrite (workLoop_same_units fuel n deadline no_deadline s1 s_end Hsame E).
    by rewrite Hloop.
  - assert (Hloop2 : workLoop components f1 no_deadline s2 = Ok tt s').
    { rewrite <- Hloop. unfold workLoop. msimpl. by rewrite E, Erest. }
    destruct (IH f1 Hf1 s2 s_end Erest) as [k Hk]; [lia | exact Hloop2 |].
    exists (S k). cbn [run_callbacks]. msimpl.
    rewrite run_idle_callback_after_yield.
    rewrite (workLoop_yielded fuel deadline s1 s2 E2 Hnext). exact Hk.
Qed.

End Yield.

(** The deadline changes when the work is done, not what is done: if one
    call of [workLoop] that is never asked to yield takes the runtime from
    [s] to [s'], then under any deadline a number of calls, each started
    by the host for the callback that the call before it registered, take
    it from [s] to [s'] as well.  After every yield the next call resumes
    at the unit of work where the loop stopped, and the tree is committed
    by the call that finds no unit left. *)
Theorem workLoop_outcome_does_not_depend_on_the_deadline :
  forall components fuel deadline s s',
    run_idle_callback components fuel no_deadline s = Ok tt s' ->
    exists k, run_callbacks components k fuel deadline s = Ok tt s'.
Proof.
  intros components fuel deadline s s'. unfold run_idle_callback at 1. msimpl.
  destruct (idleCallbacks s) as [|m] eqn:Hidle; msimpl.
  - intros [= <-]. by exists 0.
  - set (s0 := set_idleCallbacks m s). intros Hloop.
    assert (Hs : s = set_idleCallbacks (S (idleCallbacks s0)) s0).
    { subst s0. cbn. rewrite <- Hidle. by destruct s. }
    destruct (work_units components fuel no_deadline 0 s0) as [[] s_end| |] eqn:E.
    + rewrite Hs.
      by apply (callbacks_reach_the_end components fuel deadline s' fuel s0 s_end).
    + revert Hloop. unfold workLoop. msimpl. by rewrite E.
    + revert Hloop. unfold workLoop. msimpl. by rewrite E.
Qed.

(** The [div] with two children, mounted under a deadline that asks to
    yield after every unit. *)
Lemma workLoop_outcome_does_not_depend_on_the_deadline_witness :
  exists k s',
    run_callbacks no_components k 100 always_yield pair_rendering = Ok tt s' /\
    run_idle_callback no_components 100 no_deadline pair_rendering = Ok tt s'.
Proof.
  destruct (run_idle_callback no_components 100 no_deadline pair_rendering)
    as [[] s'| |] eqn:E; [|vm_compute in E; discriminate..].
  destruct (workLoop_outcome_does_not_depend_on_the_deadline no_components 100
              always_yield pair_rendering s' E) as [k Hk].
  exists k, s'. split; [exact Hk | reflexivity].
Defined.

(** Under that deadline the mount takes four callbacks, one for each of
    the root, the [div], the [p] and the [span]. *)
Lemma pair_mounted_in_four_callbacks :
  state_after (run_callbacks no_components 4 100 always_yield) pair_rendering
  = pair_mounted /\
  idleCallbacks
    (state_after (run_callbacks no_components 3 100 always_yield) pair_rendering)
  = 1.
Proof. vm_compute. done. Qed.

(** ** vdom/createElement *)

Lemma as_element_kept (c : leaf) : kept c = true -> is_Some (as_element c).
Proof. destruct c as [[| |[]| |]|e]; by eauto. Qed.

(** The entries that [createElement] builds from any children. *)
Lemma built_children_eq type props children :
  built_children (createElement type props children)
  = map as_element (List.filter kept (flat_map flat children)).
Proof.
  unfold createElement. destruct type as [|t]; [done|].
  by destruct (bool_decide (t = THost "Fragment")).
Qed.

Lemma built_children_elements type props children :
  exists els, built_children (createElement type props children) = map Some els.
Proof.
  rewrite built_children_eq.
  induction (flat_map flat children) as [|c l [els IH]]; [by exists []|].
  cbn [List.filter]. destruct (kept c) eqn:Hk; [|by exists els].
  destruct (as_element_kept c Hk) as [e He]. exists (e :: els).
  cbn [map]. by rewrite He, IH.
Qed.

(** No entry of the child array that [createElement] builds is [null]:
    [undefined], [null] and [false] are left out and every other primitive
    becomes a text element, at any depth of nested arrays.  So the
    reconciliation of that array against the old children of any fiber
    returns; the [TypeError] of [reconcileChildren] on a [null] before an
    element arises only from arrays that were not built by
    [createElement]. *)
Theorem createElement_children_are_always_reconciled :
  forall type props children wipFiber s,
    (forall entry,
        entry ∈ built_children (createElement type props children) ->
        is_Some entry) /\
    exists wipFiber' s',
      reconcileChildren wipFiber
        (built_children (createElement type props children)) s
      = Ok wipFiber' s'.
Proof.
  intros type props children wipFiber s.
  destruct (built_children_elements type props children) as [els ->].
  split.
  - intros entry Hin. apply list_elem_of_fmap in Hin as (e & -> & _). by eexists.
  - apply reconcileChildren_outcome, no_null_before_element.
Qed.

(** A list whose children hold [null], [false] and a nested array. *)
Lemma createElement_children_are_always_reconciled_witness :
  let children := [ChPrim PNull;
                   ChArray [ChPrim (PBool false);
                            ChElement (Element (THost "li") None [] [])];
                   ChPrim (PStr "more")] in
  length (built_children (createElement (CType (THost "ul")) None children)) = 2 /\
  exists wipFiber' s',
    reconcileChildren (root_fiber None (Props None [] []) None)
      (built_children (createElement (CType (THost "ul")) None children))
      (initial_rt 1)
    = Ok wipFiber' s'.
Proof.
  intros children. split; [reflexivity|].
  apply (createElement_children_are_always_reconciled
           (CType (THost "ul")) None children).
Defined.

Lemma flat_map_flat_app (l1 l2 : list child) :
  flat_map flat (l1 ++ l2) = flat_map flat l1 ++ flat_map flat l2.
Proof. apply flat_map_app. Qed.

Lemma filter_kept_app (l1 l2 : list leaf) :
  List.filter kept (l1 ++ l2) = List.filter kept l1 ++ List.filter kept l2.
Proof. apply List.filter_app. Qed.

(** Entries that were built already pass unchanged. *)
Lemma built_entries_pass (l : list leaf) :
  map as_element
    (List.filter kept
       (flat_map flat (map child_of_entry (map as_element (List.filter kept l)))))
  = map as_element (List.filter kept l).
Proof.
  induction l as [|c l IH]; [done|]. cbn [List.filter].
  destruct (kept c) eqn:Hk; [|done].
  destruct (as_element_kept c Hk) as [e He]. cbn [map]. rewrite He.
  cbn [child_of_entry flat_map flat app List.filter kept as_element map].
  by rewrite IH.
Qed.

Lemma mapped_children_splice (cs1 cs2 : list child) (c : child) (inner : list child) :
  map as_element (List.filter kept (flat c))
  = map as_element (List.filter kept (flat_map flat inner)) ->
  map as_element (List.filter kept (flat_map flat (cs1 ++ c :: cs2)))
  = map as_element (List.filter kept (flat_map flat (cs1 ++ inner ++ cs2))).
Proof.
  intros H. rewrite !flat_map_flat_app. cbn [flat_map].
  rewrite ?flat_map_flat_app, !filter_kept_app, !map_app.
  by rewrite H.
Qed.

Lemma createElement_same_children type props cs cs' :
  map as_element (List.filter kept (flat_map flat cs))
  = map as_element (List.filter kept (flat_map flat cs')) ->
  createElement type props cs = createElement type props cs'.
Proof. intros H. unfold createElement. by rewrite H. Qed.

(** A Fragment is nothing but its children.  Passing the result of
    [createElement(Fragment, q, ...inner)] as a child, at any place among
    the children of any element, builds the same element as passing
    [inner] at that place; so does passing [inner] as one array.  The
    props of a Fragment, a [key] among them, are dropped. *)
Theorem createElement_splices_fragments :
  forall type props q cs1 inner cs2,
    createElement type props
      (cs1 ++ child_of_jsx (createElement CFragment q inner) :: cs2)
    = createElement type props (cs1 ++ inner ++ cs2) /\
    createElement type props (cs1 ++ ChArray inner :: cs2)
    = createElement type props (cs1 ++ inner ++ cs2) /\
    createElement CFragment q inner = createElement CFragment None inner.
Proof.
  intros type props q cs1 inner cs2. split; [|split; [|done]].
  - apply createElement_same_children, mapped_children_splice.
    cbn [createElement child_of_jsx flat]. apply built_entries_pass.
  - apply createElement_same_children, mapped_children_splice. done.
Qed.

(** ** vdom/updateDom *)

Section VdomFacts.

Import Vdom.

Lemma and_then_did ops (b : step) : and_then (did ops) b = (ops ++ b.1, b.2).
Proof. done. Qed.

Lemma and_then_did_nil (b : step) : and_then (did []) b = b.
Proof. by destruct b. Qed.

Lemma and_then_ok (a b : step) ops :
  and_then a b = (ops, None) ->
  exists o1 o2, a = (o1, None) /\ b = (o2, None) /\ ops = o1 ++ o2.
Proof.
  destruct a as [o1 [e|]], b as [o2 e2]; unfold and_then; cbn; [done|].
  intros [= <- ->]. by exists o1, o2.
Qed.


Lemma forEach_cons {A} (f : A -> step) x l :
  forEach f (x :: l) = and_then (f x) (forEach f l).
Proof. done. Qed.

Lemma forEach_did {A} (f : A -> step) (g : A -> list dom_op) l :
  (forall x, x ∈ l -> f x = did (g x)) ->
  forEach f l = did (flat_map g l).
Proof.
  induction l as [|x l IH]; intros H; [done|].
  rewrite forEach_cons, (H x) by apply list_elem_of_here.
  rewrite IH by (intros y Hy; apply H; by apply list_elem_of_further).
  done.
Qed.


Lemma and_then_ops (a b : step) op :
  op ∈ (and_then a b).1 -> op ∈ a.1 \/ op ∈ b.1.
Proof.
  destruct a as [o1 [e|]], b as [o2 e2]; unfold and_then; cbn; [by left|].
  by intros ?%elem_of_app.
Qed.

Lemma forEach_ops {A} (f : A -> step) l op :
  op ∈ (forEach f l).1 -> exists x, x ∈ l /\ op ∈ (f x).1.
Proof.
  induction l as [|x l IH]; intros Hop.
  - by apply elem_of_nil in Hop.
  - rewrite forEach_cons in Hop. apply and_then_ops in Hop as [Hop|Hop].
    + exists x. split; [apply list_elem_of_here | done].
    + destruct (IH Hop) as (y & Hy & H).
      exists y. split; [by apply list_elem_of_further | done].
Qed.

Lemma forEach_singletons {A} (g : A -> dom_op) l :
  forEach (fun x => did [g x]) l = did (map g l).
Proof.
  induction l as [|x l IH]; [done|]. by rewrite forEach_cons, IH.
Qed.

Lemma filter_none {A} (P : A -> bool) l :
  (forall x, x ∈ l -> P x = false) -> List.filter P l = [].
Proof.
  induction l as [|x l IH]; intros H; [done|]. cbn.
  rewrite (H x) by apply list_elem_of_here.
  apply IH. intros y Hy. apply H. by apply list_elem_of_further.
Qed.

Lemma elem_of_filter_bool {A} (P : A -> bool) l x :
  x ∈ List.filter P l <-> x ∈ l /\ P x = true.
Proof. rewrite !list_elem_of_In. apply List.filter_In. Qed.

Lemma get_absent (o : object) key : key ∉ keys o -> get o key = JUndefined.
Proof.
  induction o as [|[k v] o IH]; [done|]. cbn. intros H.
  apply not_elem_of_cons in H as [Hne H].
  rewrite bool_decide_eq_false_2 by done. by apply IH.
Qed.

Lemma strict_eq_refl v : strict_eq v v = true.
Proof. destruct v; cbn; by rewrite ?bool_decide_eq_true_2. Qed.

Lemma strict_eq_fun v f : strict_eq v (JFun f) = true -> v = JFun f.
Proof. destruct v; cbn; try done. intros H. by apply bool_decide_eq_true_1 in H as ->. Qed.

Lemma strict_eq_sym a b : strict_eq a b = strict_eq b a.
Proof.
  destruct a, b; cbn; try done; apply bool_decide_ext; split; congruence.
Qed.

End VdomFacts.

(** Unchanged props touch nothing.  When, [children] and [ref] apart,
    every key of the old props is a key of the new ones and every key has
    strictly equal values in both (the same primitive, the same function,
    the same object), [updateDom] makes no call and no assignment on the
    node, whatever the props are; only a callback [ref] of an element is
    called again.  A handler or a style object that is created anew at
    every render is not strictly equal to the former one. *)
Theorem updateDom_with_unchanged_props_touches_nothing :
  forall dom prev next,
    (forall key, key ∈ Vdom.keys prev -> key <> "children" -> key <> "ref" ->
                 key ∈ Vdom.keys next) ->
    (forall key, key ∈ Vdom.keys next -> key <> "children" -> key <> "ref" ->
                 Vdom.strict_eq (Vdom.get prev key) (Vdom.get next key) = true) ->
    Vdom.updateDom dom prev next
    = Vdom.did (match dom, Vdom.get next "ref" with
                | Vdom.ElementNode _, Vdom.JFun ref => [Vdom.CallRef ref]
                | _, _ => []
                end).
Proof.
  intros dom prev next Hkeys Hsame.
  assert (Hnew : forall key, key <> "children" -> key <> "ref" ->
                             Vdom.isNew prev next key = false).
  { intros key Hc Hr. unfold Vdom.isNew.
    destruct (decide (key ∈ Vdom.keys next)) as [Hin|Hout].
    - by rewrite Hsame.
    - rewrite (get_absent next key Hout), get_absent; [done|].
      intros Hin. by apply Hout, Hkeys. }
  assert (Hwritten : forall key,
             Vdom.isProperty key = true \/ Vdom.isEvent key = true ->
             key <> "children" /\ key <> "ref").
  { intros key H. split; intros ->; by destruct H. }
  destruct dom as [|tagName]; cbn [Vdom.updateDom].
  - pose proof (Hnew "nodeValue") as Htext. unfold Vdom.isNew in Htext.
    by rewrite Htext.
  - rewrite (filter_none (fun key => negb (Vdom.has next key) || Vdom.isNew prev next key)).
    2:{ intros key [Hin Hev]%elem_of_filter_bool.
        destruct (Hwritten key (or_intror Hev)) as [Hc Hr].
        rewrite (Hnew key Hc Hr).
        unfold Vdom.has. by rewrite bool_decide_eq_true_2 by by apply Hkeys. }
    rewrite (filter_none (Vdom.isGone prev next)).
    2:{ intros key [Hin Hp]%elem_of_filter_bool.
        destruct (Hwritten key (or_introl Hp)) as [Hc Hr].
        unfold Vdom.isGone, Vdom.has. by rewrite bool_decide_eq_true_2 by by apply Hkeys. }
    rewrite !(filter_none (Vdom.isNew prev next)).
    2,3: (intros key [_ H]%elem_of_filter_bool; apply Hnew; apply Hwritten; tauto).
    cbn [Vdom.forEach foldr]. rewrite !and_then_did_nil. by destruct (Vdom.get next "ref").
Qed.

(** A [button] rendered twice with the same class and the same handler,
    and with a new array of children. *)
Lemma updateDom_with_unchanged_props_touches_nothing_witness :
  Vdom.updateDom (Vdom.ElementNode "BUTTON")
    [("className", Vdom.JStr "primary"); ("onClick", Vdom.JFun 1);
     ("children", Vdom.JObj 2 [])]
    [("onClick", Vdom.JFun 1); ("className", Vdom.JStr "primary");
     ("children", Vdom.JObj 3 [])]
  = Vdom.did [].
Proof.
  apply (updateDom_with_unchanged_props_touches_nothing
           (Vdom.ElementNode "BUTTON")).
  - intros key Hin Hc Hr. apply list_elem_of_In in Hin. apply list_elem_of_In.
    cbn in *. tauto.
  - intros key Hin Hc Hr. apply list_elem_of_In in Hin. cbn in Hin.
    destruct Hin as [<-|[<-|[<-|[]]]]; try done; vm_compute; reflexivity.
Defined.

Section VdomErrors.

Import Vdom.


Lemma isProperty_style : isProperty "style" = true.
Proof. done. Qed.




End VdomErrors.



Section VdomListeners.

Import Vdom.

Lemma listeners_after_app o1 o2 ls :
  listeners_after (o1 ++ o2) ls = listeners_after o2 (listeners_after o1 ls).
Proof. apply foldl_app. Qed.

Lemma listeners_after_cons op ops ls :
  listeners_after (op :: ops) ls = listeners_after ops (listeners_after_op op ls).
Proof. done. Qed.

Lemma listeners_after_others ops ls :
  (forall op, op ∈ ops -> touches_listeners op = false) ->
  listeners_after ops ls = ls.
Proof.
  revert ls. induction ops as [|op ops IH]; intros ls H; [done|].
  rewrite listeners_after_cons.
  rewrite IH by (intros o Ho; apply H; by apply list_elem_of_further).
  specialize (H op (list_elem_of_here _ _)). by destruct op.
Qed.

Lemma remove_property_others prev name op :
  op ∈ (remove_property prev name).1 -> touches_listeners op = false.
Proof.
  unfold remove_property.
  destruct (bool_decide (name = "style") && typeof_object (get prev name)).
  - destruct (Object_keys (get prev name)) as [styleProps|e]; cbn.
    + by intros (x & -> & _)%list_elem_of_fmap.
    + by intros ?%elem_of_nil.
  - repeat (match goal with |- context [if ?b then _ else _] => destruct b end);
      cbn; by intros ->%list_elem_of_singleton.
Qed.

Lemma set_property_others dom prev next name op :
  op ∈ (set_property dom prev next name).1 -> touches_listeners op = false.
Proof.
  unfold set_property.
  destruct (bool_decide (name = "style") && typeof_object (get next name)).
  - intros [H|H]%and_then_ops.
    + destruct (truthy (get prev name) && typeof_object (get prev name));
        [|by apply elem_of_nil in H].
      destruct (Object_keys (get prev name)) as [styleProps|e];
        [|by apply elem_of_nil in H].
      apply forEach_ops in H as (x & _ & H).
      destruct (in_object x (get next name)) as [[]|e]; cbn in H;
        [by apply elem_of_nil in H | by apply list_elem_of_singleton in H as -> |
         by apply elem_of_nil in H].
    + destruct (Object_keys (get next name)) as [styleProps|e]; cbn in H.
      * by apply list_elem_of_fmap in H as (x & -> & _).
      * by apply elem_of_nil in H.
  - repeat (match goal with |- context [if ?b then _ else _] => destruct b end);
      cbn; by intros ->%list_elem_of_singleton.
Qed.

Lemma elem_of_after_remove t v ls (x : listener) :
  x ∈ listeners_after_op (RemoveEventListener t v) ls
  <-> x ∈ ls /\ forall f, v = JFun f -> x <> (t, f).
Proof.
  destruct v as [| | | | |g|]; cbn; try (split; [by split | by intros [? _]]).
  rewrite elem_of_filter_bool, negb_true_iff, bool_decide_eq_false. split.
  - intros [Hin Hne]. split; [done|]. by intros f [= <-].
  - intros [Hin Hne]. split; [done|]. by apply Hne.
Qed.

Lemma elem_of_after_add t v ls (x : listener) :
  x ∈ listeners_after_op (AddEventListener t v) ls
  <-> x ∈ ls \/ exists f, v = JFun f /\ x = (t, f).
Proof.
  destruct v as [| | | | |g|]; cbn;
    try (split; [by left | by intros [?|(? & [=] & _)]]).
  destruct (bool_decide ((t, g) ∈ ls)) eqn:E.
  - apply bool_decide_eq_true_1 in E. split; [by left|].
    by intros [?|(f & [= <-] & ->)].
  - rewrite elem_of_app, list_elem_of_singleton. split.
    + intros [?| ->]; [by left | right; by exists g].
    + intros [?|(f & [= <-] & ->)]; [by left | by right].
Qed.

Lemma elem_of_after_removes prev ks :
  forall ls (x : listener),
    x ∈ listeners_after
          (map (fun name => RemoveEventListener (eventType name) (get prev name)) ks) ls
    <-> x ∈ ls /\
        forall k f, k ∈ ks -> get prev k = JFun f -> x <> (eventType k, f).
Proof.
  induction ks as [|k ks IH]; intros ls x.
  - cbn. split; [intros H; split; [done|] | by intros [? _]].
    by intros k f ?%elem_of_nil.
  - cbn [map]. rewrite listeners_after_cons, IH, elem_of_after_remove. split.
    + intros [[Hin Hk] Hks]. split; [done|].
      intros k' f [-> |Hin']%elem_of_cons; [apply Hk | by apply Hks].
    + intros [Hin H]. split; [split; [done|]|].
      * intros f. apply H, list_elem_of_here.
      * intros k' f Hin'. apply H. by apply list_elem_of_further.
Qed.

Lemma elem_of_after_adds next ks :
  forall ls (x : listener),
    x ∈ listeners_after
          (map (fun name => AddEventListener (eventType name) (get next name)) ks) ls
    <-> x ∈ ls \/
        exists k f, k ∈ ks /\ get next k = JFun f /\ x = (eventType k, f).
Proof.
  induction ks as [|k ks IH]; intros ls x.
  - cbn. split; [by left | intros [?|(k & f & ?%elem_of_nil & _)]; done].
  - cbn [map]. rewrite listeners_after_cons, IH, elem_of_after_add. split.
    + intros [[?|(f & Hf & ->)]|(k' & f & Hin & Hf & ->)].
      * by left.
      * right. exists k, f. split; [apply list_elem_of_here | done].
      * right. exists k', f. split; [by apply list_elem_of_further | done].
    + intros [?|(k' & f & [-> |Hin]%elem_of_cons & Hf & ->)].
      * by left; left.
      * left. right. by exists f.
      * right. by exists k', f.
Qed.

Lemma elem_of_handlers props (x : listener) :
  x ∈ handlers props
  <-> exists k f, k ∈ keys props /\ isEvent k = true /\
                  get props k = JFun f /\ x = (eventType k, f).
Proof.
  unfold handlers. rewrite list_elem_of_In, List.in_flat_map. split.
  - intros (k & Hk & Hx). apply List.filter_In in Hk as [Hk Hev].
    apply list_elem_of_In in Hk.
    destruct (get props k) as [| | | | |f|] eqn:E; try done.
    destruct Hx as [<-|[]]. by exists k, f.
  - intros (k & f & Hk & Hev & Hf & ->). exists k. split.
    + apply List.filter_In. split; [by apply list_elem_of_In | done].
    + rewrite Hf. by left.
Qed.

(** What [updateDom] does to an element, when it returns. *)
Lemma updateDom_ops tagName prev next ops :
  updateDom (ElementNode tagName) prev next = (ops, None) ->
  exists others1 others2,
    ops = map (fun name => RemoveEventListener (eventType name) (get prev name))
              (List.filter (fun key => negb (has next key) || isNew prev next key)
                 (List.filter isEvent (keys prev)))
          ++ others1
          ++ map (fun name => AddEventListener (eventType name) (get next name))
                 (List.filter (isNew prev next) (List.filter isEvent (keys next)))
          ++ others2 /\
    (forall op, op ∈ others1 -> touches_listeners op = false) /\
    (forall op, op ∈ others2 -> touches_listeners op = false).
Proof.
  cbn [updateDom]. rewrite !forEach_singletons. intros E.
  apply and_then_ok in E as (o1 & r1 & E1 & E & ->).
  apply and_then_ok in E as (o2 & r2 & E2 & E & ->).
  apply and_then_ok in E as (o3 & r3 & E3 & E & ->).
  apply and_then_ok in E as (o4 & o5 & E4 & E5 & ->).
  injection E1 as <-. injection E4 as <-.
  exists (o2 ++ o3), o5. split; [by rewrite <- !app_assoc|]. split.
  - intros op [H|H]%elem_of_app.
    + assert (H' : op ∈ (forEach (remove_property prev)
                (List.filter (isGone prev next)
                   (List.filter isProperty (keys prev)))).1) by by rewrite E2.
      apply forEach_ops in H' as (x & _ & H'). by eapply remove_property_others.
    + assert (H' : op ∈ (forEach (set_property (ElementNode tagName) prev next)
                (List.filter (isNew prev next)
                   (List.filter isProperty (keys next)))).1) by by rewrite E3.
      apply forEach_ops in H' as (x & _ & H'). by eapply set_property_others.
  - intros op H. destruct (get next "ref"); injection E5 as <-;
      try (by apply elem_of_nil in H). by apply list_elem_of_singleton in H as ->.
Qed.

End VdomListeners.

(** After an update the node has the handlers of the new props, and no
    other.  When [updateDom] returns for an element whose listeners are
    those that the old props ask for, its listeners are those that the
    new props ask for: a handler that is gone or replaced has been
    removed, a new one added, one that is the same function is left
    alone.  The handlers are functions, [undefined] or [null], and no two
    keys of the old and the new props name the same event in different
    spellings ([onClick], [onclick]). *)
Theorem updateDom_registers_the_handlers_of_the_new_props :
  forall tagName prev next ops ls,
    Vdom.updateDom (Vdom.ElementNode tagName) prev next = (ops, None) ->
    (forall key v, (key, v) ∈ prev ++ next -> Vdom.isEvent key = true ->
                   Vdom.is_listener v = true) ->
    (forall k k', k ∈ Vdom.keys prev -> k' ∈ Vdom.keys next ->
                  Vdom.isEvent k = true -> Vdom.isEvent k' = true ->
                  Vdom.eventType k = Vdom.eventType k' -> k = k') ->
    (forall l, l ∈ ls <-> l ∈ Vdom.handlers prev) ->
    forall l, l ∈ Vdom.listeners_after ops ls <-> l ∈ Vdom.handlers next.
Proof.
  intros tagName prev next ops ls E _ Hinj Hls x.
  destruct (updateDom_ops tagName prev next ops E)
    as (others1 & others2 & -> & H1 & H2).
  rewrite !listeners_after_app.
  rewrite (listeners_after_others others2) by done.
  rewrite elem_of_after_adds.
  rewrite (listeners_after_others others1) by done.
  rewrite elem_of_after_removes, Hls, !elem_of_handlers. split.
  - intros [[(k & f & Hk & Hev & Hf & ->) Hkept]|(k & f & Hk & Hf & ->)].
    + (* a handler of the old props that was not removed *)
      destruct (decide (k ∈ Vdom.keys next)) as [Hin|Hout].
      * destruct (Vdom.isNew prev next k) eqn:Hnew.
        -- exfalso. apply (Hkept k f); [|done..].
           apply elem_of_filter_bool. split; [by apply elem_of_filter_bool|].
           by rewrite Hnew, orb_true_r.
        -- exists k, f. split; [done|]. split; [done|]. split; [|done].
           unfold Vdom.isNew in Hnew. apply negb_false_iff in Hnew.
           rewrite Hf, strict_eq_sym in Hnew. by apply strict_eq_fun in Hnew.
      * exfalso. apply (Hkept k f); [|done..].
        apply elem_of_filter_bool. split; [by apply elem_of_filter_bool|].
        unfold Vdom.has. by rewrite bool_decide_eq_false_2.
    + (* a handler that was added *)
      apply elem_of_filter_bool in Hk as [Hk _].
      apply elem_of_filter_bool in Hk as [Hk Hev]. by exists k, f.
  - intros (k & f & Hk & Hev & Hf & ->).
    destruct (Vdom.isNew prev next k) eqn:Hnew.
    + right. exists k, f. split; [|done].
      apply elem_of_filter_bool. split; [by apply elem_of_filter_bool | done].
    + left. unfold Vdom.isNew in Hnew. apply negb_false_iff in Hnew.
      rewrite Hf in Hnew. pose proof (strict_eq_fun _ _ Hnew) as Hprev.
      assert (Hkp : k ∈ Vdom.keys prev).
      { destruct (decide (k ∈ Vdom.keys prev)) as [?|Hout]; [done|].
        by rewrite (get_absent prev k Hout) in Hprev. }
      split; [by exists k, f|].
      intros k' f' Hk' Hf' [= Het <-].
      apply elem_of_filter_bool in Hk' as [Hk' Hrem].
      apply elem_of_filter_bool in Hk' as [Hk' Hev'].
      assert (k' = k) as -> by (apply Hinj; done).
      unfold Vdom.has, Vdom.isNew in Hrem.
      rewrite bool_decide_eq_true_2, Hprev, Hf in Hrem by done.
      by rewrite strict_eq_refl in Hrem.
Qed.

(** A [button] whose click handler is replaced and which gets a handler
    for key presses. *)
Lemma updateDom_registers_the_handlers_of_the_new_props_witness :
  let ops := (Vdom.updateDom (Vdom.ElementNode "BUTTON")
                [("onClick", Vdom.JFun 1); ("className", Vdom.JStr "primary")]
                [("onClick", Vdom.JFun 2); ("onKeyDown", Vdom.JFun 3)]).1 in
  ("click", 2) ∈ Vdom.listeners_after ops [("click", 1)] /\
  ("keydown", 3) ∈ Vdom.listeners_after ops [("click", 1)] /\
  ("click", 1) ∉ Vdom.listeners_after ops [("click", 1)].
Proof.
  intros ops.
  assert (Hnext : Vdom.handlers [("onClick", Vdom.JFun 2); ("onKeyDown", Vdom.JFun 3)]
                  = [("click", 2); ("keydown", 3)]) by (vm_compute; reflexivity).
  assert (Hprev : Vdom.handlers [("onClick", Vdom.JFun 1);
                                 ("className", Vdom.JStr "primary")]
                  = [("click", 1)]) by (vm_compute; reflexivity).
  pose proof (updateDom_registers_the_handlers_of_the_new_props "BUTTON"
                [("onClick", Vdom.JFun 1); ("className", Vdom.JStr "primary")]
                [("onClick", Vdom.JFun 2); ("onKeyDown", Vdom.JFun 3)]
                ops [("click", 1)]) as H.
  rewrite Hnext in H.
  assert (Hafter : forall l, l ∈ Vdom.listeners_after ops [("click", 1)]
                             <-> l ∈ [("click", 2); ("keydown", 3)]).
  { apply H.
    - vm_compute. reflexivity.
    - intros key v Hin Hev. apply list_elem_of_In in Hin. cbn in Hin.
      destruct Hin as [[= <- <-]|[[= <- <-]|[[= <- <-]|[[= <- <-]|[]]]]]; done.
    - intros k k' Hk Hk' Hev Hev' Het.
      apply list_elem_of_In in Hk, Hk'. cbn in Hk, Hk'.
      destruct Hk as [<-|[<-|[]]], Hk' as [<-|[<-|[]]]; done.
    - intros l'. by rewrite Hprev. }
  split; [apply Hafter, list_elem_of_here|].
  split; [apply Hafter, list_elem_of_further, list_elem_of_here|].
  intros Hin%Hafter. apply list_elem_of_In in Hin. cbn in Hin.
  by destruct Hin as [[=]|[[=]|[]]].
Defined.

Section VdomAttributes.

Import Vdom.

Lemma attributes_after_snoc ops op m :
  attributes_after (ops ++ [op]) m
  = attributes_after_op op (attributes_after ops m).
Proof. unfold attributes_after. by rewrite foldl_app. Qed.

Lemma last_write_snoc a ops op :
  last_write a (ops ++ [op])
  = match written a op with Some r => Some r | None => last_write a ops end.
Proof. unfold last_write. by rewrite foldl_app. Qed.

Lemma last_write_app a o1 o2 :
  last_write a (o1 ++ o2)
  = match last_write a o2 with Some r => Some r | None => last_write a o1 end.
Proof.
  induction o2 as [|op o2 IH] using rev_ind; [by rewrite app_nil_r|].
  rewrite app_assoc, !last_write_snoc, IH. by destruct (written a op).
Qed.

Lemma last_write_none a ops :
  (forall op, op ∈ ops -> written a op = None) -> last_write a ops = None.
Proof.
  induction ops as [|op ops IH] using rev_ind; intros H; [done|].
  rewrite last_write_snoc, H by (apply elem_of_app; right; apply list_elem_of_here).
  apply IH. intros o Ho. apply H, elem_of_app. by left.
Qed.

(** The attribute [a] after [ops]. *)
Lemma attributes_after_lookup a ops m :
  attributes_after ops m !! a
  = match last_write a ops with Some r => r | None => m !! a end.
Proof.
  induction ops as [|op ops IH] using rev_ind; [done|].
  rewrite attributes_after_snoc, last_write_snoc.
  destruct op as [v|t v|t v|p v|name|name v|name v|r]; cbn [attributes_after_op written];
    try exact IH.
  - destruct (decide (toLowerCase name = a)) as [<-|Hne].
    + by rewrite bool_decide_eq_true_2, lookup_delete_eq by done.
    + by rewrite bool_decide_eq_false_2, lookup_delete_ne by done.
  - destruct (decide (toLowerCase name = a)) as [<-|Hne].
    + by rewrite bool_decide_eq_true_2, lookup_insert_eq by done.
    + by rewrite bool_decide_eq_false_2, lookup_insert_ne by done.
Qed.

Lemma forEach_ok_ops {A} (f : A -> step) l ops :
  forEach f l = (ops, None) -> ops = flat_map (fun x => (f x).1) l.
Proof.
  revert ops. induction l as [|x l IH]; intros ops E.
  - by injection E as <-.
  - rewrite forEach_cons in E.
    apply and_then_ok in E as (o1 & o2 & E1 & E2 & ->).
    cbn [flat_map]. by rewrite E1, (IH o2 E2).
Qed.

Lemma attribute_of_cases k a :
  attribute_of k = Some a ->
  a = toLowerCase (attributeName k) /\
  (k = "disabled" \/ (k <> "disabled" /\ isAttribute k = true)).
Proof.
  unfold attribute_of. destruct (decide (k = "disabled")) as [->|Hne].
  - intros [= <-]. split; [done | by left].
  - rewrite bool_decide_eq_false_2 by done. cbn [orb].
    destruct (isAttribute k); [|done]. intros [= <-]. split; [done | by right].
Qed.

Lemma startsWith_cons k c prefix :
  startsWith k (String c prefix) = true -> exists k', k = String c k'.
Proof.
  destruct k as [|b k']; [done|]. cbn. intros [H _]%andb_true_iff.
  apply bool_decide_eq_true_1 in H as ->. by exists k'.
Qed.

Lemma isAttribute_isProperty k : isAttribute k = true -> isProperty k = true.
Proof.
  unfold isAttribute. rewrite !orb_true_iff.
  intros [[[H|H]|H]|H].
  - apply startsWith_cons in H as [k' ->]. unfold isProperty, isEvent. cbn [startsWith].
    by rewrite !bool_decide_eq_false_2 by (by intros [=]).
  - apply startsWith_cons in H as [k' ->]. unfold isProperty, isEvent. cbn [startsWith].
    by rewrite !bool_decide_eq_false_2 by (by intros [=]).
  - by apply bool_decide_eq_true_1 in H as ->.
  - by apply bool_decide_eq_true_1 in H as ->.
Qed.

Lemma attribute_of_isProperty k a : attribute_of k = Some a -> isProperty k = true.
Proof.
  intros [_ [->|[_ H]]]%attribute_of_cases; [done | by apply isAttribute_isProperty].
Qed.

Lemma attribute_of_style : forall a, attribute_of "style" <> Some a.
Proof. done. Qed.

Lemma attribute_of_value : forall a, attribute_of "value" <> Some a.
Proof. done. Qed.

Lemma remove_property_written prev k a :
  last_write a (remove_property prev k).1
  = if bool_decide (attribute_of k = Some a) then Some None else None.
Proof.
  unfold remove_property.
  destruct (bool_decide (k = "style") && typeof_object (get prev k)) eqn:Hs.
  - apply andb_true_iff in Hs as [->%bool_decide_eq_true_1 _].
    rewrite (bool_decide_eq_false_2 _ (attribute_of_style a)).
    apply last_write_none. intros op Hop.
    destruct (Object_keys (get prev "style")) as [styleProps|e]; cbn in Hop.
    + by apply list_elem_of_fmap in Hop as (x & -> & _).
    + by apply elem_of_nil in Hop.
  - unfold attribute_of. destruct (decide (k = "disabled")) as [->|Hne].
    + rewrite !bool_decide_eq_true_2 by done. cbn.
      destruct (decide ("disabled" = a)) as [<-|Hna].
      * by rewrite !bool_decide_eq_true_2.
      * rewrite !bool_decide_eq_false_2; [done | by intros [=] | done].
    + rewrite !(bool_decide_eq_false_2 (k = "disabled")) by done. cbn [orb].
      destruct (isAttribute k); cbn; [|by rewrite bool_decide_eq_false_2].
      destruct (decide (toLowerCase (attributeName k) = a)) as [<-|Hna].
      * by rewrite !bool_decide_eq_true_2.
      * rewrite !bool_decide_eq_false_2; [done | by intros [=] | done].
Qed.

Lemma set_property_written dom prev next k a :
  last_write a (set_property dom prev next k).1
  = if bool_decide (attribute_of k = Some a)
    then Some (attribute_value next k) else None.
Proof.
  unfold set_property.
  destruct (bool_decide (k = "style") && typeof_object (get next k)) eqn:Hs.
  { apply andb_true_iff in Hs as [->%bool_decide_eq_true_1 _].
    rewrite (bool_decide_eq_false_2 _ (attribute_of_style a)).
    apply last_write_none. intros op [H|H]%and_then_ops.
    - destruct (truthy (get prev "style") && typeof_object (get prev "style"));
        [|by apply elem_of_nil in H].
      destruct (Object_keys (get prev "style")) as [styleProps|e];
        [|by apply elem_of_nil in H].
      apply forEach_ops in H as (x & _ & H).
      destruct (in_object x (get next "style")) as [[]|e]; cbn in H;
        [by apply elem_of_nil in H | by apply list_elem_of_singleton in H as -> |
         by apply elem_of_nil in H].
    - destruct (Object_keys (get next "style")) as [styleProps|e]; cbn in H.
      + by apply list_elem_of_fmap in H as (x & -> & _).
      + by apply elem_of_nil in H. }
  match goal with |- context [if ?b && ?c then _ else _] =>
    destruct (b && c) eqn:Hv end.
  { apply andb_true_iff in Hv as [->%bool_decide_eq_true_1 _].
    by rewrite (bool_decide_eq_false_2 _ (attribute_of_value a)). }
  unfold attribute_of, attribute_value.
  destruct (decide (k = "disabled")) as [->|Hne].
  - rewrite !bool_decide_eq_true_2 by done. cbn [orb].
    destruct (decide ("disabled" = a)) as [<-|Hna].
    + rewrite !bool_decide_eq_true_2 by done.
      destruct (truthy (get next "disabled")); cbn; by rewrite ?bool_decide_eq_true_2.
    + rewrite (bool_decide_eq_false_2 (Some _ = Some a)) by (by intros [=]).
      destruct (truthy (get next "disabled")); cbn; by rewrite bool_decide_eq_false_2.
  - rewrite !(bool_decide_eq_false_2 (k = "disabled")) by done. cbn [orb].
    destruct (isAttribute k); cbn; [|by rewrite bool_decide_eq_false_2].
    destruct (decide (toLowerCase (attributeName k) = a)) as [<-|Hna].
    + by rewrite !bool_decide_eq_true_2.
    + rewrite !bool_decide_eq_false_2; [done | by intros [=] | done].
Qed.

(** The last write among the operations made for the keys [ks], when one
    key at most is written to [a]. *)
Lemma last_write_flat_map a (g : string -> list dom_op)
    (r : string -> option jsval) ks :
  (forall k, k ∈ ks ->
             last_write a (g k)
             = if bool_decide (attribute_of k = Some a) then Some (r k) else None) ->
  (forall k k', k ∈ ks -> k' ∈ ks ->
                attribute_of k = Some a -> attribute_of k' = Some a -> k = k') ->
  last_write a (flat_map g ks)
  = r <$> List.find (fun k => bool_decide (attribute_of k = Some a)) ks.
Proof.
  induction ks as [|k ks IH]; intros Hg Hinj; [done|].
  cbn [flat_map List.find]. rewrite last_write_app, IH.
  2:{ intros k' Hk'. apply Hg. by apply list_elem_of_further. }
  2:{ intros k1 k2 H1 H2. apply Hinj; by apply list_elem_of_further. }
  rewrite (Hg k) by apply list_elem_of_here.
  destruct (List.find _ ks) as [k1|] eqn:Ef; cbn.
  - apply List.find_some in Ef as [Hin HP].
    apply list_elem_of_In in Hin. apply bool_decide_eq_true_1 in HP.
    destruct (bool_decide (attribute_of k = Some a)) eqn:Hk; [|done].
    apply bool_decide_eq_true_1 in Hk. cbn.
    by rewrite (Hinj k k1 (list_elem_of_here _ _) (list_elem_of_further _ _ _ Hin) Hk HP).
  - by destruct (bool_decide (attribute_of k = Some a)).
Qed.

(** The last write of [updateDom] to the attribute [a]: that for a new
    key, or else the removal for a key that is gone. *)
Lemma updateDom_last_write tagName prev next ops a :
  updateDom (ElementNode tagName) prev next = (ops, None) ->
  (forall k k', k ∈ keys prev ++ keys next -> k' ∈ keys prev ++ keys next ->
                attribute_of k = Some a -> attribute_of k' = Some a -> k = k') ->
  last_write a ops
  = match List.find (fun k => bool_decide (attribute_of k = Some a))
            (List.filter (isNew prev next) (List.filter isProperty (keys next))) with
    | Some k => Some (attribute_value next k)
    | None =>
        match List.find (fun k => bool_decide (attribute_of k = Some a))
                (List.filter (isGone prev next)
                   (List.filter isProperty (keys prev))) with
        | Some _ => Some None
        | None => None
        end
    end.
Proof.
  cbn [updateDom]. rewrite !forEach_singletons. intros E Hinj.
  apply and_then_ok in E as (o1 & r1 & E1 & E & ->).
  apply and_then_ok in E as (o2 & r2 & E2 & E & ->).
  apply and_then_ok in E as (o3 & r3 & E3 & E & ->).
  apply and_then_ok in E as (o4 & o5 & E4 & E5 & ->).
  injection E1 as <-. injection E4 as <-.
  apply forEach_ok_ops in E2 as ->. apply forEach_ok_ops in E3 as ->.
  rewrite !last_write_app.
  rewrite (last_write_none a o5).
  2:{ intros op H. destruct (get next "ref"); injection E5 as <-;
        try (by apply elem_of_nil in H). by apply list_elem_of_singleton in H as ->. }
  rewrite (last_write_none a (map _ (List.filter (isNew prev next) _))).
  2:{ by intros op (x & -> & _)%list_elem_of_fmap. }
  rewrite (last_write_none a (map _ (List.filter _ (List.filter isEvent (keys prev))))).
  2:{ by intros op (x & -> & _)%list_elem_of_fmap. }
  rewrite (last_write_flat_map a _ (attribute_value next)).
  2:{ intros k _. apply set_property_written. }
  2:{ intros k k' [[Hk _]%elem_of_filter_bool _]%elem_of_filter_bool
             [[Hk' _]%elem_of_filter_bool _]%elem_of_filter_bool.
      apply Hinj; apply elem_of_app; by right. }
  rewrite (last_write_flat_map a _ (fun _ => None)).
  2:{ intros k _. apply remove_property_written. }
  2:{ intros k k' [[Hk _]%elem_of_filter_bool _]%elem_of_filter_bool
             [[Hk' _]%elem_of_filter_bool _]%elem_of_filter_bool.
      apply Hinj; apply elem_of_app; by left. }
  destruct (List.find _ (List.filter (isNew prev next) _)); [done|].
  by destruct (List.find _ _).
Qed.

Lemma find_attribute_some a l k :
  List.find (fun k => bool_decide (attribute_of k = Some a)) l = Some k ->
  k ∈ l /\ attribute_of k = Some a.
Proof.
  intros [Hin HP]%List.find_some. split; [by apply list_elem_of_In|].
  by apply bool_decide_eq_true_1 in HP.
Qed.

Lemma find_attribute_none a l k :
  List.find (fun k => bool_decide (attribute_of k = Some a)) l = None ->
  k ∈ l -> attribute_of k <> Some a.
Proof.
  intros H Hin%list_elem_of_In. pose proof (List.find_none _ _ H k Hin) as HP.
  by apply bool_decide_eq_false_1 in HP.
Qed.

Lemma isNew_created props k :
  isNew [] props k = true <-> get props k <> JUndefined.
Proof. unfold isNew. cbn [get]. by destruct (get props k). Qed.

Lemma get_entry (o : object) k : k ∈ keys o -> (k, get o k) ∈ o.
Proof.
  induction o as [|[k' v] o IH]; [by intros ?%elem_of_nil|].
  cbn. destruct (decide (k' = k)) as [->|Hne].
  - rewrite bool_decide_eq_true_2 by done. intros _. apply list_elem_of_here.
  - rewrite bool_decide_eq_false_2 by done.
    intros [->|Hin]%elem_of_cons; [done|]. by apply list_elem_of_further, IH.
Qed.

Lemma get_present (o : object) k : get o k <> JUndefined -> k ∈ keys o.
Proof.
  intros H. destruct (decide (k ∈ keys o)) as [?|Hout]; [done|].
  by rewrite get_absent in H.
Qed.

Lemma strict_eq_primitive a b :
  strict_eq a b = true -> primitive b = true -> a = b.
Proof.
  destruct a, b; cbn; try done; intros H _; by apply bool_decide_eq_true_1 in H as ->.
Qed.

Lemma strict_eq_truthy a b : strict_eq a b = true -> truthy a = truthy b.
Proof.
  destruct a, b; cbn; try done; intros H; by apply bool_decide_eq_true_1 in H as ->.
Qed.

Lemma strict_eq_undefined a b :
  strict_eq a b = true -> a <> JUndefined -> b <> JUndefined.
Proof. by destruct a, b. Qed.

Lemma elem_of_written_keys (P : string -> bool) (o : object) k :
  k ∈ List.filter P (List.filter isProperty (keys o))
  <-> k ∈ keys o /\ isProperty k = true /\ P k = true.
Proof. rewrite !elem_of_filter_bool. tauto. Qed.

End VdomAttributes.

(** An update leaves the attributes that a creation gives.  When an
    element created for the old props is updated to the new props, its
    attributes are those of an element created for the new props:
    [disabled], [id], [class] for [className], and the [data-] and [aria-]
    attributes.  The values of the new props that go to these attributes
    are primitive and not [undefined], and no two keys of the props are
    written to one attribute (as [data-a] and [data-A] are). *)
Theorem updateDom_leaves_the_attributes_of_a_creation :
  forall tagName prev next created_prev created_next ops,
    Vdom.updateDom (Vdom.ElementNode tagName) [] prev = (created_prev, None) ->
    Vdom.updateDom (Vdom.ElementNode tagName) [] next = (created_next, None) ->
    Vdom.updateDom (Vdom.ElementNode tagName) prev next = (ops, None) ->
    (forall k k', k ∈ Vdom.keys prev ++ Vdom.keys next ->
                  k' ∈ Vdom.keys prev ++ Vdom.keys next ->
                  is_Some (Vdom.attribute_of k) ->
                  Vdom.attribute_of k = Vdom.attribute_of k' -> k = k') ->
    (forall k v, (k, v) ∈ next -> Vdom.isAttribute k = true ->
                 Vdom.primitive v = true /\ v <> Vdom.JUndefined) ->
    Vdom.attributes_after ops (Vdom.attributes_after created_prev ∅)
    = Vdom.attributes_after created_next ∅.
Proof.
  intros tagName prev next created_prev created_next ops Eprev Enext E Hinj Hval.
  apply map_eq. intros a. rewrite !attributes_after_lookup, lookup_empty.
  assert (Hinj' : forall k k', k ∈ Vdom.keys prev ++ Vdom.keys next ->
                    k' ∈ Vdom.keys prev ++ Vdom.keys next ->
                    Vdom.attribute_of k = Some a -> Vdom.attribute_of k' = Some a ->
                    k = k').
  { intros k k' Hk Hk' H H'. apply Hinj; [done..|by rewrite H|congruence]. }
  rewrite (updateDom_last_write tagName prev next ops a E Hinj').
  rewrite (updateDom_last_write tagName [] prev created_prev a Eprev).
  2:{ intros k k' Hk Hk'. cbn in Hk, Hk'. apply Hinj'; apply elem_of_app; by left. }
  rewrite (updateDom_last_write tagName [] next created_next a Enext).
  2:{ intros k k' Hk Hk'. cbn in Hk, Hk'. apply Hinj'; apply elem_of_app; by right. }
  cbn [Vdom.keys map List.filter List.find].
  destruct (List.find _ (List.filter (Vdom.isNew prev next) _)) as [k|] eqn:En.
  - (* the attribute is written for a new key *)
    apply find_attribute_some in En as [Hk Ha].
    apply elem_of_written_keys in Hk as (Hk & Hp & Hnew).
    destruct (List.find _ (List.filter (Vdom.isNew [] next) _)) as [k'|] eqn:Ec.
    + apply find_attribute_some in Ec as [Hk' Ha'].
      apply elem_of_written_keys in Hk' as (Hk' & _ & _).
      by rewrite (Hinj' k k') by (done || apply elem_of_app; by right).
    + pose proof (find_attribute_none a _ k Ec) as Hnot.
      destruct (Vdom.isNew [] next k) eqn:Hc.
      * exfalso. apply Hnot; [|done]. by apply elem_of_written_keys.
      * assert (Hu : Vdom.get next k = Vdom.JUndefined).
        { unfold Vdom.isNew in Hc. cbn [Vdom.get] in Hc.
          by destruct (Vdom.get next k). }
        destruct (attribute_of_cases k a Ha) as [_ [->|[_ Hattr]]].
        -- unfold Vdom.attribute_value. by rewrite bool_decide_eq_true_2, Hu.
        -- by destruct (Hval k _ (get_entry next k Hk) Hattr) as [_ ?].
  - destruct (List.find _ (List.filter (Vdom.isNew [] next) _)) as [k|] eqn:Ec.
    + (* the attribute is that of a key whose value has not changed *)
      apply find_attribute_some in Ec as [Hk Ha].
      apply elem_of_written_keys in Hk as (Hk & Hp & Hdef%isNew_created).
      assert (Hsame : Vdom.strict_eq (Vdom.get prev k) (Vdom.get next k) = true).
      { destruct (Vdom.strict_eq (Vdom.get prev k) (Vdom.get next k)) eqn:Hs; [done|].
        exfalso. apply (find_attribute_none a _ k En); [|done].
        apply elem_of_written_keys. split; [done|]. split; [done|].
        unfold Vdom.isNew. by rewrite Hs. }
      assert (Hdefp : Vdom.get prev k <> Vdom.JUndefined).
      { intros Hu. rewrite Hu in Hsame. by destruct (Vdom.get next k). }
      pose proof (get_present prev k Hdefp) as Hkp.
      destruct (List.find _ (List.filter (Vdom.isGone prev next) _)) as [k2|] eqn:Eg.
      { apply find_attribute_some in Eg as [Hk2 Ha2].
        apply elem_of_written_keys in Hk2 as (Hk2 & _ & Hgone).
        assert (k2 = k) as ->.
        { apply Hinj'; [apply elem_of_app; by left | apply elem_of_app; by right | done..]. }
        unfold Vdom.isGone, Vdom.has in Hgone.
        by rewrite bool_decide_eq_true_2 in Hgone. }
      destruct (List.find _ (List.filter (Vdom.isNew [] prev) _)) as [k3|] eqn:Ep.
      * apply find_attribute_some in Ep as [Hk3 Ha3].
        apply elem_of_written_keys in Hk3 as (Hk3 & _ & _).
        assert (k3 = k) as ->.
        { apply Hinj'; [apply elem_of_app; by left | apply elem_of_app; by right | done..]. }
        unfold Vdom.attribute_value.
        destruct (attribute_of_cases k a Ha) as [_ [->|[Hne Hattr]]].
        -- rewrite !bool_decide_eq_true_2 by done.
           by rewrite (strict_eq_truthy _ _ Hsame).
        -- rewrite !bool_decide_eq_false_2 by done.
           destruct (Hval k _ (get_entry next k Hk) Hattr) as [Hprim _].
           by rewrite (strict_eq_primitive _ _ Hsame Hprim).
      * exfalso. apply (find_attribute_none a _ k Ep); [|done].
        apply elem_of_written_keys. split; [done|]. split; [done|].
        by apply isNew_created.
    + (* no key of the new props is written to the attribute *)
      destruct (List.find _ (List.filter (Vdom.isGone prev next) _)) as [k2|] eqn:Eg;
        [done|].
      destruct (List.find _ (List.filter (Vdom.isNew [] prev) _)) as [k3|] eqn:Ep;
        [|done].
      exfalso. apply find_attribute_some in Ep as [Hk3 Ha3].
      apply elem_of_written_keys in Hk3 as (Hk3 & Hp3 & Hdef3%isNew_created).
      assert (Hin : k3 ∈ Vdom.keys next).
      { destruct (decide (k3 ∈ Vdom.keys next)) as [?|Hout]; [done|]. exfalso.
        apply (find_attribute_none a _ k3 Eg); [|done].
        apply elem_of_written_keys. split; [done|]. split; [done|].
        unfold Vdom.isGone, Vdom.has. by rewrite bool_decide_eq_false_2. }
      assert (Hsame : Vdom.strict_eq (Vdom.get prev k3) (Vdom.get next k3) = true).
      { destruct (Vdom.strict_eq (Vdom.get prev k3) (Vdom.get next k3)) eqn:Hs; [done|].
        exfalso. apply (find_attribute_none a _ k3 En); [|done].
        apply elem_of_written_keys. split; [done|]. split; [done|].
        unfold Vdom.isNew. by rewrite Hs. }
      apply (find_attribute_none a _ k3 Ec); [|done].
      apply elem_of_written_keys. split; [done|]. split; [done|].
      apply isNew_created. by apply (strict_eq_undefined _ _ Hsame).
Qed.

(** An [input] that loses its class and [disabled], changes its [id] and
    gets a [data-] attribute. *)
Lemma updateDom_leaves_the_attributes_of_a_creation_witness :
  let prev := [("id", Vdom.JStr "a"); ("className", Vdom.JStr "wide");
               ("disabled", Vdom.JBool true)] in
  let next := [("id", Vdom.JStr "b"); ("data-n", Vdom.JNum 1)] in
  Vdom.attributes_after (Vdom.updateDom (Vdom.ElementNode "INPUT") prev next).1
    (Vdom.attributes_after (Vdom.updateDom (Vdom.ElementNode "INPUT") [] prev).1 ∅)
  = Vdom.attributes_after (Vdom.updateDom (Vdom.ElementNode "INPUT") [] next).1 ∅.
Proof.
  intros prev next.
  apply (updateDom_leaves_the_attributes_of_a_creation "INPUT" prev next).
  - vm_compute. reflexivity.
  - vm_compute. reflexivity.
  - vm_compute. reflexivity.
  - intros k k' Hk Hk' _ He.
    apply list_elem_of_In in Hk, Hk'. cbn in Hk, Hk'.
    destruct Hk as [<-|[<-|[<-|[<-|[<-|[]]]]]],
             Hk' as [<-|[<-|[<-|[<-|[<-|[]]]]]];
      try reflexivity; vm_compute in He; discriminate He.
  - intros k v Hin Hattr. apply list_elem_of_In in Hin. cbn in Hin.
    destruct Hin as [[= <- <-]|[[= <- <-]|[]]]; done.
Defined.

(** A value [undefined] in the new props is why the values are asked not
    to be: the update writes the empty value where a creation writes no
    attribute. *)
Lemma attribute_updated_to_undefined_stays_empty :
  let prev := [("aria-hidden", Vdom.JStr "true")] in
  let next := [("aria-hidden", Vdom.JUndefined)] in
  Vdom.attributes_after (Vdom.updateDom (Vdom.ElementNode "DIV") prev next).1
    (Vdom.attributes_after (Vdom.updateDom (Vdom.ElementNode "DIV") [] prev).1 ∅)
  !! "aria-hidden" = Some (Vdom.JStr "") /\
  Vdom.attributes_after (Vdom.updateDom (Vdom.ElementNode "DIV") [] next).1 ∅
  !! "aria-hidden" = None.
Proof. vm_compute. done. Qed.

(** ** component: the class [Component] *)

Lemma scheduleRerender_twice s root :
  currentRoot s = Some root ->
  (scheduleRerender ;;; scheduleRerender) s = scheduleRerender s.
Proof.
  intros Hroot. unfold scheduleRerender, startWorkLoop, requestIdleCallback_workLoop.
  msimpl. rewrite Hroot. msimpl. cbn.
  destruct (isWorkLoopRunning s) eqn:Hrun; cbn; rewrite Hroot;
    destruct s; cbn in Hrun; subst; reflexivity.
Qed.

(** The state of a class component is set at once, and the render is
    scheduled once.  Two calls of [setState] in a row, on a page with a
    committed tree, leave the state merged with both partial states, in
    the order of the calls, the second updater reading the state that the
    first call left; and they leave the runtime as one call of
    [forceUpdate] does: one new work-in-progress root, and not a second
    registration of the work loop.  Unlike the setter of [useState],
    [setState] compares nothing: the render is scheduled also when the
    state is left as it was. *)
Theorem Component_setState_merges_at_once_and_schedules_one_render :
  forall partial1 partial2 this s root,
    currentRoot s = Some root ->
    exists this' s',
      (this1 <- Component.setState partial1 this ;;
       Component.setState partial2 this1) s = Ok this' s' /\
      (let state1 := Component.merged (Component.i_state this)
                       (Component.newState partial1 (Component.i_state this)) in
       Component.i_state this'
       = Component.merged state1 (Component.newState partial2 state1)) /\
      Component.forceUpdate s = Ok tt s' /\
      wipRoot s' = Some (root_fiber (f_dom root) (f_props root) (Some root)) /\
      nextUnitOfWork s' = Some [] /\
      idleCallbacks s'
      = (idleCallbacks s + if isWorkLoopRunning s then 0 else 1)%nat.
Proof.
  intros partial1 partial2 this s root Hroot.
  pose proof (scheduleRerender_twice s root Hroot) as Htwice.
  unfold Component.setState, Component.forceUpdate. revert Htwice. msimpl.
  destruct (scheduleRerender s) as [[] s1| |] eqn:E1.
  - destruct (scheduleRerender s1) as [[] s2| |] eqn:E2; intros [= ->]; try done.
    eexists _, s1. split; [reflexivity|]. split; [reflexivity|].
    split; [reflexivity|].
    revert E1. unfold scheduleRerender, startWorkLoop, requestIdleCallback_workLoop.
    msimpl. rewrite Hroot. msimpl. cbn.
    destruct (isWorkLoopRunning s); cbn; intros [= <-]; cbn;
      (split; [done|]); (split; [done|]); lia.
  - exfalso. revert E1.
    unfold scheduleRerender, startWorkLoop, requestIdleCallback_workLoop.
    msimpl. rewrite Hroot. msimpl. cbn. by destruct (isWorkLoopRunning s).
  - exfalso. revert E1.
    unfold scheduleRerender, startWorkLoop, requestIdleCallback_workLoop.
    msimpl. rewrite Hroot. msimpl. cbn. by destruct (isWorkLoopRunning s).
Qed.

(** On the page with the mounted [div]: a count set to 1 and counted up
    is 2, with one callback registered. *)
Lemma Component_setState_merges_at_once_and_schedules_one_render_witness :
  exists this' s',
    (this1 <- Component.setState (count_is 1) (Component.new (Props None [] [])) ;;
     Component.setState count_up this1) pair_mounted = Ok this' s' /\
    Component.i_state this' !! "count" = Some (VNum 2) /\
    idleCallbacks s' = 1%nat.
Proof.
  destruct (currentRoot pair_mounted) as [root|] eqn:Hroot;
    [|vm_compute in Hroot; discriminate].
  destruct (Component_setState_merges_at_once_and_schedules_one_render
              (count_is 1) count_up (Component.new (Props None [] []))
              pair_mounted root Hroot)
    as (this' & s' & E & Hstate & _ & _ & _ & Hidle).
  exists this', s'. split; [exact E|]. split.
  - rewrite Hstate. vm_compute. reflexivity.
  - rewrite Hidle. vm_compute. reflexivity.
Defined.
